(** * SailCode-Bridge: path authorization and bounded file access

    A shallow embedding of [src/index.js] (the local read-only bridge
    service) together with the properties of its path-authorization,
    directory-scan and bounded-read layer.

    Conventions of the embedding.
    - A JavaScript string is a [string]: the sequence of the bytes of its
      UTF-8 encoding.  Every operation the service applies to strings
      (splitting on ['/'] and on the line feed, prefix tests, looking for
      ['.']) only inspects ASCII characters, and those are single bytes
      that never occur inside a multi-byte sequence.  [trim] and
      [toLowerCase] are modelled on the ASCII range.
    - A JavaScript number is a [number]: NaN, the two infinities, or an
      exact rational.  Rounding to binary64 is not modelled; the service
      only compares numbers with integers and takes minima.
    - [node:path] is the POSIX flavour, and [node:fs] is a record of
      functions on path strings which may fail ([None] is a thrown
      exception or a rejected promise).
    - The [async] functions are run to completion: the service never
      interleaves two steps of one handler with another handler's writes
      to the state that the properties below talk about. *)

From Stdlib Require Import ZArith QArith Qround List String Ascii Bool Lia.
From Stdlib Require Import Permutation Sorted.
Import ListNotations.

Local Open Scope string_scope.
Local Open Scope Z_scope.

(* ================================================================== *)
(** ** JavaScript built-ins used by the service *)
(* ================================================================== *)

Module JS.

(** *** Strings *)

(** [s.startsWith(p)] *)
Definition startsWith (p s : string) : bool := String.prefix p s.

(** [l.includes(x)] on an array of strings *)
Definition includes (x : string) (l : list string) : bool :=
  existsb (String.eqb x) l.

(** A string is truthy when it is not empty. *)
Definition truthy (s : string) : bool := negb (s =? "")%string.

Definition isWhiteSpace (c : ascii) : bool :=
  let n := Z.of_nat (nat_of_ascii c) in
  ((9 <=? n) && (n <=? 13)) || (n =? 32).

Fixpoint trimStart (s : string) : string :=
  match s with
  | EmptyString => EmptyString
  | String c r => if isWhiteSpace c then trimStart r else s
  end.

Fixpoint trimEnd (s : string) : string :=
  match s with
  | EmptyString => EmptyString
  | String c r =>
      let r' := trimEnd r in
      if isWhiteSpace c && (r' =? "")%string then EmptyString else String c r'
  end.

(** [s.trim()] *)
Definition trim (s : string) : string := trimEnd (trimStart s).

(** [s.split(sep)] for a one-character separator: never the empty array. *)
Fixpoint split (sep : ascii) (s : string) : list string :=
  match s with
  | EmptyString => [EmptyString]
  | String c r =>
      if Ascii.eqb c sep then EmptyString :: split sep r
      else match split sep r with
           | h :: t => String c h :: t
           | [] => [String c EmptyString]
           end
  end.

(** [l.join(sep)] *)
Definition join (sep : string) (l : list string) : string :=
  String.concat sep l.

Definition lowerChar (c : ascii) : ascii :=
  let n := nat_of_ascii c in
  if (65 <=? n)%nat && (n <=? 90)%nat then ascii_of_nat (n + 32) else c.

(** [s.toLowerCase()] *)
Fixpoint toLowerCase (s : string) : string :=
  match s with
  | EmptyString => EmptyString
  | String c r => String (lowerChar c) (toLowerCase r)
  end.

(** [l.slice(0, n)] for an integer [n] *)
Definition slice0 {A} (n : Z) (l : list A) : list A :=
  if n <? 0 then firstn (List.length l - Z.to_nat (- n)) l
  else firstn (Z.to_nat n) l.

(** *** Numbers *)

Inductive number : Type :=
| NaN
| NegInf
| Fin (q : Q)
| PosInf.

Definition ofZ (z : Z) : number := Fin (inject_Z z).

(** [a < b]; every comparison with NaN is false. *)
Definition lt (a b : number) : bool :=
  match a, b with
  | NaN, _ | _, NaN => false
  | PosInf, _ => false
  | _, NegInf => false
  | NegInf, _ => true
  | _, PosInf => true
  | Fin x, Fin y => negb (Qle_bool y x)
  end.

(** [a <= b] *)
Definition le (a b : number) : bool :=
  match a, b with
  | NaN, _ | _, NaN => false
  | NegInf, _ => true
  | _, PosInf => true
  | PosInf, _ => false
  | _, NegInf => false
  | Fin x, Fin y => Qle_bool x y
  end.

(** [a > b] and [a >= b] *)
Definition gt (a b : number) : bool := lt b a.
Definition ge (a b : number) : bool := le b a.

(** [Math.min(a, b)] *)
Definition Math_min (a b : number) : number :=
  match a, b with
  | NaN, _ | _, NaN => NaN
  | _, _ => if lt b a then b else a
  end.

(** Truthiness of a number: neither zero nor NaN. *)
Definition truthyNum (a : number) : bool :=
  match a with
  | NaN => false
  | Fin q => negb (Qeq_bool q 0)
  | _ => true
  end.

(** Truncation towards zero of a finite number. *)
Definition truncate (q : Q) : Z :=
  if Qle_bool 0 q then Qfloor q else Qceiling q.

(** [l.slice(0, n)]: [ToIntegerOrInfinity] of the bound, then the slice. *)
Definition sliceTo {A} (n : number) (l : list A) : list A :=
  match n with
  | NaN => slice0 0 l
  | NegInf => []
  | PosInf => l
  | Fin q => slice0 (truncate q) l
  end.

(** *** [Number(s)] on a string: the StringToNumber grammar *)

Definition digitOf (base : Z) (c : ascii) : option Z :=
  let n := Z.of_nat (nat_of_ascii c) in
  let v := if (48 <=? n) && (n <=? 57) then n - 48
           else if (97 <=? n) && (n <=? 102) then n - 87
           else if (65 <=? n) && (n <=? 70) then n - 55
           else 36 in
  if v <? base then Some v else None.

(** Reads the longest run of digits in [base]: the value accumulated on
    [acc], how many digits were read, and what follows them. *)
Fixpoint readDigits (base : Z) (s : string) (acc : Z) (count : Z)
  : Z * Z * string :=
  match s with
  | EmptyString => (acc, count, s)
  | String c r =>
      match digitOf base c with
      | Some d => readDigits base r (acc * base + d) (count + 1)
      | None => (acc, count, s)
      end
  end.

(** [m * 10^e] as an exact rational. *)
Definition scale10 (m e : Z) : Q :=
  if 0 <=? e then inject_Z (m * 10 ^ e)
  else Qmake m (Z.to_pos (10 ^ (- e))).

(** The exponent part: [e] or [E], an optional sign, at least one digit,
    and nothing after it; no exponent part at all counts as zero. *)
Definition readExponent (s : string) : option Z :=
  match s with
  | EmptyString => Some 0
  | String c r =>
      if (Ascii.eqb c "e" || Ascii.eqb c "E")%bool then
        let '(neg, r') :=
          match r with
          | String "-" t => (true, t)
          | String "+" t => (false, t)
          | _ => (false, r)
          end in
        match readDigits 10 r' 0 0 with
        | (v, n, EmptyString) =>
            if 0 <? n then Some (if neg then - v else v) else None
        | _ => None
        end
      else None
  end.

(** StrUnsignedDecimalLiteral *)
Definition unsignedDecimal (s : string) : option number :=
  if (s =? "Infinity")%string then Some PosInf
  else
    let '(ip, n1, r1) := readDigits 10 s 0 0 in
    let '(m, n2, r2) :=
      match r1 with
      | String "." t => readDigits 10 t ip 0
      | _ => (ip, 0, r1)
      end in
    if 0 <? n1 + n2 then
      match readExponent r2 with
      | Some e => Some (Fin (scale10 m (e - n2)))
      | None => None
      end
    else None.

Definition negate (a : number) : number :=
  match a with
  | NaN => NaN
  | NegInf => PosInf
  | PosInf => NegInf
  | Fin q => Fin (Qopp q)
  end.

(** NonDecimalIntegerLiteral: [0x], [0o] or [0b] and at least one digit. *)
Definition nonDecimal (s : string) : option number :=
  match s with
  | String "0" (String c r) =>
      let base :=
        if (Ascii.eqb c "x" || Ascii.eqb c "X")%bool then 16
        else if (Ascii.eqb c "o" || Ascii.eqb c "O")%bool then 8
        else if (Ascii.eqb c "b" || Ascii.eqb c "B")%bool then 2
        else 0 in
      if base =? 0 then None
      else match readDigits base r 0 0 with
           | (v, n, EmptyString) => if 0 <? n then Some (ofZ v) else None
           | _ => None
           end
  | _ => None
  end.

(** [Number(s)] for a string [s]. *)
Definition StringToNumber (s : string) : number :=
  let t := trim s in
  if (t =? "")%string then ofZ 0
  else match nonDecimal t with
       | Some v => v
       | None =>
           let r := match t with
                    | String "-" u => option_map negate (unsignedDecimal u)
                    | String "+" u => unsignedDecimal u
                    | _ => unsignedDecimal t
                    end in
           match r with
           | Some v => v
           | None => NaN
           end
       end.

End JS.

(* ================================================================== *)
(** ** [node:path], POSIX flavour *)
(* ================================================================== *)

(** The functions of Node's [path.posix] that the service calls.  The
    library scans its argument character by character and acts at each
    ['/']; [normalizeString] and [relative] are written here over the
    ['/']-separated segments, which is what those loops compute, and
    [extname] keeps the library's index loop and its five variables. *)
Module Path.
Import JS.

(** One segment of [normalizeString]: empty segments and ["."] are
    dropped, [".."] removes the last kept segment unless there is none or
    it is itself [".."], in which case it is kept only above a relative
    root.  [res] holds the kept segments, last one first. *)
Definition normalizeStep (allowAboveRoot : bool) (res : list string)
  (seg : string) : list string :=
  if (seg =? "")%string then res
  else if (seg =? ".")%string then res
  else if (seg =? "..")%string then
    match res with
    | top :: rest =>
        if (top =? "..")%string
        then (if allowAboveRoot then seg :: res else res)
        else rest
    | [] => if allowAboveRoot then [seg] else []
    end
  else seg :: res.

Definition normalizeSegments (allowAboveRoot : bool) (segs : list string)
  : list string :=
  rev (fold_left (normalizeStep allowAboveRoot) segs []).

Definition normalizeString (path : string) (allowAboveRoot : bool) : string :=
  JS.join "/" (normalizeSegments allowAboveRoot (split "/" path)).

(** [path.isAbsolute(p)] *)
Definition isAbsolute (p : string) : bool := startsWith "/" p.

(** [path.resolve(p)] with one argument; [cwd] is [process.cwd()]. *)
Definition resolve (cwd p : string) : string :=
  let '(resolvedPath, resolvedAbsolute) :=
    if (p =? "")%string then (EmptyString, false)
    else (p ++ "/", isAbsolute p) in
  let '(resolvedPath, resolvedAbsolute) :=
    if resolvedAbsolute then (resolvedPath, true)
    else if (cwd =? "")%string then (resolvedPath, false)
    else (cwd ++ "/" ++ resolvedPath, isAbsolute cwd) in
  let resolvedPath := normalizeString resolvedPath (negb resolvedAbsolute) in
  if resolvedAbsolute then "/" ++ resolvedPath
  else if truthy resolvedPath then resolvedPath else ".".

(** The non-empty segments of a path. *)
Definition segments (p : string) : list string :=
  filter truthy (split "/" p).

(** Strips the longest common prefix of two segment lists. *)
Fixpoint dropCommon (a b : list string) : list string * list string :=
  match a, b with
  | x :: a', y :: b' =>
      if (x =? y)%string then dropCommon a' b' else (a, b)
  | _, _ => (a, b)
  end.

(** [path.relative(from, to)]: one [".."] for every segment of [from]
    below the common ancestor, then the segments of [to] below it. *)
Definition relative (cwd from to : string) : string :=
  if (from =? to)%string then EmptyString
  else
    let from := resolve cwd from in
    let to := resolve cwd to in
    if (from =? to)%string then EmptyString
    else
      let '(up, down) := dropCommon (segments from) (segments to) in
      JS.join "/" (map (fun _ => "..") up ++ down).

(** [path.extname(p)] *)
Record extState : Type := mkExt {
  startDot : Z;
  startPart : Z;
  endPos : Z;
  matchedSlash : bool;
  preDotState : Z
}.

(** The loop [for (i = path.length - 1; i >= 0; --i)], entered with
    [n = i + 1]. *)
Fixpoint extnameLoop (path : string) (n : nat) (st : extState) : extState :=
  match n with
  | O => st
  | S i' =>
      let i := Z.of_nat i' in
      match String.get i' path with
      | None => st
      | Some code =>
          if Ascii.eqb code "/" then
            if negb (matchedSlash st)
            then mkExt (startDot st) (i + 1) (endPos st) (matchedSlash st)
                       (preDotState st)
            else extnameLoop path i' st
          else
            let st1 :=
              if endPos st =? -1
              then mkExt (startDot st) (startPart st) (i + 1) false
                         (preDotState st)
              else st in
            let st2 :=
              if Ascii.eqb code "." then
                if startDot st1 =? -1
                then mkExt i (startPart st1) (endPos st1) (matchedSlash st1)
                           (preDotState st1)
                else if negb (preDotState st1 =? 1)
                then mkExt (startDot st1) (startPart st1) (endPos st1)
                           (matchedSlash st1) 1
                else st1
              else if negb (startDot st1 =? -1)
              then mkExt (startDot st1) (startPart st1) (endPos st1)
                         (matchedSlash st1) (-1)
              else st1 in
            extnameLoop path i' st2
      end
  end.

Definition extname (path : string) : string :=
  let st := extnameLoop path (String.length path) (mkExt (-1) 0 (-1) true 0) in
  if (startDot st =? -1) || (endPos st =? -1) || (preDotState st =? 0)
     || ((preDotState st =? 1) && (startDot st =? endPos st - 1)
         && (startDot st =? startPart st + 1))
  then EmptyString
  else substring (Z.to_nat (startDot st))
                 (Z.to_nat (endPos st - startDot st)) path.

(** [path.normalize(p)] *)
Definition normalize (path : string) : string :=
  if (path =? "")%string then "."
  else
    let isAbs := isAbsolute path in
    let trailingSeparator :=
      match String.get (String.length path - 1) path with
      | Some c => Ascii.eqb c "/"
      | None => false
      end in
    let p := normalizeString path (negb isAbs) in
    if (p =? "")%string then
      if isAbs then "/" else if trailingSeparator then "./" else "."
    else
      let p := if trailingSeparator then p ++ "/" else p in
      if isAbs then "/" ++ p else p.

(** [path.join(a, b)] *)
Definition join (a b : string) : string :=
  let joined :=
    if (a =? "")%string then b
    else if (b =? "")%string then a
    else a ++ "/" ++ b in
  if (joined =? "")%string then "." else normalize joined.

End Path.

(* ================================================================== *)
(** ** The service: [src/index.js] *)
(* ================================================================== *)

Module Bridge.
Import JS.

(** The configuration object ([DEFAULT_CONFIG] gives its shape); the
    token, port and origins play no part below. *)
Record Config : Type := mkConfig {
  allowedPaths : list string;
  activeProjectRoot : string;
  maxFileSize : number;
  maxReadLines : number;
  maxDepth : number;
  maxEntries : number;
  forbiddenExtensions : list string;
  ignoredDirs : list string
}.

Definition DEFAULT_CONFIG : Config := {|
  allowedPaths := [];
  activeProjectRoot := "";
  maxFileSize := ofZ (1024 * 1024);
  maxReadLines := ofZ 10000;
  maxDepth := ofZ 4;
  maxEntries := ofZ 800;
  forbiddenExtensions :=
    [".env"; ".env.local"; ".env.production";
     ".key"; ".pem"; ".p12"; ".pfx";
     ".exe"; ".dll"; ".so"; ".dylib";
     ".zip"; ".tar"; ".gz"; ".rar"];
  ignoredDirs :=
    ["node_modules"; ".git"; ".next"; ".turbo"; "dist"; "build"; "out"]
|}.

(** What [fs.stat] reports. *)
Record Stats : Type := mkStats {
  isDirectory : bool;
  size : Z;
  mtime : string
}.

(** [node:fs] as the service sees it; [None] is a thrown error. *)
Record FileSystem : Type := mkFs {
  readdir : string -> option (list string);
  stat : string -> option Stats;
  readFile : string -> string -> option string
}.

Definition existsSync (fs : FileSystem) (p : string) : bool :=
  match stat fs p with Some _ => true | None => false end.

(** The calls a handler makes to [node:fs], in order. *)
Inductive fsCall : Type :=
| CallExists (p : string)
| CallStat (p : string)
| CallReadFile (p encoding : string).

(** The text of a response: a fixed string, or the template of the
    too-large message with the two numbers it interpolates. *)
Inductive message : Type :=
| Text (s : string)
| FileTooLargeText (actual : Z) (limit : number).

Inductive response : Type :=
| Error (status : Z) (code : string) (msg : message)
| ScanResult (currentDir fileStructure : string) (limDepth limEntries : number)
| ReadResult (path content : string) (fileSize : Z) (lastModified : string)
             (lineCount : Z) (truncated : bool)
| AllowedPathsResult (paths : list string) (active : string)
| Rejected.

(** The options object handed to [scanDirTree]. *)
Record ScanOpts : Type := mkOpts {
  optMaxDepth : number;
  optMaxEntries : number;
  optIgnoredDirs : list string
}.

(** The two variables [scanDirTree] closes over, and the directories
    [walk] has asked [fs.readdir] for, each with the depth of the call. *)
Record ScanState : Type := mkScan {
  lines : list string;
  entriesCount : Z;
  listed : list (Z * string)
}.

Definition truncatedLine : string := "…(truncated)".
Definition truncatedSuffix : string := "... (truncated)".
Definition LF : ascii := ascii_of_nat 10.
Definition LFs : string := String LF EmptyString.

Section Service.

(** [process.cwd()] and the collation order of [String.prototype.localeCompare]. *)
Variable cwd : string.
Variable localeCompare : string -> string -> Z.

(** [const normalizePath = (inputPath) => path.resolve(String(inputPath || '').trim())] *)
Definition normalizePath (inputPath : string) : string :=
  Path.resolve cwd (trim inputPath).

Definition isWithinAllowed (targetPath : string) (allowed : list string) : bool :=
  if (Z.of_nat (List.length allowed) =? 0) then false
  else
    let resolved := normalizePath targetPath in
    existsb (fun base =>
      let root := normalizePath base in
      if negb (truthy root) then false
      else if (resolved =? root)%string then true
      else
        let rel := Path.relative cwd root resolved in
        truthy rel && negb (startsWith ".." rel) && negb (Path.isAbsolute rel))
      allowed.

Definition isForbiddenExtension (filePath : string) (forbidden : list string) : bool :=
  let ext := toLowerCase (Path.extname filePath) in
  includes ext forbidden.

(** [dirents.sort((a, b) => a.localeCompare(b))]: a stable sort. *)
Fixpoint insertName (x : string) (l : list string) : list string :=
  match l with
  | [] => [x]
  | y :: t => if localeCompare x y <=? 0 then x :: l else y :: insertName x t
  end.

Definition sortNames (l : list string) : list string :=
  fold_right insertName [] l.

Definition entryLine (prefix : string) (isDir : bool) (name : string) : string :=
  prefix ++ (if isDir then "📁 " else "📄 ") ++ name.

Section Scan.

Variable fs : FileSystem.
Variable opts : ScanOpts.

(** The [for (const name of dirents)] loop of [walk]; [rec] is [walk]
    itself, for the nested call. *)
Fixpoint walkEntries
  (rec : string -> Z -> string -> ScanState -> option ScanState)
  (dir : string) (depth : Z) (prefix : string)
  (names : list string) (st : ScanState) : option ScanState :=
  match names with
  | [] => Some st
  | name :: rest =>
      if ge (ofZ (entriesCount st)) (optMaxEntries opts) then Some st
      else if includes name (optIgnoredDirs opts)
      then walkEntries rec dir depth prefix rest st
      else
        let fullPath := Path.join dir name in
        match stat fs fullPath with
        | None => walkEntries rec dir depth prefix rest st
        | Some s =>
            let isDir := isDirectory s in
            let st1 := mkScan (lines st ++ [entryLine prefix isDir name])%list
                              (entriesCount st + 1) (listed st) in
            if isDir then
              match rec fullPath (depth + 1) (prefix ++ "  ") st1 with
              | None => None
              | Some st2 => walkEntries rec dir depth prefix rest st2
              end
            else walkEntries rec dir depth prefix rest st1
        end
  end.

(** [walk]; [fuel] bounds the nesting of calls and [None] means it ran
    out. *)
Fixpoint walk (fuel : nat) (dir : string) (depth : Z) (prefix : string)
  (st : ScanState) : option ScanState :=
  match fuel with
  | O => None
  | S fuel' =>
      if ge (ofZ (entriesCount st)) (optMaxEntries opts) then Some st
      else if gt (ofZ depth) (optMaxDepth opts) then Some st
      else
        let st0 := mkScan (lines st) (entriesCount st)
                          (listed st ++ [(depth, dir)])%list in
        match readdir fs dir with
        | None => Some st0
        | Some dirents =>
            walkEntries (walk fuel') dir depth prefix (sortNames dirents) st0
        end
  end.

Definition scanDirTree (fuel : nat) (rootDir : string) : option ScanState :=
  match walk fuel rootDir 0 "" (mkScan [] 0 []) with
  | None => None
  | Some st =>
      if ge (ofZ (entriesCount st)) (optMaxEntries opts)
      then Some (mkScan (lines st ++ [truncatedLine])%list (entriesCount st)
                   (listed st))
      else Some st
  end.

End Scan.

(** [Number(q || dflt)] for a query parameter [q] ([None]: not given). *)
Definition queryNumber (q : option string) (dflt : number) : number :=
  match q with
  | Some s => if truthy s then StringToNumber s else dflt
  | None => dflt
  end.

Definition scanLimits (config : Config) (qMaxDepth qMaxEntries : option string)
  : number * number :=
  (Math_min (queryNumber qMaxDepth (maxDepth config)) (ofZ 8),
   Math_min (queryNumber qMaxEntries (maxEntries config)) (ofZ 1500)).

(** [GET /project/scan] *)
Definition projectScan (fuel : nat) (fs : FileSystem) (config : Config)
  (qPath qMaxDepth qMaxEntries : option string) : option response :=
  let pathParam :=
    match qPath with
    | Some s => if truthy s then s else activeProjectRoot config
    | None => activeProjectRoot config
    end in
  let '(maxDepth, maxEntries) := scanLimits config qMaxDepth qMaxEntries in
  if negb (truthy pathParam)
  then Some (Error 400 "INVALID_REQUEST" (Text "path is required"))
  else
    let resolvedPath := normalizePath pathParam in
    if negb (isWithinAllowed resolvedPath (allowedPaths config))
    then Some (Error 403 "ACCESS_DENIED" (Text "Path not allowed"))
    else
      match stat fs resolvedPath with
      | None => Some (Error 404 "NOT_FOUND" (Text "Path not found"))
      | Some st =>
          if negb (isDirectory st)
          then Some (Error 400 "NOT_DIRECTORY" (Text "Path is not a directory"))
          else
            match scanDirTree fs (mkOpts maxDepth maxEntries (ignoredDirs config))
                              fuel resolvedPath with
            | None => None
            | Some r =>
                Some (ScanResult resolvedPath (JS.join LFs (lines r))
                                 maxDepth maxEntries)
            end
      end.

(** The line bound of [POST /fs/read]. *)
Definition boundLines (maxLines : number) (content : string) : string :=
  if truthyNum maxLines && gt maxLines (ofZ 0) then
    let ls := split LF content in
    if gt (ofZ (Z.of_nat (List.length ls))) maxLines
    then JS.join LFs (sliceTo maxLines ls) ++ LFs ++ truncatedSuffix
    else content
  else content.

(** [POST /fs/read]: the response and the calls made to the file system. *)
Definition fsRead (fs : FileSystem) (config : Config)
  (bPath bEncoding : option string) (bMaxLines : option number)
  : response * list fsCall :=
  let encoding := match bEncoding with Some e => e | None => "utf8" end in
  let maxLines := match bMaxLines with Some m => m | None => maxReadLines config end in
  match bPath with
  | None => (Error 400 "INVALID_REQUEST" (Text "File path is required"), [])
  | Some filePath =>
      if negb (truthy filePath)
      then (Error 400 "INVALID_REQUEST" (Text "File path is required"), [])
      else
        let resolvedPath := normalizePath filePath in
        if negb (isWithinAllowed resolvedPath (allowedPaths config))
        then (Error 403 "ACCESS_DENIED" (Text "Path not allowed"), [])
        else if isForbiddenExtension resolvedPath (forbiddenExtensions config)
        then (Error 403 "ACCESS_DENIED" (Text "Forbidden file type"), [])
        else if negb (existsSync fs resolvedPath)
        then (Error 404 "NOT_FOUND" (Text "File not found"),
              [CallExists resolvedPath])
        else
          match stat fs resolvedPath with
          | None => (Rejected, [CallExists resolvedPath; CallStat resolvedPath])
          | Some stats =>
              if gt (ofZ (size stats)) (maxFileSize config)
              then (Error 413 "FILE_TOO_LARGE"
                          (FileTooLargeText (size stats) (maxFileSize config)),
                    [CallExists resolvedPath; CallStat resolvedPath])
              else
                let calls := [CallExists resolvedPath; CallStat resolvedPath;
                              CallReadFile resolvedPath encoding] in
                match readFile fs resolvedPath encoding with
                | None => (Rejected, calls)
                | Some content =>
                    let finalContent := boundLines maxLines content in
                    (ReadResult filePath finalContent (size stats) (mtime stats)
                       (Z.of_nat (List.length (split LF finalContent)))
                       (negb (content =? finalContent)%string),
                     calls)
                end
          end
  end.

(** The configuration with its two authorization fields replaced. *)
Definition withRoots (config : Config) (paths : list string) (active : string)
  : Config :=
  mkConfig paths active (maxFileSize config) (maxReadLines config)
           (maxDepth config) (maxEntries config)
           (forbiddenExtensions config) (ignoredDirs config).

(** [action === name], for an [action] that may be missing. *)
Definition actionIs (action : option string) (name : string) : bool :=
  match action with
  | Some a => (a =? name)%string
  | None => false
  end.

(** [POST /config/allowed-paths]: the response and the configuration the
    handler leaves behind (which it also writes to the configuration
    file when it answers with the two lists). *)
Definition postAllowedPaths (fs : FileSystem) (config : Config)
  (action targetPath : option string) : response * Config :=
  let done (c : Config) : response * Config :=
    (AllowedPathsResult (allowedPaths c) (activeProjectRoot c), c) in
  match targetPath with
  | None => (Error 400 "INVALID_REQUEST" (Text "path is required"), config)
  | Some target =>
      if negb (truthy target)
      then (Error 400 "INVALID_REQUEST" (Text "path is required"), config)
      else
        let resolved := normalizePath target in
        match stat fs resolved with
        | None => (Error 404 "NOT_FOUND" (Text "Path not found"), config)
        | Some stats =>
            if negb (isDirectory stats)
            then (Error 400 "NOT_DIRECTORY" (Text "Path is not a directory"),
                  config)
            else if actionIs action "add" then
              let paths :=
                if negb (includes resolved (allowedPaths config))
                then (allowedPaths config ++ [resolved])%list
                else allowedPaths config in
              let active :=
                if negb (truthy (activeProjectRoot config)) then resolved
                else activeProjectRoot config in
              done (withRoots config paths active)
            else if actionIs action "remove" then
              let paths :=
                filter (fun p => negb (p =? resolved)%string)
                       (allowedPaths config) in
              let active :=
                if (activeProjectRoot config =? resolved)%string
                then match paths with
                     | first :: _ => if truthy first then first else ""
                     | [] => ""
                     end
                else activeProjectRoot config in
              done (withRoots config paths active)
            else if actionIs action "setActive" then
              if negb (includes resolved (allowedPaths config))
              then (Error 400 "INVALID_REQUEST" (Text "Path not in allowlist"),
                    config)
              else done (withRoots config (allowedPaths config) resolved)
            else (Error 400 "INVALID_REQUEST" (Text "Invalid action"), config)
        end
  end.

End Service.

End Bridge.

(* ================================================================== *)
(** ** Vocabulary of the properties *)
(* ================================================================== *)

Module ScanDefs.
Import JS Bridge.

(** The prefix [walk] is called with at depth [k]: two spaces a level. *)
Fixpoint indent (k : nat) : string :=
  match k with
  | O => EmptyString
  | S k' => indent k' ++ "  "
  end.

(** [line] is the line of an entry listed at a depth of at most [d]. *)
Definition entryAt (d : Z) (line : string) : Prop :=
  exists (k : nat) (isDir : bool) (name : string),
    line = entryLine (indent k) isDir name /\ Z.of_nat k <= d.

(** What holds of the state all along a scan with the integer limits
    [d] and [e]: the counter is the number of lines and stays within
    [e], and lines and [readdir] calls stay within depth [d]. *)
Definition scanInv (d e : Z) (st : ScanState) : Prop :=
  0 <= entriesCount st <= e
  /\ Z.of_nat (List.length (lines st)) = entriesCount st
  /\ Forall (entryAt d) (lines st)
  /\ Forall (fun x : Z * string => 0 <= fst x <= d) (listed st).

(** A run only appends lines, and counts each line it appends. *)
Definition grows (st st' : ScanState) : Prop :=
  exists new : list string,
    lines st' = (lines st ++ new)%list
    /\ entriesCount st' = entriesCount st + Z.of_nat (List.length new).

(** Two states that agree on what [scanDirTree] returns. *)
Definition sameOutput (a b : ScanState) : Prop :=
  lines a = lines b /\ entriesCount a = entriesCount b.

(** [recL] follows [recU] as long as the latter ends within [n] entries. *)
Definition follows (n : Z)
  (recU recL : string -> Z -> string -> ScanState -> option ScanState) : Prop :=
  forall dir depth prefix stU stU' stL,
    recU dir depth prefix stU = Some stU' ->
    sameOutput stL stU -> entriesCount stU' <= n ->
    exists stL', recL dir depth prefix stL = Some stL' /\ sameOutput stL' stU'.

End ScanDefs.


(** A small project tree and a byte-order collation, used to run the
    service on concrete requests. *)
Module Demo.
Import JS Bridge.

Definition byteOrder (a b : string) : Z :=
  match String.compare a b with
  | Lt => -1
  | Eq => 0
  | Gt => 1
  end.

Inductive node : Type :=
| FileNode (bytes : Z) (content : string)
| DirNode (names : list string).

Definition stamp : string := "2024-05-01T10:00:00.000Z".

Definition tree : list (string * node) :=
  [ ("/home/u/proj",
      DirNode ["src"; "README.md"; ".env"; "node_modules"; "..cache";
               "notes.txt"; "big.bin"]);
    ("/home/u/proj/src", DirNode ["lib"; "index.js"]);
    ("/home/u/proj/src/lib", DirNode ["util.js"]);
    ("/home/u/proj/src/lib/util.js", FileNode 4 "// u");
    ("/home/u/proj/src/index.js", FileNode 5 "run()");
    ("/home/u/proj/README.md",
      FileNode 11 ("one" ++ LFs ++ "two" ++ LFs ++ "six"));
    ("/home/u/proj/.env", FileNode 8 "SECRET=1");
    ("/home/u/proj/node_modules", DirNode []);
    ("/home/u/proj/..cache", FileNode 2 "ok");
    ("/home/u/proj/notes.txt",
      FileNode 17 ("a" ++ LFs ++ truncatedSuffix));
    ("/home/u/proj/big.bin", FileNode (2 * 1024 * 1024) "");
    ("/home/u/proj ", DirNode ["private.txt"]);
    ("/home/u/proj /private.txt", FileNode 3 "key");
    ("/home/u/other", DirNode []);
    ("/srv/bridge", DirNode ["package.json"]);
    ("/srv/bridge/package.json", FileNode 2 "{}") ]%string.

Fixpoint lookup (p : string) (t : list (string * node)) : option node :=
  match t with
  | [] => None
  | (q, n) :: rest => if (p =? q)%string then Some n else lookup p rest
  end.

Definition fs : FileSystem := {|
  readdir := fun p =>
    match lookup p tree with
    | Some (DirNode names) => Some names
    | _ => None
    end;
  stat := fun p =>
    match lookup p tree with
    | Some (FileNode bytes _) => Some (mkStats false bytes stamp)
    | Some (DirNode _) => Some (mkStats true 4096 stamp)
    | None => None
    end;
  readFile := fun p _ =>
    match lookup p tree with
    | Some (FileNode _ content) => Some content
    | _ => None
    end
|}.

(** The default configuration once [/home/u/proj] has been authorized. *)
Definition config : Config :=
  withRoots DEFAULT_CONFIG ["/home/u/proj"%string] "/home/u/proj".

(** A chain of directories [/r/d/d/...] ten levels deep. *)
Definition deepFs : FileSystem := {|
  readdir := fun p =>
    if (Z.of_nat (String.length p) <=? 20) then Some ["d"%string] else Some [];
  stat := fun _ => Some (mkStats true 4096 stamp);
  readFile := fun _ _ => None
|}.

(** A file name [f0000], [f0001], ...: four decimal digits, so that the
    names come in the same order as the numbers. *)
Definition digit (n : nat) : ascii := ascii_of_nat (48 + n mod 10).

Definition fileName (n : nat) : string :=
  String "f" (String (digit (n / 1000)) (String (digit (n / 100))
    (String (digit (n / 10)) (String (digit n) EmptyString)))).

(** One directory [/w] holding the [count] files [f0000], [f0001], ... *)
Definition wideFs (count : nat) : FileSystem := {|
  readdir := fun p =>
    if (p =? "/w")%string then Some (map fileName (seq 0 count)) else None;
  stat := fun p =>
    if (p =? "/w")%string then Some (mkStats true 4096 stamp)
    else Some (mkStats false 1 stamp);
  readFile := fun _ _ => None
|}.

End Demo.

Module StringDefs.
(** [s] contains the character [c]. *)
Fixpoint hasChar (c : ascii) (s : string) : bool :=
  match s with
  | EmptyString => false
  | String x r => Ascii.eqb x c || hasChar c r
  end.
End StringDefs.

Module ConfigDefs.
Import JS Bridge.

(** The active root is empty or one of the authorized roots. *)
Definition activeRootValid (config : Config) : Prop :=
  activeProjectRoot config = EmptyString
  \/ In (activeProjectRoot config) (allowedPaths config).

(** The configurations the service can be in after any number of
    requests to [/config/allowed-paths], starting from [start]; the file
    system may be a different one at each request. *)
Inductive reachable (cwd : string) (start : Config) : Config -> Prop :=
| reach_start : reachable cwd start start
| reach_request (config : Config) (fs : FileSystem)
    (action targetPath : option string) :
    reachable cwd start config ->
    reachable cwd start (snd (postAllowedPaths cwd fs config action targetPath)).

End ConfigDefs.

Module AuthDefs.
Import JS Bridge StringDefs.

(** A path segment as canonical paths have them: a name, neither empty
    nor ["."] nor [".."], without a separator in it. *)
Definition plain (seg : string) : Prop :=
  seg <> EmptyString /\ seg <> "."%string /\ seg <> ".."%string
  /\ hasChar "/" seg = false.

(** A canonical absolute path: ['/'] and plain segments joined by ['/']. *)
Definition canonical (p : string) : Prop :=
  exists segs : list string,
    Forall plain segs /\ p = ("/" ++ JS.join "/" segs)%string.

(** The authorization predicate as the specification words it: the
    canonical path equals a canonical root, or its relative path from
    that root is not empty, does not start with a parent-traversal
    segment, and is not absolute. *)
Definition firstSegment (rel : string) : string :=
  hd EmptyString (split "/" rel).

Definition isAuthorized (cwd : string) (target : string) (roots : list string)
  : bool :=
  existsb (fun r =>
    let root := normalizePath cwd r in
    let resolved := normalizePath cwd target in
    (resolved =? root)%string
    || (let rel := Path.relative cwd root resolved in
        truthy rel && negb (firstSegment rel =? "..")%string
        && negb (Path.isAbsolute rel)))
    roots.

End AuthDefs.

Module AnswerDefs.
Import JS Bridge.

(** The lines of the tree in a scan answer. *)
Definition answeredLines (r : option response) : list string :=
  match r with
  | Some (ScanResult _ text _ _) => split LF text
  | _ => []
  end.

(** The limits a scan answer reports, how many lines its tree has, and
    the last of them. *)
Definition answerSummary (r : option response)
  : option (number * number * nat * string) :=
  match r with
  | Some (ScanResult _ text d e) =>
      let ls := split LF text in
      Some (d, e, List.length ls, last ls EmptyString)
  | _ => None
  end.
End AnswerDefs.

Module CutDefs.
Import JS Bridge.

(** The counter is the number of lines. *)
Definition countsLines (st : ScanState) : Prop :=
  entriesCount st = Z.of_nat (List.length (lines st)).

(** [stL] holds the first [n] lines of [stU] and counts them. *)
Definition cutAt (n : Z) (stU stL : ScanState) : Prop :=
  lines stL = firstn (Z.to_nat n) (lines stU)
  /\ entriesCount stL = Z.min (entriesCount stU) n.

(** [recL] keeps the first [n] lines of what [recU] produces. *)
Definition followsCut (n : Z)
  (recU recL : string -> Z -> string -> ScanState -> option ScanState) : Prop :=
  forall dir depth prefix stU stU' stL,
    recU dir depth prefix stU = Some stU' ->
    countsLines stU -> cutAt n stU stL ->
    exists stL', recL dir depth prefix stL = Some stL' /\ cutAt n stU' stL'.
End CutDefs.

Module FrameDefs.
Import JS Bridge AuthDefs ScanDefs.

(** The directories a scan of [rootDir] can enter, each with its depth:
    [rootDir] itself at depth 0 and, below a directory it can enter,
    [path.join(dir, name)] for a name that [readdir] gave for [dir],
    that is not an ignored one and that [stat] reports as a directory. *)
Inductive entered (fs : FileSystem) (ignored : list string) (rootDir : string)
  : Z -> string -> Prop :=
| entered_root : entered fs ignored rootDir 0 rootDir
| entered_child (depth : Z) (dir : string) (dirents : list string)
    (name : string) (stats : Stats) :
    entered fs ignored rootDir depth dir ->
    readdir fs dir = Some dirents -> In name dirents ->
    includes name ignored = false ->
    stat fs (Path.join dir name) = Some stats -> isDirectory stats = true ->
    entered fs ignored rootDir (depth + 1) (Path.join dir name).

(** The logged call [(depth, dir)] is on a directory the scan can enter:
    the starting directory, or one reached from it through entries that
    [readdir] gave and whose names are not ignored ones. *)
Definition enteredUnignored (fs : FileSystem) (ignored : list string)
  (rootDir : string) (call : Z * string) : Prop :=
  entered fs ignored rootDir (fst call) (snd call).

(** [line] is the line of an entry of a directory the scan can enter: of
    a name that [readdir] gave for it, that is not an ignored one and
    that [stat] knows, indented by the depth of the directory. *)
Definition listsUnignored (fs : FileSystem) (ignored : list string)
  (rootDir : string) (line : string) : Prop :=
  exists (depth : Z) (dir : string) (dirents : list string) (name : string)
         (stats : Stats),
    entered fs ignored rootDir depth dir
    /\ readdir fs dir = Some dirents /\ In name dirents
    /\ includes name ignored = false
    /\ stat fs (Path.join dir name) = Some stats
    /\ line = entryLine (indent (Z.to_nat depth)) (isDirectory stats) name.

(** No segment of the directory of [call] below [rootDir] is an ignored
    name. *)
Definition clearOfIgnored (ignored : list string) (rootDir : string)
  (call : Z * string) : Prop :=
  exists below : list string,
    Path.segments (snd call) = (Path.segments rootDir ++ below)%list
    /\ Z.of_nat (List.length below) = fst call
    /\ Forall (fun name => includes name ignored = false) below.

(** [dir] is a canonical path [depth] segments below [rootDir]. *)
Definition belowRoot (rootDir : string) (call : Z * string) : Prop :=
  canonical (snd call)
  /\ exists below : list string,
       Path.segments (snd call) = (Path.segments rootDir ++ below)%list
       /\ Z.of_nat (List.length below) = fst call.

(** [readdir] gives names: no empty string, no ["."] or [".."], no
    separator in a name. *)
Definition plainNames (fs : FileSystem) : Prop :=
  forall (p : string) (names : list string),
    readdir fs p = Some names -> Forall plain names.
End FrameDefs.

(** A project [/r] with a [node_modules] directory that holds a file. *)
Module FrameDemo.
Import JS Bridge Demo.

Definition vendorTree : list (string * node) :=
  [ ("/r", DirNode ["node_modules"; "src"]);
    ("/r/node_modules", DirNode ["pkg.js"]);
    ("/r/node_modules/pkg.js", FileNode 1 "x");
    ("/r/src", DirNode ["a.js"]);
    ("/r/src/a.js", FileNode 1 "y") ]%string.

Definition vendorFs : FileSystem := {|
  readdir := fun p =>
    match lookup p vendorTree with
    | Some (DirNode names) => Some names
    | _ => None
    end;
  stat := fun p =>
    match lookup p vendorTree with
    | Some (FileNode bytes _) => Some (mkStats false bytes stamp)
    | Some (DirNode _) => Some (mkStats true 4096 stamp)
    | None => None
    end;
  readFile := fun p _ =>
    match lookup p vendorTree with
    | Some (FileNode _ content) => Some content
    | _ => None
    end
|}.
End FrameDemo.

Module ReadDefs.
Import JS Bridge.

(** How many times [c] occurs in [s]. *)
Fixpoint countChar (c : ascii) (s : string) : nat :=
  match s with
  | EmptyString => O
  | String x r => (if Ascii.eqb x c then 1 else 0) + countChar c r
  end.

(** The path a call to the file system is made on. *)
Definition callPath (call : fsCall) : string :=
  match call with
  | CallExists p => p
  | CallStat p => p
  | CallReadFile p _ => p
  end.
End ReadDefs.

Module ExtensionDefs.
Import JS Bridge StringDefs.

(** A dot followed by characters that are neither dots nor separators,
    in lower case; or nothing at all. *)
Definition isSuffixEntry (e : string) : bool :=
  match e with
  | EmptyString => true
  | String c rest =>
      Ascii.eqb c "." && negb (hasChar "." rest) && negb (hasChar "/" rest)
      && (toLowerCase e =? e)%string
  end.

(** The characters of [path] from index [a] to index [b], excluded, are
    neither dots nor separators. *)
Definition clean (path : string) (a b : nat) : Prop :=
  forall j : nat, (a <= j < b)%nat ->
    exists x, String.get j path = Some x
              /\ Ascii.eqb x "." = false /\ Ascii.eqb x "/" = false.

(** What the loop of [extname] knows once it has gone down to index [n]. *)
Definition extInv (path : string) (n : nat) (st : Path.extState) : Prop :=
  (Path.endPos st = -1 /\ Path.startDot st = -1 /\ Path.matchedSlash st = true)
  \/ (exists e : nat,
         Path.endPos st = Z.of_nat e /\ Path.startDot st = -1
         /\ Path.matchedSlash st = false /\ (n < e)%nat /\ clean path n e)
  \/ (exists e sd : nat,
         Path.endPos st = Z.of_nat e /\ Path.startDot st = Z.of_nat sd
         /\ Path.matchedSlash st = false /\ (n <= sd < e)%nat
         /\ String.get sd path = Some "."%char /\ clean path (S sd) e).

(** What it knows when it is left. *)
Definition extDone (path : string) (st : Path.extState) : Prop :=
  Path.startDot st = -1
  \/ (exists e sd : nat,
         Path.endPos st = Z.of_nat e /\ Path.startDot st = Z.of_nat sd
         /\ (sd < e)%nat
         /\ String.get sd path = Some "."%char /\ clean path (S sd) e).
End ExtensionDefs.

Module ContainDefs.
Import JS Bridge AuthDefs.

(** [p] lies on or below one of the canonical roots: its segments are
    those of a root followed by [below]. *)
Definition onOrBelow (cwd : string) (roots : list string) (p : string) : Prop :=
  exists (r : string) (below : list string),
    In r roots
    /\ Path.segments p = (Path.segments (normalizePath cwd r) ++ below)%list.

End ContainDefs.

Module RootsDefs.
Import JS Bridge AuthDefs ConfigDefs.

(** The authorized roots are canonical paths without repetition, the
    active root is one of them, and there is an active root exactly when
    there is a root. *)
Definition wellFormed (config : Config) : Prop :=
  NoDup (allowedPaths config)
  /\ Forall canonical (allowedPaths config)
  /\ activeRootValid config
  /\ (activeProjectRoot config = EmptyString <-> allowedPaths config = []).

(** The resolved path of a request names a directory of the file system. *)
Definition namesDirectory (cwd : string) (fs : FileSystem) (target : string)
  : Prop :=
  truthy target = true
  /\ exists stats, stat fs (normalizePath cwd target) = Some stats
                   /\ isDirectory stats = true.
End RootsDefs.

(* ================================================================== *)
(** ** The service: token, origins and [/bootstrap] *)
(* ================================================================== *)

Module Gate.
Import JS Bridge.

(** The fields of the configuration object that the gate in front of the
    handlers reads, beside those of [Config]; [portText] is the text of
    [port] as the template strings render it. *)
Record Access : Type := mkAccess {
  token : string;
  portText : string;
  allowOrigins : list string
}.

(** [requireToken]: [None] is the call of [next()], [Some] the answer
    sent instead.  [header] is [req.header('x-bridge-token')]. *)
Definition requireToken (access : Access) (header : option string)
  : option response :=
  let given := match header with
               | Some h => if truthy h then h else EmptyString
               | None => EmptyString
               end in
  if negb (truthy given) || negb (given =? token access)%string
  then Some (Error 401 "UNAUTHORIZED" (Text "Missing or invalid bridge token"))
  else None.




Definition isSameOrigin (access : Access) (origin : option string) : bool :=
  match origin with
  | None => true
  | Some o =>
      if negb (truthy o) then true
      else (o =? "http://localhost:" ++ portText access)%string
           || (o =? "http://127.0.0.1:" ++ portText access)%string
  end.

(** [GET /bootstrap]: the refusal, or the token with the configuration. *)
Inductive bootstrapAnswer : Type :=
| BootstrapForbidden (status : Z) (code message : string)
| BootstrapOk (tok : string)
              (paths : list string) (active : string) (port : string)
              (origins : list string)
              (fileSize readLines depth entries : number)
              (extensions : list string).

Definition bootstrap (access : Access) (config : Config) (origin : option string)
  : bootstrapAnswer :=
  if negb (isSameOrigin access origin)
  then BootstrapForbidden 403 "FORBIDDEN" "Invalid origin"
  else BootstrapOk (token access)
                   (allowedPaths config) (activeProjectRoot config)
                   (portText access) (allowOrigins access)
                   (maxFileSize config) (maxReadLines config)
                   (maxDepth config) (maxEntries config)
                   (forbiddenExtensions config).

(** The token a client finds in the answer of [/bootstrap]. *)
Definition tokenOf (answer : bootstrapAnswer) : option string :=
  match answer with
  | BootstrapOk tok _ _ _ _ _ _ _ _ _ => Some tok
  | BootstrapForbidden _ _ _ => None
  end.

End Gate.

Module GateDemo.
Import JS Bridge Gate.

(** The access settings of a first start, with a short token. *)
Definition demoAccess : Access :=
  mkAccess "5f2c9a" "3737" ["http://localhost:1722"; "http://127.0.0.1:1722"]%string.
End GateDemo.

Module Probe.
Import JS Bridge.

(** The answer of [GET /capabilities]; [None] is [null]. *)
Record Capabilities : Type := mkCapabilities {
  capEnvProbe : bool;
  capProjectScan : bool;
  capCommandExecute : bool;
  capFileRead : bool;
  capFileWrite : bool;
  capReadOnly : bool;
  capMaxFileSize : number;
  capAllowedPathsCount : Z;
  capActiveProjectRoot : option string
}.

Definition capabilities (config : Config) : Capabilities := {|
  capEnvProbe := true;
  capProjectScan := true;
  capCommandExecute := false;
  capFileRead := true;
  capFileWrite := false;
  capReadOnly := true;
  capMaxFileSize := maxFileSize config;
  capAllowedPathsCount := Z.of_nat (List.length (allowedPaths config));
  capActiveProjectRoot :=
    if truthy (activeProjectRoot config) then Some (activeProjectRoot config)
    else None
|}.
End Probe.

(* ================================================================== *)
(** ** Properties *)
(* ================================================================== *)

Module NumberFacts.
Import JS.

Lemma Qle_bool_inject (a b : Z) : Qle_bool (inject_Z a) (inject_Z b) = (a <=? b).
Proof. unfold Qle_bool, inject_Z; simpl. now rewrite !Z.mul_1_r. Qed.

Lemma ge_ofZ (a b : Z) : ge (ofZ a) (ofZ b) = (b <=? a).
Proof. unfold ge, le, ofZ. apply Qle_bool_inject. Qed.

Lemma gt_ofZ (a b : Z) : gt (ofZ a) (ofZ b) = (b <? a).
Proof.
  unfold gt, lt, ofZ. rewrite Qle_bool_inject.
  destruct (Z.leb_spec a b), (Z.ltb_spec b a); simpl; auto; lia.
Qed.

Lemma truthyNum_ofZ (m : Z) : truthyNum (ofZ m) = negb (m =? 0).
Proof.
  unfold truthyNum, ofZ, Qeq_bool, inject_Z; simpl.
  rewrite Z.mul_1_r. reflexivity.
Qed.

Lemma truncate_inject (m : Z) : truncate (inject_Z m) = m.
Proof.
  unfold truncate. destruct (Qle_bool 0 (inject_Z m)).
  - apply Qfloor_Z.
  - apply Qceiling_Z.
Qed.

Lemma ge_PosInf (a : Z) : ge (ofZ a) PosInf = false.
Proof. reflexivity. Qed.

Lemma ge_NaN (a : number) : ge a NaN = false.
Proof. destruct a; reflexivity. Qed.

Lemma gt_NaN (a : number) : gt a NaN = false.
Proof. destruct a; reflexivity. Qed.

End NumberFacts.

Module ScanFacts.
Import JS Bridge ScanDefs NumberFacts.

Section Fuel.
Variable localeCompare : string -> string -> Z.
Variable fs : FileSystem.
Variable opts : ScanOpts.

Let recT := string -> Z -> string -> ScanState -> option ScanState.

Lemma walkEntries_cons (rec : recT) dir depth prefix name rest st :
  walkEntries fs opts rec dir depth prefix (name :: rest) st =
  if ge (ofZ (entriesCount st)) (optMaxEntries opts) then Some st
  else if includes name (optIgnoredDirs opts)
  then walkEntries fs opts rec dir depth prefix rest st
  else
    match stat fs (Path.join dir name) with
    | None => walkEntries fs opts rec dir depth prefix rest st
    | Some s =>
        let st1 := mkScan (lines st ++ [entryLine prefix (isDirectory s) name])
                          (entriesCount st + 1) (listed st) in
        if isDirectory s then
          match rec (Path.join dir name) (depth + 1) (prefix ++ "  ") st1 with
          | None => None
          | Some st2 => walkEntries fs opts rec dir depth prefix rest st2
          end
        else walkEntries fs opts rec dir depth prefix rest st1
    end.
Proof. reflexivity. Qed.

Lemma walk_S fuel dir depth prefix st :
  walk localeCompare fs opts (S fuel) dir depth prefix st =
  if ge (ofZ (entriesCount st)) (optMaxEntries opts) then Some st
  else if gt (ofZ depth) (optMaxDepth opts) then Some st
  else
    let st0 := mkScan (lines st) (entriesCount st)
                      (listed st ++ [(depth, dir)]) in
    match readdir fs dir with
    | None => Some st0
    | Some dirents =>
        walkEntries fs opts (walk localeCompare fs opts fuel) dir depth prefix
                    (sortNames localeCompare dirents) st0
    end.
Proof. reflexivity. Qed.

Lemma walkEntries_mono (rec1 rec2 : recT) :
  (forall dir depth prefix st r,
      rec1 dir depth prefix st = Some r -> rec2 dir depth prefix st = Some r) ->
  forall dir depth prefix names st r,
    walkEntries fs opts rec1 dir depth prefix names st = Some r ->
    walkEntries fs opts rec2 dir depth prefix names st = Some r.
Proof.
  intros Hrec dir depth prefix names.
  induction names as [|name rest IH]; intros st r H; auto.
  rewrite walkEntries_cons in *. cbv zeta in *.
  destruct (ge _ _); auto.
  destruct (includes _ _); auto.
  destruct (stat fs _) as [s|]; auto.
  destruct (isDirectory s); auto.
  destruct (rec1 _ _ _ _) as [st2|] eqn:E; [|discriminate].
  rewrite (Hrec _ _ _ _ _ E). auto.
Qed.

Lemma walk_fuel_S (fuel : nat) :
  forall dir depth prefix st r,
    walk localeCompare fs opts fuel dir depth prefix st = Some r ->
    walk localeCompare fs opts (S fuel) dir depth prefix st = Some r.
Proof.
  induction fuel as [|fuel IH]; intros dir depth prefix st r H.
  - discriminate.
  - rewrite walk_S in H. rewrite walk_S. cbv zeta in *.
    destruct (ge _ _); auto.
    destruct (gt _ _); auto.
    destruct (readdir fs dir) as [dirents|]; auto.
    eapply walkEntries_mono; [|exact H]. exact IH.
Qed.

Lemma walk_fuel_le (fuel fuel' : nat) :
  (fuel <= fuel')%nat ->
  forall dir depth prefix st r,
    walk localeCompare fs opts fuel dir depth prefix st = Some r ->
    walk localeCompare fs opts fuel' dir depth prefix st = Some r.
Proof.
  induction 1; intros; auto using walk_fuel_S.
Qed.

Lemma scanDirTree_fuel_le (fuel fuel' : nat) (root : string) (r : ScanState) :
  (fuel <= fuel')%nat ->
  scanDirTree localeCompare fs opts fuel root = Some r ->
  scanDirTree localeCompare fs opts fuel' root = Some r.
Proof.
  unfold scanDirTree. intros Hle H.
  destruct (walk _ _ _ fuel _ _ _ _) as [st|] eqn:E; [|discriminate].
  rewrite (walk_fuel_le _ _ Hle _ _ _ _ _ E). exact H.
Qed.
End Fuel.

Section Bounded.
Variable localeCompare : string -> string -> Z.
Variable fs : FileSystem.
Variables d e : Z.
Variable ignored : list string.

Local Abbreviation opts := (mkOpts (ofZ d) (ofZ e) ignored).
Let recT := string -> Z -> string -> ScanState -> option ScanState.

Lemma walkEntries_inv (rec : recT) (dir : string) (k : nat) :
  Z.of_nat k <= d ->
  (forall dir' st1 st2, scanInv d e st1 ->
      rec dir' (Z.of_nat (S k)) (indent (S k)) st1 = Some st2 -> scanInv d e st2) ->
  forall names st st', scanInv d e st ->
    walkEntries fs opts rec dir (Z.of_nat k) (indent k) names st = Some st' ->
    scanInv d e st'.
Proof.
  intros Hk Hrec names.
  induction names as [|name rest IH]; intros st st' Hinv H.
  - simpl in H. now inversion H; subst.
  - rewrite walkEntries_cons in H. cbv zeta in H.
    cbn [optMaxEntries optIgnoredDirs] in H. rewrite ge_ofZ in H.
    destruct (Z.leb_spec e (entriesCount st)) as [Hfull|Hroom].
    { now inversion H; subst. }
    destruct (includes name ignored); [eauto|].
    destruct (stat fs _) as [s|]; [|eauto].
    set (st1 := mkScan _ _ _) in H.
    assert (Hinv1 : scanInv d e st1).
    { destruct Hinv as (Hc & Hl & Hlines & Hlisted).
      subst st1; unfold scanInv; simpl. repeat split; try lia; auto.
      - rewrite length_app; simpl. lia.
      - apply Forall_app; split; auto. constructor; auto.
        exists k, (isDirectory s), name. auto. }
    destruct (isDirectory s).
    + replace (Z.of_nat k + 1) with (Z.of_nat (S k)) in H by lia.
      change (indent k ++ "  ") with (indent (S k)) in H.
      destruct (rec _ _ _ _) as [st2|] eqn:E; [|discriminate].
      eauto.
    + eauto.
Qed.

Lemma walk_inv (fuel : nat) :
  forall dir k st st', scanInv d e st ->
    walk localeCompare fs opts fuel dir (Z.of_nat k) (indent k) st = Some st' ->
    scanInv d e st'.
Proof.
  induction fuel as [|fuel IH]; intros dir k st st' Hinv H; [discriminate|].
  rewrite walk_S in H. cbv zeta in H.
  cbn [optMaxEntries optMaxDepth] in H. rewrite ge_ofZ, gt_ofZ in H.
  destruct (e <=? entriesCount st); [now inversion H; subst|].
  destruct (Z.ltb_spec d (Z.of_nat k)) as [Hdeep|Hk];
    [now inversion H; subst|].
  set (st0 := mkScan _ _ _) in H.
  assert (Hinv0 : scanInv d e st0).
  { destruct Hinv as (Hc & Hl & Hlines & Hlisted).
    subst st0; unfold scanInv; simpl. repeat split; auto; try lia.
    apply Forall_app; split; auto. constructor; auto. simpl. lia. }
  destruct (readdir fs dir) as [dirents|]; [|now inversion H; subst].
  eapply walkEntries_inv; eauto.
Qed.

Lemma walkEntries_total (rec : recT) (dir : string) (depth : Z) (prefix : string) :
  (forall dir' st1, exists st2,
      rec dir' (depth + 1) (prefix ++ "  ") st1 = Some st2) ->
  forall names st, exists st',
    walkEntries fs opts rec dir depth prefix names st = Some st'.
Proof.
  intros Hrec names.
  induction names as [|name rest IH]; intros st; [simpl; eauto|].
  rewrite walkEntries_cons. cbv zeta.
  destruct (ge _ _); eauto.
  destruct (includes _ _); eauto.
  destruct (stat fs _) as [s|]; eauto.
  destruct (isDirectory s); eauto.
  destruct (Hrec (Path.join dir name)
              (mkScan (lines st ++ [entryLine prefix true name])
                      (entriesCount st + 1) (listed st))) as [st2 E].
  rewrite E. eauto.
Qed.

Lemma walk_total (fuel : nat) :
  forall dir depth prefix st,
    (0 < fuel)%nat -> d + 2 - depth <= Z.of_nat fuel ->
    exists st', walk localeCompare fs opts fuel dir depth prefix st = Some st'.
Proof.
  induction fuel as [|fuel IH]; intros dir depth prefix st Hpos Hfuel; [lia|].
  rewrite walk_S. cbv zeta.
  cbn [optMaxEntries optMaxDepth]. rewrite gt_ofZ.
  destruct (ge _ _); eauto.
  destruct (Z.ltb_spec d depth) as [Hdeep|Hk]; eauto.
  destruct (readdir fs dir) as [dirents|]; eauto.
  apply walkEntries_total. intros dir' st1. apply IH; lia.
Qed.
End Bounded.
Section Growth.
Variable localeCompare : string -> string -> Z.
Variable fs : FileSystem.
Variable opts : ScanOpts.

Let recT := string -> Z -> string -> ScanState -> option ScanState.

Lemma grows_refl st : grows st st.
Proof. exists []. rewrite app_nil_r. simpl. split; auto; lia. Qed.

Lemma grows_trans st1 st2 st3 : grows st1 st2 -> grows st2 st3 -> grows st1 st3.
Proof.
  intros (n1 & L1 & C1) (n2 & L2 & C2). exists (n1 ++ n2)%list.
  rewrite L2, L1, C2, C1, app_assoc, length_app. split; auto; lia.
Qed.

Lemma grows_count st st' : grows st st' -> entriesCount st <= entriesCount st'.
Proof. intros (n & _ & C). lia. Qed.

Lemma grows_same st st' :
  grows st st' -> entriesCount st' <= entriesCount st -> lines st' = lines st.
Proof.
  intros (n & L & C) Hle. destruct n as [|x n]; simpl in *.
  - now rewrite app_nil_r in L.
  - lia.
Qed.

Lemma walkEntries_grows (rec : recT) :
  (forall dir depth prefix st r, rec dir depth prefix st = Some r -> grows st r) ->
  forall dir depth prefix names st r,
    walkEntries fs opts rec dir depth prefix names st = Some r -> grows st r.
Proof.
  intros Hrec dir depth prefix names.
  induction names as [|name rest IH]; intros st r H.
  - simpl in H. inversion H; subst. apply grows_refl.
  - rewrite walkEntries_cons in H. cbv zeta in H.
    destruct (ge _ _); [inversion H; subst; apply grows_refl|].
    destruct (includes _ _); [eauto|].
    destruct (stat fs _) as [s|]; [|eauto].
    set (st1 := mkScan _ _ _) in H.
    assert (G1 : grows st st1).
    { exists [entryLine prefix (isDirectory s) name]. simpl. split; auto. }
    destruct (isDirectory s).
    + destruct (rec _ _ _ _) as [st2|] eqn:E; [|discriminate].
      eapply grows_trans; [exact G1|].
      eapply grows_trans; [eapply Hrec; exact E|]. eauto.
    + eapply grows_trans; [exact G1|]. eauto.
Qed.

Lemma walk_grows (fuel : nat) :
  forall dir depth prefix st r,
    walk localeCompare fs opts fuel dir depth prefix st = Some r -> grows st r.
Proof.
  induction fuel as [|fuel IH]; intros dir depth prefix st r H; [discriminate|].
  rewrite walk_S in H. cbv zeta in H.
  destruct (ge _ _); [inversion H; subst; apply grows_refl|].
  destruct (gt _ _); [inversion H; subst; apply grows_refl|].
  set (st0 := mkScan _ _ _) in H.
  assert (G0 : grows st st0) by (exists []; simpl; rewrite app_nil_r; split; auto; lia).
  destruct (readdir fs dir) as [dirents|].
  - eapply grows_trans; [exact G0|]. eapply walkEntries_grows; eauto.
  - inversion H; subst. exact G0.
Qed.
End Growth.

Section ExactFill.
Variable localeCompare : string -> string -> Z.
Variable fs : FileSystem.
Variable dm : number.
Variable n : Z.
Variable ignored : list string.

Local Abbreviation unbounded := (mkOpts dm PosInf ignored).
Local Abbreviation limited := (mkOpts dm (ofZ n) ignored).
Let recT := string -> Z -> string -> ScanState -> option ScanState.

Lemma walkEntries_follows (recU recL : recT) :
  (forall dir depth prefix st r, recU dir depth prefix st = Some r -> grows st r) ->
  follows n recU recL ->
  forall dir depth prefix names stU stU' stL,
    walkEntries fs unbounded recU dir depth prefix names stU = Some stU' ->
    sameOutput stL stU -> entriesCount stU' <= n ->
    exists stL',
      walkEntries fs limited recL dir depth prefix names stL = Some stL'
      /\ sameOutput stL' stU'.
Proof.
  intros HgU Hsim dir depth prefix names.
  induction names as [|name rest IH]; intros stU stU' stL HU Hsame Hn.
  - simpl in *. inversion HU; subst. eauto.
  - pose proof (walkEntries_grows fs unbounded recU HgU _ _ _ _ _ _ HU) as Gall.
    rewrite walkEntries_cons in HU. rewrite walkEntries_cons. cbv zeta in *.
    cbn [optMaxEntries optIgnoredDirs] in *.
    rewrite ge_PosInf in HU. rewrite ge_ofZ.
    destruct Hsame as [Hl Hc].
    destruct (Z.leb_spec n (entriesCount stL)) as [Hfull|Hroom].
    { exists stL. split; auto. split.
      - rewrite Hl. symmetry. apply grows_same; auto. lia.
      - apply grows_count in Gall. lia. }
    destruct (includes name ignored); [eapply IH; eauto; split; auto|].
    destruct (stat fs _) as [s|]; [|eapply IH; eauto; split; auto].
    rewrite Hl, Hc.
    set (st1U := mkScan _ _ (listed stU)) in *.
    set (st1L := mkScan _ _ (listed stL)).
    assert (S1 : sameOutput st1L st1U) by (split; reflexivity).
    destruct (isDirectory s).
    + destruct (recU _ _ _ _) as [st2U|] eqn:EU; [|discriminate].
      pose proof (walkEntries_grows fs unbounded recU HgU _ _ _ _ _ _ HU) as Grest.
      apply grows_count in Grest.
      destruct (Hsim _ _ _ _ _ st1L EU S1) as (st2L & EL & S2); [lia|].
      rewrite EL. apply IH with (stU := st2U); auto.
    + apply IH with (stU := st1U); auto.
Qed.

Lemma walk_follows (fuel : nat) :
  follows n (walk localeCompare fs unbounded fuel)
          (walk localeCompare fs limited fuel).
Proof.
  induction fuel as [|fuel IH]; intros dir depth prefix stU stU' stL HU Hsame Hn;
    [discriminate|].
  pose proof (walk_grows _ _ _ _ _ _ _ _ _ HU) as Gall.
  rewrite walk_S in HU. rewrite walk_S. cbv zeta in *.
  cbn [optMaxEntries optMaxDepth] in *.
  rewrite ge_PosInf in HU. rewrite ge_ofZ.
  destruct Hsame as [Hl Hc].
  destruct (Z.leb_spec n (entriesCount stL)) as [Hfull|Hroom].
  { exists stL. split; auto. split.
    - rewrite Hl. symmetry. apply grows_same; auto. lia.
    - apply grows_count in Gall. lia. }
  rewrite Hc.
  destruct (gt _ dm).
  { inversion HU; subst. exists stL. split; auto. split; auto. }
  rewrite Hl.
  destruct (readdir fs dir) as [dirents|].
  - eapply walkEntries_follows; eauto.
    + intros. eapply walk_grows; eauto.
    + split; reflexivity.
  - inversion HU; subst. eexists; split; eauto. split; reflexivity.
Qed.
End ExactFill.

End ScanFacts.

Module ScanTheorems.
Import JS Bridge ScanDefs NumberFacts ScanFacts.

(** C5.  For positive integer limits [d] (depth) and [e] (entries), on
    every file system, collation and ignored-name set, [scanDirTree]
    returns (any fuel from [d + 2] on gives the same result), and what it
    returns is at most [e] entry lines, each indented for a depth of at
    most [d], followed by nothing or by the single truncation line; every
    directory it asked [readdir] for lies at a depth of at most [d], so
    the children of an entry listed at depth [d] are never enumerated. *)
Theorem scanDirTree_bounds :
  forall (localeCompare : string -> string -> Z) (fs : FileSystem)
         (rootDir : string) (d e : Z) (ignored : list string),
    0 < d -> 0 < e ->
    exists r : ScanState,
      (forall fuel : nat, (Z.to_nat d + 2 <= fuel)%nat ->
         scanDirTree localeCompare fs (mkOpts (ofZ d) (ofZ e) ignored) fuel rootDir
         = Some r)
      /\ (exists entries marker : list string,
            lines r = (entries ++ marker)%list
            /\ Z.of_nat (List.length entries) = entriesCount r
            /\ entriesCount r <= e
            /\ Forall (entryAt d) entries
            /\ (marker = [] \/ marker = [truncatedLine]))
      /\ Forall (fun x : Z * string => 0 <= fst x <= d) (listed r).
Proof.
  intros lc fs rootDir d e ignored Hd He.
  set (opts := mkOpts (ofZ d) (ofZ e) ignored).
  destruct (walk_total lc fs d e ignored (Z.to_nat d + 2) rootDir 0 ""
              (mkScan [] 0 [])) as [st Hst]; [lia | lia |].
  assert (Hinv : scanInv d e st).
  { apply (walk_inv lc fs d e ignored (Z.to_nat d + 2) rootDir 0%nat
             (mkScan [] 0 []) st); [|exact Hst].
    unfold scanInv; simpl. repeat split; auto; lia. }
  destruct Hinv as (Hc & Hl & Hlines & Hlisted).
  assert (Hscan : exists r,
             scanDirTree lc fs opts (Z.to_nat d + 2) rootDir = Some r
             /\ (exists marker, lines r = (lines st ++ marker)%list
                   /\ (marker = [] \/ marker = [truncatedLine]))
             /\ entriesCount r = entriesCount st /\ listed r = listed st).
  { unfold scanDirTree. fold opts in Hst. rewrite Hst.
    destruct (ge _ _); eexists; (split; [reflexivity|]); simpl.
    - split; [exists [truncatedLine]; auto | auto].
    - split; [exists []; rewrite app_nil_r; auto | auto]. }
  destruct Hscan as (r & Hr & (marker & Hm & Hmk) & Hrc & Hrl).
  exists r. split; [|split].
  - intros fuel Hfuel. eapply scanDirTree_fuel_le; eauto.
  - exists (lines st), marker. rewrite Hrc. repeat split; auto; lia.
  - now rewrite Hrl.
Qed.

(** C10.  [scanDirTree] ends its output with the truncation line whenever
    the counter has reached [maxEntries] when the traversal ends; and when
    the scan with no entry limit lists exactly [n] entries, the scan with
    [maxEntries = n] returns those same [n] lines, none missing, and still
    appends the truncation line. *)
Theorem scanDirTree_marks_complete_scan_truncated :
  forall (localeCompare : string -> string -> Z) (fs : FileSystem)
         (rootDir : string) (dm : number) (ignored : list string) (fuel : nat),
    (forall (me : number) (r : ScanState),
        scanDirTree localeCompare fs (mkOpts dm me ignored) fuel rootDir = Some r ->
        ge (ofZ (entriesCount r)) me = true ->
        exists shown, lines r = (shown ++ [truncatedLine])%list)
    /\ (forall full : ScanState,
          scanDirTree localeCompare fs (mkOpts dm PosInf ignored) fuel rootDir
          = Some full ->
          exists r : ScanState,
            scanDirTree localeCompare fs
              (mkOpts dm (ofZ (entriesCount full)) ignored) fuel rootDir = Some r
            /\ lines r = (lines full ++ [truncatedLine])%list
            /\ entriesCount r = entriesCount full).
Proof.
  intros lc fs rootDir dm ignored fuel. split.
  - intros me r H Hge. unfold scanDirTree in H.
    destruct (walk _ _ _ _ _ _ _ _) as [st|]; [|discriminate].
    cbn [optMaxEntries] in H.
    destruct (ge (ofZ (entriesCount st)) me) eqn:E.
    + inversion H; subst; simpl. eauto.
    + inversion H; subst. congruence.
  - intros full H. unfold scanDirTree in *.
    destruct (walk lc fs (mkOpts dm PosInf ignored) _ _ _ _ _) as [stU|] eqn:EU;
      [|discriminate].
    cbn [optMaxEntries] in *. rewrite ge_PosInf in H. inversion H; subst full.
    destruct (walk_follows lc fs dm (entriesCount stU) ignored fuel
                _ _ _ _ _ (mkScan [] 0 []) EU) as (stL & EL & Hl & Hc).
    + split; reflexivity.
    + lia.
    + rewrite EL, ge_ofZ, Hc, Z.leb_refl. eexists. split; [reflexivity|].
      simpl. rewrite Hl. auto.
Qed.

End ScanTheorems.

Module ScanWitnesses.
Import JS Bridge ScanDefs Demo ScanTheorems.

Lemma scanDirTree_bounds_witness :
  exists r : ScanState,
    (forall fuel : nat, (Z.to_nat 1 + 2 <= fuel)%nat ->
       scanDirTree byteOrder fs (mkOpts (ofZ 1) (ofZ 7) (ignoredDirs config))
                   fuel "/home/u/proj" = Some r)
    /\ (exists entries marker : list string,
          lines r = (entries ++ marker)%list
          /\ Z.of_nat (List.length entries) = entriesCount r
          /\ entriesCount r <= 7
          /\ Forall (entryAt 1) entries
          /\ (marker = [] \/ marker = [truncatedLine]))
    /\ Forall (fun x : Z * string => 0 <= fst x <= 1) (listed r).
Proof.
  apply (scanDirTree_bounds byteOrder fs "/home/u/proj" 1 7 (ignoredDirs config));
    lia.
Defined.

Lemma scanDirTree_marks_complete_scan_truncated_witness :
  exists r : ScanState,
    scanDirTree byteOrder fs (mkOpts (ofZ 4) (ofZ 9) (ignoredDirs config)) 10
                "/home/u/proj" = Some r
    /\ lines r =
       (["📄 ..cache"; "📄 .env"; "📄 README.md"; "📄 big.bin";
         "📄 notes.txt"; "📁 src"; "  📄 index.js"; "  📁 lib";
         "    📄 util.js"]%string ++ [truncatedLine])%list
    /\ entriesCount r = 9.
Proof.
  destruct (scanDirTree_marks_complete_scan_truncated byteOrder fs "/home/u/proj"
              (ofZ 4) (ignoredDirs config) 10) as [_ H].
  refine (H (mkScan
               ["📄 ..cache"; "📄 .env"; "📄 README.md"; "📄 big.bin";
                "📄 notes.txt"; "📁 src"; "  📄 index.js"; "  📁 lib";
                "    📄 util.js"]%string
               9
               [(0, "/home/u/proj"); (1, "/home/u/proj/src");
                (2, "/home/u/proj/src/lib")]%string) _).
  vm_compute. reflexivity.
Defined.
End ScanWitnesses.

Module StringFacts.
Import JS StringDefs.

Lemma append_assoc (a b c : string) : ((a ++ b) ++ c = a ++ (b ++ c))%string.
Proof. induction a as [|x a IH]; simpl; [reflexivity | now rewrite IH]. Qed.

Lemma append_nil_r (a : string) : (a ++ "")%string = a.
Proof. induction a as [|x a IH]; simpl; [reflexivity | now rewrite IH]. Qed.

Section Split.
Variable sep : ascii.

Local Abbreviation sepS := (String sep EmptyString).

Lemma split_not_nil (s : string) : split sep s <> [].
Proof.
  destruct s as [|c r]; simpl; [discriminate|].
  destruct (Ascii.eqb c sep); [discriminate|].
  destruct (split sep r); discriminate.
Qed.

Lemma join_cons (x : string) (l : list string) :
  l <> [] -> join sepS (x :: l) = (x ++ String sep (join sepS l))%string.
Proof. destruct l; [congruence | reflexivity]. Qed.

Lemma join_split (s : string) : join sepS (split sep s) = s.
Proof.
  induction s as [|c r IH]; [reflexivity|].
  cbn [split]. destruct (Ascii.eqb_spec c sep) as [->|Hne].
  - rewrite join_cons by apply split_not_nil. simpl. now rewrite IH.
  - pose proof (split_not_nil r) as Hnn.
    destruct (split sep r) as [|h t]; [congruence|].
    destruct t as [|h' t'].
    + simpl in *. now rewrite IH.
    + rewrite join_cons by discriminate.
      rewrite join_cons in IH by discriminate.
      cbn [String.append] in *. now rewrite IH.
Qed.

Lemma split_free (s : string) : hasChar sep s = false -> split sep s = [s].
Proof.
  induction s as [|c r IH]; [reflexivity|].
  simpl. destruct (Ascii.eqb c sep); [discriminate|].
  intros H. now rewrite (IH H).
Qed.

Lemma split_app_sep (x rest : string) :
  hasChar sep x = false ->
  split sep (x ++ String sep rest) = x :: split sep rest.
Proof.
  induction x as [|c r IH]; simpl.
  - now rewrite Ascii.eqb_refl.
  - destruct (Ascii.eqb c sep); [discriminate|].
    intros H. now rewrite (IH H).
Qed.

Lemma split_join (l : list string) :
  l <> [] -> Forall (fun x => hasChar sep x = false) l ->
  split sep (join sepS l) = l.
Proof.
  induction l as [|x l IH]; [congruence|].
  intros _ Hall. inversion Hall as [|? ? Hx Hl]; subst.
  destruct l as [|y t].
  - simpl. now apply split_free.
  - rewrite join_cons by discriminate.
    rewrite split_app_sep by assumption.
    now rewrite IH by (auto; discriminate).
Qed.

Lemma split_segments_free (s : string) :
  Forall (fun x => hasChar sep x = false) (split sep s).
Proof.
  induction s as [|c r IH]; simpl.
  - constructor; auto.
  - destruct (Ascii.eqb c sep) eqn:E.
    + constructor; auto.
    + destruct (split sep r) as [|h t].
      * constructor; auto. simpl. now rewrite E.
      * inversion IH; subst. constructor; auto. simpl. now rewrite E.
Qed.

Lemma join_snoc (l : list string) (x : string) :
  l <> [] -> join sepS (l ++ [x]) = (join sepS l ++ String sep x)%string.
Proof.
  induction l as [|y l IH]; [congruence|]. intros _.
  destruct l as [|z t].
  - reflexivity.
  - change ((y :: z :: t) ++ [x])%list with (y :: ((z :: t) ++ [x]))%list.
    rewrite join_cons by (simpl; discriminate).
    rewrite IH by discriminate.
    rewrite (join_cons y (z :: t)) by discriminate.
    rewrite append_assoc. reflexivity.
Qed.

Lemma join_inj (l l' : list string) :
  l <> [] -> l' <> [] ->
  Forall (fun x => hasChar sep x = false) l ->
  Forall (fun x => hasChar sep x = false) l' ->
  join sepS l = join sepS l' -> l = l'.
Proof.
  intros Hn Hn' Hf Hf' E.
  rewrite <- (split_join l), <- (split_join l') by assumption.
  now rewrite E.
Qed.
End Split.

End StringFacts.

Module ReadFacts.
Import JS Bridge StringDefs StringFacts NumberFacts.

Lemma sliceTo_ofZ {A} (m : Z) (l : list A) :
  0 <= m -> sliceTo (ofZ m) l = firstn (Z.to_nat m) l.
Proof.
  intros Hm. unfold sliceTo, ofZ. rewrite truncate_inject. unfold slice0.
  destruct (Z.ltb_spec m 0); [lia | reflexivity].
Qed.

Lemma boundLines_within (m : Z) (content : string) :
  Z.of_nat (List.length (split LF content)) <= m ->
  boundLines (ofZ m) content = content.
Proof.
  intros Hle. unfold boundLines. rewrite !gt_ofZ.
  destruct (truthyNum (ofZ m) && (0 <? m)); [|reflexivity].
  destruct (Z.ltb_spec m (Z.of_nat (List.length (split LF content))));
    [lia | reflexivity].
Qed.

Lemma boundLines_over (m : Z) (content : string) :
  0 < m -> m < Z.of_nat (List.length (split LF content)) ->
  boundLines (ofZ m) content =
  join LFs (firstn (Z.to_nat m) (split LF content) ++ [truncatedSuffix])%list.
Proof.
  intros Hm Hlt. unfold boundLines. rewrite !gt_ofZ, truthyNum_ofZ.
  destruct (Z.eqb_spec m 0); [lia|].
  destruct (Z.ltb_spec 0 m); [|lia].
  destruct (Z.ltb_spec m (Z.of_nat (List.length (split LF content)))); [|lia].
  cbn [negb andb]. rewrite sliceTo_ofZ by lia.
  unfold LFs at 1. rewrite (join_snoc LF); [reflexivity|].
  destruct (split LF content) as [|x l] eqn:E; [simpl in Hlt; lia|].
  destruct (Z.to_nat m) eqn:En; [lia | discriminate].
Qed.

Lemma Forall_firstn {A} (P : A -> Prop) (n : nat) (l : list A) :
  Forall P l -> Forall P (firstn n l).
Proof.
  revert l. induction n as [|n IH]; intros l H; [constructor|].
  destruct H; simpl; constructor; auto.
Qed.

Lemma truncatedSuffix_free : hasChar LF truncatedSuffix = false.
Proof. reflexivity. Qed.

Lemma split_boundLines_over (m : Z) (content : string) :
  0 < m -> m < Z.of_nat (List.length (split LF content)) ->
  split LF (boundLines (ofZ m) content) =
  (firstn (Z.to_nat m) (split LF content) ++ [truncatedSuffix])%list.
Proof.
  intros Hm Hlt. rewrite boundLines_over by assumption.
  apply (split_join LF).
  - destruct (firstn _ _); discriminate.
  - apply Forall_app. split.
    + apply Forall_firstn, split_segments_free.
    + constructor; [apply truncatedSuffix_free | constructor].
Qed.

(** The original is returned as it is exactly when cutting after [m]
    lines and adding the marker rebuilds it. *)
Lemma boundLines_over_same (m : Z) (content : string) :
  0 < m -> m < Z.of_nat (List.length (split LF content)) ->
  (content = boundLines (ofZ m) content <->
   Z.of_nat (List.length (split LF content)) = m + 1
   /\ last (split LF content) EmptyString = truncatedSuffix).
Proof.
  intros Hm Hlt.
  pose proof (split_boundLines_over m content Hm Hlt) as Hsplit.
  set (ls := split LF content) in *.
  assert (Hnn : ls <> []) by apply split_not_nil.
  split.
  - intros E. rewrite <- E in Hsplit. fold ls in Hsplit.
    split.
    + apply (f_equal (@List.length string)) in Hsplit.
      rewrite length_app, length_firstn in Hsplit. simpl in Hsplit. lia.
    + rewrite Hsplit. apply last_last.
  - intros [Hlen Hlast].
    rewrite <- (join_split LF content) at 1. fold ls.
    rewrite boundLines_over by assumption. fold ls. f_equal.
    rewrite (app_removelast_last EmptyString Hnn) at 1.
    rewrite Hlast. f_equal.
    rewrite removelast_firstn_len. f_equal. lia.
Qed.

Section Read.
Variable cwd : string.
Variable fs : FileSystem.
Variable config : Config.

(** What a read answer implies about the request and the file. *)
Lemma fsRead_ReadResult_inv bPath bEncoding bMaxLines p c sz lm n t calls :
  fsRead cwd fs config bPath bEncoding bMaxLines
  = (ReadResult p c sz lm n t, calls) ->
  exists stats content,
    bPath = Some p
    /\ stat fs (normalizePath cwd p) = Some stats
    /\ gt (ofZ (size stats)) (maxFileSize config) = false
    /\ readFile fs (normalizePath cwd p)
         (match bEncoding with Some e => e | None => "utf8"%string end)
       = Some content
    /\ c = boundLines
             (match bMaxLines with Some x => x | None => maxReadLines config end)
             content
    /\ sz = size stats /\ lm = mtime stats
    /\ n = Z.of_nat (List.length (split LF c))
    /\ t = negb (content =? c)%string.
Proof.
  unfold fsRead. intros H.
  destruct bPath as [filePath|]; [|discriminate].
  destruct (negb (truthy filePath)); [discriminate|].
  destruct (negb (isWithinAllowed _ _ _)); [discriminate|].
  destruct (isForbiddenExtension _ _); [discriminate|].
  destruct (negb (existsSync _ _)); [discriminate|].
  destruct (stat fs _) as [stats|] eqn:Est; [|discriminate].
  destruct (gt _ _) eqn:Egt; [discriminate|].
  destruct (readFile fs _ _) as [content|] eqn:Erd; [|discriminate].
  inversion H; subst. exists stats, content. repeat split; auto.
Qed.
End Read.
End ReadFacts.

Module ReadTheorems.
Import JS Bridge StringDefs StringFacts NumberFacts ReadFacts.

(** C6.  For a request that reaches the size check (a path that is given,
    authorized, not of a forbidden type, and that [stat] can read), the
    answer is [FILE_TOO_LARGE], with the size [stat] reported and the
    configured limit in its message, exactly when that size exceeds
    [maxFileSize]; in that case the handler has not called [readFile] at
    all.  When the size is within the limit the handler calls [readFile]
    once, on the whole file, and a successful read is answered with the
    line-bounded content of what was read. *)
Theorem fsRead_size_check_precedes_read :
  forall (cwd : string) (fs : FileSystem) (config : Config)
         (filePath : string) (bEncoding : option string)
         (bMaxLines : option number) (stats : Stats),
    truthy filePath = true ->
    isWithinAllowed cwd (normalizePath cwd filePath) (allowedPaths config) = true ->
    isForbiddenExtension (normalizePath cwd filePath) (forbiddenExtensions config)
    = false ->
    stat fs (normalizePath cwd filePath) = Some stats ->
    let resolved := normalizePath cwd filePath in
    let encoding := match bEncoding with Some e => e | None => "utf8"%string end in
    let maxLines := match bMaxLines with Some x => x | None => maxReadLines config end in
    let tooLarge :=
      Error 413 "FILE_TOO_LARGE"
            (FileTooLargeText (size stats) (maxFileSize config)) in
    let answer := fsRead cwd fs config (Some filePath) bEncoding bMaxLines in
    (fst answer = tooLarge <-> gt (ofZ (size stats)) (maxFileSize config) = true)
    /\ (fst answer = tooLarge ->
        forall p e, ~ In (CallReadFile p e) (snd answer))
    /\ (fst answer <> tooLarge ->
        snd answer = [CallExists resolved; CallStat resolved;
                      CallReadFile resolved encoding]
        /\ forall content, readFile fs resolved encoding = Some content ->
             exists n t,
               fst answer = ReadResult filePath (boundLines maxLines content)
                                       (size stats) (mtime stats) n t).
Proof.
  intros cwd fs config filePath bEncoding bMaxLines stats Hp Hauth Hext Hstat.
  cbv zeta. unfold fsRead, existsSync.
  rewrite Hp, Hauth, Hext, Hstat. cbn [negb].
  destruct (gt (ofZ (size stats)) (maxFileSize config)) eqn:Egt; cbn [fst snd].
  - split; [tauto|]. split.
    + intros _ p e [H|[H|[]]]; discriminate.
    + intros H. exfalso. apply H. reflexivity.
  - split; [|split].
    + split; [|discriminate].
      destruct (readFile fs _ _); cbn [fst]; discriminate.
    + destruct (readFile fs _ _); cbn [fst]; discriminate.
    + intros _. split.
      * destruct (readFile fs _ _); reflexivity.
      * intros content Hrd. rewrite Hrd. cbn [fst]. eauto.
Qed.

(** C7, amended.  When the handler answers a read of a file whose content
    has [m + k] lines under a line bound [m > 0]:
    if [k = 0] the content comes back unchanged, [truncated] is false and
    the line count is [m]; if [k > 0] the returned content is the first
    [m] lines followed by the one marker line, the line count is the
    [m + 1] lines of what is returned, and [truncated] is true unless
    [k = 1] and the last line of the file is itself the marker text, in
    which case what is returned equals the original and [truncated] is
    false. *)
Theorem fsRead_line_truncation :
  forall (cwd : string) (fs : FileSystem) (config : Config)
         (bPath bEncoding : option string) (bMaxLines : option number)
         (m k : Z) (content : string)
         (p c : string) (sz : Z) (lm : string) (n : Z) (t : bool)
         (calls : list fsCall),
    match bMaxLines with Some x => x | None => maxReadLines config end = ofZ m ->
    0 < m -> 0 <= k ->
    fsRead cwd fs config bPath bEncoding bMaxLines
    = (ReadResult p c sz lm n t, calls) ->
    readFile fs (normalizePath cwd p)
      (match bEncoding with Some e => e | None => "utf8"%string end)
    = Some content ->
    Z.of_nat (List.length (split LF content)) = m + k ->
    (k = 0 -> c = content /\ t = false /\ n = m)
    /\ (0 < k ->
        split LF c
        = (firstn (Z.to_nat m) (split LF content) ++ [truncatedSuffix])%list
        /\ n = m + 1
        /\ (t = false <->
            k = 1 /\ last (split LF content) EmptyString = truncatedSuffix)).
Proof.
  intros cwd fs config bPath bEncoding bMaxLines m k content p c sz lm n t calls
         Hml Hm Hk Hread Hfile Hlen.
  apply fsRead_ReadResult_inv in Hread.
  destruct Hread as (stats & content' & _ & _ & _ & Hfile' & Hc & _ & _ & Hn & Ht).
  rewrite Hfile in Hfile'. inversion Hfile'; subst content'. clear Hfile'.
  rewrite Hml in Hc. split.
  - intros ->. rewrite boundLines_within in Hc by lia. subst c.
    rewrite String.eqb_refl in Ht. repeat split; auto. lia.
  - intros Hk'.
    assert (Hover : m < Z.of_nat (List.length (split LF content))) by lia.
    pose proof (split_boundLines_over m content Hm Hover) as Hsplit.
    rewrite <- Hc in Hsplit. split; [exact Hsplit|]. split.
    + rewrite Hn, Hsplit, length_app, length_firstn. simpl. lia.
    + rewrite Ht, negb_false_iff, String.eqb_eq, Hc.
      rewrite (boundLines_over_same m content Hm Hover). split.
      * intros [H1 H2]. split; [lia | exact H2].
      * intros [H1 H2]. split; [lia | exact H2].
Qed.
End ReadTheorems.

Module ReadWitnesses.
Import JS Bridge Demo ReadTheorems.

(** The claim as first stated ([truncated] true whenever [k > 0]) fails
    on a two-line file that already ends with the marker text. *)
Lemma fsRead_truncated_flag_counterexample :
  readFile fs "/home/u/proj/notes.txt" "utf8"
  = Some ("a" ++ LFs ++ "... (truncated)")%string
  /\ Z.of_nat (List.length (split LF ("a" ++ LFs ++ "... (truncated)"))) = 1 + 1
  /\ fsRead "/srv/bridge" fs config (Some "/home/u/proj/notes.txt"%string) None
            (Some (ofZ 1))
     = (ReadResult "/home/u/proj/notes.txt" ("a" ++ LFs ++ "... (truncated)")
                   17 stamp 2 false,
        [CallExists "/home/u/proj/notes.txt";
         CallStat "/home/u/proj/notes.txt";
         CallReadFile "/home/u/proj/notes.txt" "utf8"]).
Proof. repeat apply conj; vm_compute; reflexivity. Qed.

Lemma fsRead_size_check_precedes_read_witness :
  let answer := fsRead "/srv/bridge" fs config (Some "/home/u/proj/big.bin"%string)
                       None None in
  fst answer = Error 413 "FILE_TOO_LARGE"
                     (FileTooLargeText (2 * 1024 * 1024) (ofZ (1024 * 1024)))
  /\ forall p e, ~ In (CallReadFile p e) (snd answer).
Proof.
  destruct (fsRead_size_check_precedes_read "/srv/bridge" fs config
              "/home/u/proj/big.bin" None None
              (mkStats false (2 * 1024 * 1024) stamp)
              eq_refl eq_refl eq_refl eq_refl) as (Hiff & Hno & _).
  assert (Hbig : fst (fsRead "/srv/bridge" fs config
                        (Some "/home/u/proj/big.bin"%string) None None)
                 = Error 413 "FILE_TOO_LARGE"
                     (FileTooLargeText (2 * 1024 * 1024) (ofZ (1024 * 1024))))
    by (apply Hiff; reflexivity).
  split; [exact Hbig | exact (Hno Hbig)].
Defined.

Lemma fsRead_line_truncation_witness :
  split LF ("one" ++ LFs ++ "two" ++ LFs ++ "... (truncated)")
  = (firstn 2 ["one"; "two"; "six"] ++ ["... (truncated)"])%list%string
  /\ 3 = 2 + 1
  /\ (true = false <-> 1 = 1 /\ "six"%string = "... (truncated)"%string).
Proof.
  refine (proj2 (fsRead_line_truncation "/srv/bridge" fs config
            (Some "/home/u/proj/README.md"%string) None (Some (ofZ 2)) 2 1
            ("one" ++ LFs ++ "two" ++ LFs ++ "six")
            "/home/u/proj/README.md"
            ("one" ++ LFs ++ "two" ++ LFs ++ "... (truncated)")
            11 stamp 3 true
            [CallExists "/home/u/proj/README.md";
             CallStat "/home/u/proj/README.md";
             CallReadFile "/home/u/proj/README.md" "utf8"]
            eq_refl _ _ eq_refl eq_refl eq_refl) _); lia.
Defined.
End ReadWitnesses.

Module ConfigFacts.
Import JS Bridge ConfigDefs.

Lemma includes_In (x : string) (l : list string) :
  includes x l = true <-> In x l.
Proof.
  unfold includes. rewrite existsb_exists. split.
  - intros (y & Hy & E). apply String.eqb_eq in E. now subst.
  - intros H. exists x. split; auto. apply String.eqb_refl.
Qed.

Lemma truthy_false (s : string) : truthy s = false <-> s = EmptyString.
Proof.
  unfold truthy. rewrite negb_false_iff. apply String.eqb_eq.
Qed.

Lemma first_or_empty (l : list string) :
  match l with
  | first :: _ => if truthy first then first else EmptyString
  | [] => EmptyString
  end = hd EmptyString l.
Proof.
  destruct l as [|x l]; [reflexivity|]. simpl.
  destruct (truthy x) eqn:E; [reflexivity|].
  apply truthy_false in E. now subst.
Qed.

Section Handler.
Variable cwd : string.
Variable fs : FileSystem.
Variable config : Config.

(** Every error answer leaves the configuration as it was. *)
Lemma postAllowedPaths_error_unchanged action targetPath status code msg config' :
  postAllowedPaths cwd fs config action targetPath
  = (Error status code msg, config') ->
  config' = config.
Proof.
  unfold postAllowedPaths. intros H.
  destruct targetPath as [target|]; [|now inversion H].
  destruct (negb (truthy target)); [now inversion H|].
  destruct (stat fs _) as [stats|]; [|now inversion H].
  destruct (negb (isDirectory stats)); [now inversion H|].
  destruct (actionIs action "add"); [discriminate|].
  destruct (actionIs action "remove"); [discriminate|].
  destruct (actionIs action "setActive"); [|now inversion H].
  destruct (negb (includes _ _)); [now inversion H | discriminate].
Qed.

(** What a successful answer implies. *)
Lemma postAllowedPaths_success_inv action targetPath paths active config' :
  postAllowedPaths cwd fs config action targetPath
  = (AllowedPathsResult paths active, config') ->
  exists target,
    targetPath = Some target
    /\ paths = allowedPaths config' /\ active = activeProjectRoot config'
    /\ let resolved := normalizePath cwd target in
       (actionIs action "add" = true
        /\ allowedPaths config' =
           (if includes resolved (allowedPaths config)
            then allowedPaths config
            else (allowedPaths config ++ [resolved])%list)
        /\ activeProjectRoot config' =
           (if truthy (activeProjectRoot config)
            then activeProjectRoot config else resolved))
       \/ (actionIs action "add" = false /\ actionIs action "remove" = true
           /\ allowedPaths config' =
              filter (fun p => negb (p =? resolved)%string) (allowedPaths config)
           /\ activeProjectRoot config' =
              (if (activeProjectRoot config =? resolved)%string
               then hd EmptyString (allowedPaths config')
               else activeProjectRoot config))
       \/ (actionIs action "add" = false /\ actionIs action "remove" = false
           /\ actionIs action "setActive" = true
           /\ includes resolved (allowedPaths config) = true
           /\ allowedPaths config' = allowedPaths config
           /\ activeProjectRoot config' = resolved).
Proof.
  unfold postAllowedPaths. intros H.
  destruct targetPath as [target|]; [|discriminate].
  destruct (negb (truthy target)); [discriminate|].
  destruct (stat fs _) as [stats|]; [|discriminate].
  destruct (negb (isDirectory stats)); [discriminate|].
  exists target. split; [reflexivity|].
  destruct (actionIs action "add") eqn:Eadd.
  { inversion H; subst; clear H. cbn [allowedPaths activeProjectRoot withRoots].
    repeat split. left. repeat split.
    - now destruct (includes _ _).
    - now destruct (truthy _). }
  destruct (actionIs action "remove") eqn:Erem.
  { inversion H; subst; clear H. cbn [allowedPaths activeProjectRoot withRoots].
    repeat split. right; left. repeat split.
    now rewrite first_or_empty. }
  destruct (actionIs action "setActive") eqn:Eset; [|discriminate].
  destruct (includes _ _) eqn:Einc; cbn [negb] in H; [|discriminate].
  inversion H; subst; clear H. cbn [allowedPaths activeProjectRoot withRoots].
  repeat split. right; right. repeat split.
Qed.

Lemma postAllowedPaths_answers action targetPath :
  (exists status code msg,
      postAllowedPaths cwd fs config action targetPath
      = (Error status code msg, config))
  \/ (exists config',
         postAllowedPaths cwd fs config action targetPath
         = (AllowedPathsResult (allowedPaths config') (activeProjectRoot config'),
            config')).
Proof.
  unfold postAllowedPaths.
  destruct targetPath as [target|]; [|left; eauto].
  destruct (negb (truthy target)); [left; eauto|].
  destruct (stat fs _) as [stats|]; [|left; eauto].
  destruct (negb (isDirectory stats)); [left; eauto|].
  destruct (actionIs action "add"); [right; eauto|].
  destruct (actionIs action "remove"); [right; eauto|].
  destruct (actionIs action "setActive"); [|left; eauto].
  destruct (negb (includes _ _)); [left; eauto | right; eauto].
Qed.
End Handler.
End ConfigFacts.

Module ConfigTheorems.
Import JS Bridge ConfigDefs RootsDefs ConfigFacts.

Lemma actionIs_true (action : option string) (name : string) :
  actionIs action name = true -> action = Some name.
Proof.
  destruct action as [a|]; simpl; [|discriminate].
  intros H. apply String.eqb_eq in H. now subst.
Qed.

Lemma hd_valid (l : list string) :
  hd EmptyString l = EmptyString \/ In (hd EmptyString l) l.
Proof. destruct l; simpl; auto. Qed.

Lemma activeRootValid_nil (config : Config) :
  activeRootValid config -> allowedPaths config = [] ->
  activeProjectRoot config = EmptyString.
Proof. intros [H|H] E; [exact H|]. rewrite E in H. destruct H. Qed.

(** C8, amended.  A [setActive] request whose canonicalized path is not in
    the authorized set always fails, and the kind of failure follows the
    state of the path on disk, which the handler checks first: [NOT_FOUND]
    when it does not exist, [NOT_DIRECTORY] when it is not a directory,
    [INVALID_REQUEST] when it is a directory outside the set (or when no
    path was given).  Whatever the action, an error answer leaves the
    configuration, and so the active root, unchanged. *)
Theorem setActive_outside_allowlist_fails :
  forall (cwd : string) (fs : FileSystem) (config : Config),
    (forall target : string,
        includes (normalizePath cwd target) (allowedPaths config) = false ->
        postAllowedPaths cwd fs config (Some "setActive"%string) (Some target)
        = (if truthy target then
             match stat fs (normalizePath cwd target) with
             | None => Error 404 "NOT_FOUND" (Text "Path not found")
             | Some stats =>
                 if isDirectory stats
                 then Error 400 "INVALID_REQUEST" (Text "Path not in allowlist")
                 else Error 400 "NOT_DIRECTORY" (Text "Path is not a directory")
             end
           else Error 400 "INVALID_REQUEST" (Text "path is required"),
           config))
    /\ (forall (action targetPath : option string) (status : Z) (code : string)
               (msg : message) (config' : Config),
          postAllowedPaths cwd fs config action targetPath
          = (Error status code msg, config') ->
          config' = config
          /\ activeProjectRoot config' = activeProjectRoot config).
Proof.
  intros cwd fs config. split.
  - intros target Hout. unfold postAllowedPaths.
    destruct (truthy target); cbn [negb]; [|reflexivity].
    destruct (stat fs _) as [stats|]; [|reflexivity].
    destruct (isDirectory stats); cbn [negb]; [|reflexivity].
    rewrite Hout. reflexivity.
  - intros action targetPath status code msg config' H.
    apply postAllowedPaths_error_unchanged in H. now subst.
Qed.

(** Validity of the active root is preserved by the handler. *)
Lemma postAllowedPaths_valid (cwd : string) (fs : FileSystem) (config : Config)
  (action targetPath : option string) :
  activeRootValid config ->
  activeRootValid (snd (postAllowedPaths cwd fs config action targetPath)).
Proof.
  intros Hinv.
  destruct (postAllowedPaths_answers cwd fs config action targetPath)
    as [(status & code & msg & E) | (c' & E)]; rewrite E; cbn [snd];
    [exact Hinv|].
  apply postAllowedPaths_success_inv in E.
  destruct E as (target & -> & _ & _ & Hcases). cbv zeta in Hcases.
  set (resolved := normalizePath cwd target) in *.
  unfold activeRootValid.
  destruct Hcases as [(Ha & Hp & Hact)
                     | [(Ha & Hr & Hp & Hact)
                       | (Ha & Hr & Hs & Hin & Hp & Hact)]]; rewrite Hact, Hp.
  - destruct (truthy (activeProjectRoot config)) eqn:Et.
    + destruct Hinv as [Hi|Hi]; [rewrite Hi in Et; discriminate|].
      right. destruct (includes _ _); auto. apply in_or_app. now left.
    + right. destruct (includes _ _) eqn:Ei.
      * now apply includes_In.
      * apply in_or_app. right. now left.
  - destruct (String.eqb_spec (activeProjectRoot config) resolved) as [Heq|Hne].
    + rewrite <- Hp. apply hd_valid.
    + destruct Hinv as [Hi|Hi]; [now left|].
      right. apply filter_In. split; [exact Hi|].
      apply negb_true_iff. now apply String.eqb_neq.
  - right. now apply includes_In.
Qed.

(** C9.  Starting from a configuration whose active root is empty or
    authorized, every request to the handler, successful or not, leaves
    one that is too, so an empty set comes with an empty active root.  A
    successful [remove] keeps the roots other than the removed one and,
    when the removed one was active, makes the first root left active, or
    none if nothing is left; a successful [add] authorizes the root and
    makes it active when none was; a successful [setActive] makes an
    authorized root active.  And the requests do succeed: for a path
    that names an existing directory, [add] answers with the two lists,
    the root is in the set afterwards (appended if it was not there) and
    is active if none was; [remove] answers with the two lists, the root
    is no longer in the set, and if it was active the first root left is
    active, or none; [setActive] on an authorized root answers with the
    two lists and makes it active. *)
Theorem postAllowedPaths_keeps_active_root_valid :
  forall (cwd : string) (fs : FileSystem) (config : Config)
         (action targetPath : option string)
         (answer : response) (config' : Config),
    activeRootValid config ->
    postAllowedPaths cwd fs config action targetPath = (answer, config') ->
    activeRootValid config'
    /\ (allowedPaths config' = [] -> activeProjectRoot config' = EmptyString)
    /\ (forall (target : string) (paths : list string) (active : string),
          targetPath = Some target ->
          answer = AllowedPathsResult paths active ->
          let resolved := normalizePath cwd target in
          (actionIs action "remove" = true ->
             allowedPaths config'
             = filter (fun p => negb (p =? resolved)%string) (allowedPaths config)
             /\ (activeProjectRoot config = resolved ->
                 activeProjectRoot config' = hd EmptyString (allowedPaths config')))
          /\ (actionIs action "add" = true ->
              In resolved (allowedPaths config')
              /\ (activeProjectRoot config = EmptyString ->
                  activeProjectRoot config' = resolved))
          /\ (actionIs action "setActive" = true ->
              In resolved (allowedPaths config')
              /\ activeProjectRoot config' = resolved))
    /\ (forall target : string,
          targetPath = Some target ->
          namesDirectory cwd fs target ->
          let resolved := normalizePath cwd target in
          (action = Some "add"%string ->
             answer = AllowedPathsResult (allowedPaths config')
                                         (activeProjectRoot config')
             /\ allowedPaths config'
                = (if includes resolved (allowedPaths config)
                   then allowedPaths config
                   else (allowedPaths config ++ [resolved])%list)
             /\ In resolved (allowedPaths config')
             /\ activeProjectRoot config'
                = (if truthy (activeProjectRoot config)
                   then activeProjectRoot config else resolved))
          /\ (action = Some "remove"%string ->
              answer = AllowedPathsResult (allowedPaths config')
                                          (activeProjectRoot config')
              /\ allowedPaths config'
                 = filter (fun p => negb (p =? resolved)%string)
                          (allowedPaths config)
              /\ ~ In resolved (allowedPaths config')
              /\ activeProjectRoot config'
                 = (if (activeProjectRoot config =? resolved)%string
                    then hd EmptyString (allowedPaths config')
                    else activeProjectRoot config))
          /\ (action = Some "setActive"%string ->
              includes resolved (allowedPaths config) = true ->
              answer = AllowedPathsResult (allowedPaths config')
                                          (activeProjectRoot config')
              /\ allowedPaths config' = allowedPaths config
              /\ activeProjectRoot config' = resolved)).
Proof.
  intros cwd fs config action targetPath answer config' Hinv H.
  assert (Hv : activeRootValid config').
  { pose proof (postAllowedPaths_valid cwd fs config action targetPath Hinv) as Hv.
    now rewrite H in Hv. }
  split; [exact Hv|]. split; [now apply activeRootValid_nil|].
  split; cycle 1.
  { intros target -> (Ht & stats & Hs & Hd). cbv zeta.
    unfold postAllowedPaths in H. rewrite Ht, Hs, Hd in H.
    cbn [negb] in H. cbv zeta in H.
    set (resolved := normalizePath cwd target) in *.
    split; [|split].
    - intros ->. cbn [actionIs String.eqb Ascii.eqb Bool.eqb andb] in H.
      inversion H; subst answer config'; clear H.
      cbn [allowedPaths activeProjectRoot withRoots].
      split; [reflexivity|]. split; [now destruct (includes _ _)|]. split.
      + destruct (includes _ _) eqn:Ei; cbn [negb].
        * now apply includes_In.
        * apply in_or_app. right. now left.
      + now destruct (truthy _).
    - intros ->. cbn [actionIs String.eqb Ascii.eqb Bool.eqb andb] in H.
      inversion H; subst answer config'; clear H.
      cbn [allowedPaths activeProjectRoot withRoots].
      split; [reflexivity|]. split; [reflexivity|]. split.
      + intros Hin. apply filter_In in Hin. destruct Hin as [_ Hne].
        rewrite String.eqb_refl in Hne. discriminate.
      + now rewrite first_or_empty.
    - intros -> Hinc. cbn [actionIs String.eqb Ascii.eqb Bool.eqb andb] in H.
      rewrite Hinc in H. cbn [negb] in H.
      inversion H; subst answer config'; clear H.
      cbn [allowedPaths activeProjectRoot withRoots]. auto. }
  intros target paths active -> ->. cbv zeta.
  apply postAllowedPaths_success_inv in H.
  destruct H as (t & Ht & _ & _ & Hcases). inversion Ht; subst t; clear Ht.
  cbv zeta in Hcases. set (resolved := normalizePath cwd target) in *.
  destruct Hcases as [(Ha & Hp & Hact)
                     | [(Ha & Hr & Hp & Hact)
                       | (Ha & Hr & Hs & Hin & Hp & Hact)]].
  - apply actionIs_true in Ha. subst action. cbn [actionIs].
    split; [intros; discriminate|]. split; [|intros; discriminate].
    intros _. split.
    + rewrite Hp. destruct (includes _ _) eqn:Ei.
      * now apply includes_In.
      * apply in_or_app. right. now left.
    + intros Hempty. rewrite Hact, Hempty. reflexivity.
  - apply actionIs_true in Hr. subst action. cbn [actionIs].
    split; [|split; intros; discriminate].
    intros _. split; [exact Hp|].
    intros Heq. rewrite Hact, Heq, String.eqb_refl. reflexivity.
  - apply actionIs_true in Hs. subst action. cbn [actionIs].
    split; [intros; discriminate|]. split; [intros; discriminate|].
    intros _. split; [|exact Hact].
    rewrite Hp. now apply includes_In.
Qed.

(** The invariant along every run of the handler from a valid start, and
    so from the configuration of a first start. *)
Lemma reachable_activeRootValid (cwd : string) (start config : Config) :
  activeRootValid start -> reachable cwd start config -> activeRootValid config.
Proof.
  intros Hstart Hreach. induction Hreach as [|config fs action targetPath _ IH].
  - exact Hstart.
  - now apply postAllowedPaths_valid.
Qed.

Lemma reachable_from_default_valid (cwd : string) (config : Config) :
  reachable cwd DEFAULT_CONFIG config -> activeRootValid config.
Proof. apply reachable_activeRootValid. now left. Qed.

End ConfigTheorems.

Module ConfigWitnesses.
Import JS Bridge ConfigDefs RootsDefs Demo ConfigTheorems.

(** The claim as first stated ([InvalidRequest] whatever the state on
    disk) fails for a path that does not exist and for one that is a
    file: neither is in the authorized set, and the answers are
    [NOT_FOUND] and [NOT_DIRECTORY]. *)
Lemma setActive_missing_path_counterexample :
  includes "/home/u/missing" (allowedPaths config) = false
  /\ postAllowedPaths "/srv/bridge" fs config (Some "setActive"%string)
                      (Some "/home/u/missing"%string)
     = (Error 404 "NOT_FOUND" (Text "Path not found"), config)
  /\ includes "/home/u/proj/README.md" (allowedPaths config) = false
  /\ postAllowedPaths "/srv/bridge" fs config (Some "setActive"%string)
                      (Some "/home/u/proj/README.md"%string)
     = (Error 400 "NOT_DIRECTORY" (Text "Path is not a directory"), config).
Proof. repeat split. Qed.

Lemma setActive_outside_allowlist_fails_witness :
  postAllowedPaths "/srv/bridge" fs config (Some "setActive"%string)
                   (Some "/home/u/other"%string)
  = (Error 400 "INVALID_REQUEST" (Text "Path not in allowlist"), config).
Proof.
  exact (proj1 (setActive_outside_allowlist_fails "/srv/bridge" fs config)
               "/home/u/other"%string eq_refl).
Defined.

Lemma postAllowedPaths_keeps_active_root_valid_witness :
  activeRootValid DEFAULT_CONFIG
  /\ In "/home/u/proj"%string
        (allowedPaths
           (snd (postAllowedPaths "/srv/bridge" fs DEFAULT_CONFIG
                   (Some "add"%string) (Some "/home/u/proj/"%string))))
  /\ activeProjectRoot
       (snd (postAllowedPaths "/srv/bridge" fs DEFAULT_CONFIG
               (Some "add"%string) (Some "/home/u/proj/"%string)))
     = "/home/u/proj"%string
  /\ activeProjectRoot
       (snd (postAllowedPaths "/srv/bridge" fs
               (snd (postAllowedPaths "/srv/bridge" fs DEFAULT_CONFIG
                       (Some "add"%string) (Some "/home/u/proj/"%string)))
               (Some "remove"%string) (Some "/home/u/proj"%string)))
     = EmptyString.
Proof.
  assert (Hstart : activeRootValid DEFAULT_CONFIG) by now left.
  split; [exact Hstart|].
  assert (Hdir : namesDirectory "/srv/bridge" fs "/home/u/proj/").
  { split; [reflexivity|].
    exists (mkStats true 4096 stamp). split; reflexivity. }
  pose proof (proj1 (proj2 (proj2 (proj2
                (postAllowedPaths_keeps_active_root_valid
                   "/srv/bridge" fs DEFAULT_CONFIG
                   (Some "add"%string) (Some "/home/u/proj/"%string)
                   _ _ Hstart eq_refl)))
                "/home/u/proj/"%string eq_refl Hdir) eq_refl) as Hadd.
  split; [exact (proj1 (proj2 (proj2 Hadd)))|].
  split; [exact (proj2 (proj2 (proj2 Hadd)))|].
  refine (proj1 (proj2 (postAllowedPaths_keeps_active_root_valid
            "/srv/bridge" fs
            (snd (postAllowedPaths "/srv/bridge" fs DEFAULT_CONFIG
                    (Some "add"%string) (Some "/home/u/proj/"%string)))
            (Some "remove"%string) (Some "/home/u/proj"%string)
            _ _ _ eq_refl)) eq_refl).
  right. simpl. now left.
Defined.
End ConfigWitnesses.

Module PathFacts.
Import JS Bridge StringDefs StringFacts AuthDefs.

Local Abbreviation noSlash := (fun s : string => hasChar "/" s = false).

Lemma plain_step (res : list string) (seg : string) :
  plain seg -> Path.normalizeStep false res seg = seg :: res.
Proof.
  intros (H1 & H2 & H3 & _). unfold Path.normalizeStep.
  apply String.eqb_neq in H1, H2, H3. now rewrite H1, H2, H3.
Qed.

Lemma normalizeStep_plain (res : list string) (seg : string) :
  Forall plain res -> noSlash seg ->
  Forall plain (Path.normalizeStep false res seg).
Proof.
  intros Hres Hseg. unfold Path.normalizeStep.
  destruct (String.eqb_spec seg "") as [|H1]; [assumption|].
  destruct (String.eqb_spec seg ".") as [|H2]; [assumption|].
  destruct (String.eqb_spec seg "..") as [|H3].
  - destruct res as [|top rest]; [constructor|].
    destruct (top =? "..")%string; [assumption|].
    now inversion Hres.
  - constructor; [|assumption]. repeat split; assumption.
Qed.

Lemma fold_normalize_plain (segs res : list string) :
  Forall noSlash segs -> Forall plain res ->
  Forall plain (fold_left (Path.normalizeStep false) segs res).
Proof.
  revert res. induction segs as [|seg segs IH]; intros res Hs Hres; simpl.
  - assumption.
  - inversion Hs; subst. apply IH; [assumption|].
    now apply normalizeStep_plain.
Qed.

Lemma normalizeSegments_plain (s : string) :
  Forall plain (Path.normalizeSegments false (split "/" s)).
Proof.
  unfold Path.normalizeSegments. apply Forall_rev.
  apply fold_normalize_plain; [apply split_segments_free | constructor].
Qed.

Lemma fold_plain (segs res : list string) :
  Forall plain segs ->
  fold_left (Path.normalizeStep false) segs res = (rev segs ++ res)%list.
Proof.
  revert res. induction segs as [|seg segs IH]; intros res Hs; simpl.
  - reflexivity.
  - inversion Hs; subst. rewrite plain_step by assumption.
    rewrite IH by assumption. now rewrite <- app_assoc.
Qed.

Lemma plain_noSlash (segs : list string) :
  Forall plain segs -> Forall noSlash segs.
Proof. apply Forall_impl. now intros s (_ & _ & _ & H). Qed.

Lemma isAbsolute_cons (s : string) : Path.isAbsolute (String "/" s) = true.
Proof.
  unfold Path.isAbsolute, startsWith. simpl.
  destruct (ascii_dec "/" "/"); [now destruct s | congruence].
Qed.

Lemma isAbsolute_nonempty (s : string) :
  Path.isAbsolute s = true -> s <> EmptyString.
Proof. intros H ->. discriminate. Qed.

(** With an absolute working directory [resolve] always takes the
    absolute branch. *)
Lemma resolve_absolute (cwd p : string) :
  Path.isAbsolute cwd = true ->
  exists raw : string,
    Path.resolve cwd p = ("/" ++ Path.normalizeString raw false)%string.
Proof.
  intros Hcwd. unfold Path.resolve.
  assert (Hne : (cwd =? "")%string = false).
  { apply String.eqb_neq. now apply isAbsolute_nonempty. }
  destruct (p =? "")%string.
  - rewrite Hne, Hcwd. cbn [negb]. eauto.
  - destruct (Path.isAbsolute p).
    + cbn [negb]. eauto.
    + rewrite Hne, Hcwd. cbn [negb]. eauto.
Qed.

Lemma resolve_canonical (cwd p : string) :
  Path.isAbsolute cwd = true -> canonical (Path.resolve cwd p).
Proof.
  intros Hcwd. destruct (resolve_absolute cwd p Hcwd) as [raw ->].
  exists (Path.normalizeSegments false (split "/" raw)).
  split; [apply normalizeSegments_plain | reflexivity].
Qed.

Lemma split_slash_joined (segs : list string) :
  Forall plain segs -> segs <> [] ->
  split "/" (JS.join "/" segs) = segs.
Proof.
  intros Hp Hn. apply (split_join "/"); [assumption | now apply plain_noSlash].
Qed.

Lemma truthy_plain (segs : list string) :
  Forall plain segs -> filter truthy segs = segs.
Proof.
  induction 1 as [|seg segs (H1 & _) _ IH]; [reflexivity|].
  simpl. unfold truthy at 1. apply String.eqb_neq in H1. rewrite H1. simpl.
  now rewrite IH.
Qed.

(** The segments of a canonical path are the ones it was built from. *)
Lemma segments_canonical (segs : list string) :
  Forall plain segs ->
  Path.segments ("/" ++ JS.join "/" segs) = segs.
Proof.
  intros Hp. unfold Path.segments.
  change ("/" ++ JS.join "/" segs)%string with (String "/" (JS.join "/" segs)).
  cbn [split]. rewrite Ascii.eqb_refl. cbn [filter truthy String.eqb negb].
  destruct segs as [|s segs'].
  - reflexivity.
  - rewrite split_slash_joined by (auto; discriminate).
    now apply truthy_plain.
Qed.

Lemma canonical_segments (p : string) :
  canonical p ->
  Forall plain (Path.segments p)
  /\ p = ("/" ++ JS.join "/" (Path.segments p))%string.
Proof.
  intros (segs & Hp & ->). rewrite segments_canonical by assumption. auto.
Qed.

Lemma canonical_eq (p q : string) :
  canonical p -> canonical q -> Path.segments p = Path.segments q -> p = q.
Proof.
  intros Hp Hq E.
  rewrite (proj2 (canonical_segments p Hp)), (proj2 (canonical_segments q Hq)).
  now rewrite E.
Qed.

(** Canonicalization is idempotent. *)
Lemma resolve_of_canonical (cwd p : string) :
  canonical p -> Path.resolve cwd p = p.
Proof.
  intros (segs & Hp & ->). unfold Path.resolve.
  change ("/" ++ JS.join "/" segs)%string with (String "/" (JS.join "/" segs)).
  cbn [String.eqb]. rewrite isAbsolute_cons. cbn [negb].
  unfold Path.normalizeString, Path.normalizeSegments.
  cbn [String.append split]. rewrite Ascii.eqb_refl.
  cbn [fold_left]. cbn [Path.normalizeStep String.eqb].
  destruct segs as [|s segs'].
  - reflexivity.
  - set (l := s :: segs') in *.
    change (JS.join "/" l ++ "/")%string
      with (JS.join "/" l ++ String "/" EmptyString)%string.
    rewrite <- (join_snoc "/") by (subst l; discriminate).
    rewrite (split_join "/").
    + rewrite fold_left_app. rewrite (fold_plain l) by assumption.
      cbn [fold_left Path.normalizeStep String.eqb].
      rewrite app_nil_r, rev_involutive. reflexivity.
    + subst l; discriminate.
    + apply Forall_app. split; [now apply plain_noSlash|].
      constructor; [reflexivity | constructor].
Qed.

Lemma resolve_idempotent (cwd p : string) :
  Path.isAbsolute cwd = true ->
  Path.resolve cwd (Path.resolve cwd p) = Path.resolve cwd p.
Proof. intros H. apply resolve_of_canonical. now apply resolve_canonical. Qed.

End PathFacts.

Module AuthFacts.
Import JS Bridge StringDefs StringFacts AuthDefs PathFacts.

Lemma dropCommon_split (a b up down : list string) :
  Path.dropCommon a b = (up, down) ->
  exists common, a = (common ++ up)%list /\ b = (common ++ down)%list.
Proof.
  revert b. induction a as [|x a IH]; intros b H.
  - simpl in H. inversion H; subst. now exists [].
  - destruct b as [|y b]; simpl in H.
    + inversion H; subst. now exists [].
    + destruct (String.eqb_spec x y) as [->|Hne].
      * destruct (IH _ H) as (common & -> & ->). now exists (y :: common).
      * inversion H; subst. now exists [].
Qed.

Lemma dropCommon_prefix (common below : list string) :
  Path.dropCommon common (common ++ below) = ([], below).
Proof.
  induction common as [|x common IH]; simpl.
  - reflexivity.
  - now rewrite String.eqb_refl.
Qed.

Lemma prefix_cons (a b : ascii) (p s : string) :
  String.prefix (String a p) (String b s) = Ascii.eqb a b && String.prefix p s.
Proof.
  cbn [String.prefix].
  destruct (ascii_dec a b) as [->|Hne].
  - now rewrite Ascii.eqb_refl.
  - apply Ascii.eqb_neq in Hne. now rewrite Hne.
Qed.

Lemma prefix_nil (s : string) : String.prefix EmptyString s = true.
Proof. now destruct s. Qed.

Lemma prefix_append (p x y : string) :
  String.prefix p x = true -> String.prefix p (x ++ y) = true.
Proof.
  revert x. induction p as [|a p IH]; intros x H.
  - apply prefix_nil.
  - destruct x as [|b x]; [discriminate|].
    cbn [String.append]. rewrite prefix_cons in *.
    apply andb_prop in H. destruct H as [-> H]. cbn [andb]. auto.
Qed.

Lemma join_head (x : string) (rest : list string) :
  exists tail : string, JS.join "/" (x :: rest) = (x ++ tail)%string.
Proof.
  destruct rest as [|y rest].
  - exists EmptyString. simpl. now rewrite append_nil_r.
  - eexists. apply (join_cons "/"). discriminate.
Qed.

(** A relative path that climbs starts with [".."]. *)
Lemma climbing_startsWith (up down : list string) :
  up <> [] ->
  startsWith ".." (JS.join "/" (map (fun _ => "..") up ++ down)%list) = true.
Proof.
  destruct up as [|u up]; [congruence|]. intros _. simpl map.
  change ((".." :: map (fun _ => "..") up) ++ down)%list
    with (".."%string :: (map (fun _ => "..") up ++ down))%list.
  destruct (join_head ".." (map (fun _ : string => ".."%string) up ++ down))
    as [tail ->].
  unfold startsWith. now apply prefix_append.
Qed.

(** For a plain first segment the prefix test on the joined path is the
    prefix test on that segment. *)
Lemma startsWith_dots_head (x : string) (rest : list string) :
  plain x ->
  startsWith ".." (JS.join "/" (x :: rest)) = startsWith ".." x.
Proof.
  intros (H1 & H2 & H3 & H4).
  destruct rest as [|y rest]; [reflexivity|].
  rewrite (join_cons "/") by discriminate.
  unfold startsWith.
  destruct x as [|a x]; [congruence|].
  cbn [String.append]. rewrite !prefix_cons.
  destruct (Ascii.eqb "." a) eqn:Ea; [|reflexivity]. cbn [andb].
  apply Ascii.eqb_eq in Ea. subst a.
  destruct x as [|b x]; [congruence|].
  cbn [String.append]. rewrite !prefix_cons, !prefix_nil. reflexivity.
Qed.

Lemma isAbsolute_join_plain (x : string) (rest : list string) :
  plain x -> Path.isAbsolute (JS.join "/" (x :: rest)) = false.
Proof.
  intros (H1 & _ & _ & H4).
  destruct (join_head x rest) as [tail ->].
  destruct x as [|a x]; [congruence|].
  unfold Path.isAbsolute, startsWith. cbn [String.append].
  rewrite prefix_cons, prefix_nil, andb_true_r.
  cbn [hasChar] in H4. apply orb_false_elim in H4. destruct H4 as [H4 _].
  now rewrite Ascii.eqb_sym.
Qed.

Lemma truthy_join_plain (x : string) (rest : list string) :
  plain x -> truthy (JS.join "/" (x :: rest)) = true.
Proof.
  intros (H1 & _).
  destruct (join_head x rest) as [tail ->].
  destruct x; [congruence | reflexivity].
Qed.

Lemma firstSegment_join_plain (l : list string) :
  Forall plain l -> firstSegment (JS.join "/" l) = hd EmptyString l.
Proof.
  intros Hp. unfold firstSegment.
  destruct l as [|x l]; [reflexivity|].
  rewrite split_slash_joined by (auto; discriminate). reflexivity.
Qed.

Section Relative.
Variable cwd : string.

(** [path.relative] between two canonical paths that differ. *)
Lemma relative_canonical (from to : string) :
  canonical from -> canonical to -> from <> to ->
  Path.relative cwd from to =
  let '(up, down) := Path.dropCommon (Path.segments from) (Path.segments to) in
  JS.join "/" (map (fun _ => "..") up ++ down)%list.
Proof.
  intros Hf Ht Hne. unfold Path.relative.
  rewrite !resolve_of_canonical by assumption.
  apply String.eqb_neq in Hne. now rewrite Hne.
Qed.

(** What the test of [isWithinAllowed] on one root amounts to. *)
Lemma root_test_iff (root resolved : string) :
  canonical root -> canonical resolved ->
  ((if negb (truthy root) then false
    else if (resolved =? root)%string then true
    else
      let rel := Path.relative cwd root resolved in
      truthy rel && negb (startsWith ".." rel) && negb (Path.isAbsolute rel))
   = true
   <-> exists below : list string,
         Path.segments resolved = (Path.segments root ++ below)%list
         /\ startsWith ".." (hd EmptyString below) = false).
Proof.
  intros Hroot Hres.
  assert (Htr : truthy root = true).
  { destruct Hroot as (segs & _ & ->). reflexivity. }
  rewrite Htr. cbn [negb].
  destruct (String.eqb_spec resolved root) as [->|Hne].
  { split; [|reflexivity]. intros _. exists []. now rewrite app_nil_r. }
  cbv zeta. rewrite relative_canonical by auto.
  destruct (canonical_segments resolved Hres) as [Hplain _].
  destruct (Path.dropCommon (Path.segments root) (Path.segments resolved))
    as [up down] eqn:Edrop.
  destruct (dropCommon_split _ _ _ _ Edrop) as (common & Eroot & Eres).
  assert (Hdown : Forall plain down).
  { rewrite Eres in Hplain. now apply Forall_app in Hplain. }
  split.
  - intros H. apply andb_prop in H. destruct H as [H Habs].
    apply andb_prop in H. destruct H as [Htruthy Hdots].
    apply negb_true_iff in Hdots.
    destruct up as [|u up].
    + exists down. rewrite Eroot, app_nil_r. split; [exact Eres|].
      destruct down as [|x down']; [reflexivity|].
      inversion Hdown; subst.
      cbn [map app] in Hdots. rewrite startsWith_dots_head in Hdots by assumption.
      exact Hdots.
    + rewrite climbing_startsWith in Hdots by discriminate. discriminate.
  - intros (below & Eseg & Hhd).
    assert (Eup : up = [] /\ down = below).
    { rewrite Eseg, dropCommon_prefix in Edrop. inversion Edrop; auto. }
    destruct Eup as [-> ->]. cbn [map app].
    destruct below as [|x below'].
    + exfalso. apply Hne. apply canonical_eq; auto.
      now rewrite Eseg, app_nil_r.
    + inversion Hdown; subst.
      rewrite truthy_join_plain, isAbsolute_join_plain by assumption.
      rewrite startsWith_dots_head by assumption.
      cbn [hd] in Hhd. rewrite Hhd. reflexivity.
Qed.

(** The same for the predicate as the specification words it. *)
Lemma root_spec_iff (root resolved : string) :
  canonical root -> canonical resolved ->
  ((resolved =? root)%string
   || (let rel := Path.relative cwd root resolved in
       truthy rel && negb (firstSegment rel =? "..")%string
       && negb (Path.isAbsolute rel))
   = true
   <-> exists below : list string,
         Path.segments resolved = (Path.segments root ++ below)%list).
Proof.
  intros Hroot Hres.
  destruct (String.eqb_spec resolved root) as [->|Hne].
  { split; [|reflexivity]. intros _. exists []. now rewrite app_nil_r. }
  cbv zeta. cbn [orb]. rewrite relative_canonical by auto.
  destruct (canonical_segments resolved Hres) as [Hplain _].
  destruct (Path.dropCommon (Path.segments root) (Path.segments resolved))
    as [up down] eqn:Edrop.
  destruct (dropCommon_split _ _ _ _ Edrop) as (common & Eroot & Eres).
  assert (Hdown : Forall plain down).
  { rewrite Eres in Hplain. now apply Forall_app in Hplain. }
  split.
  - intros H. apply andb_prop in H. destruct H as [H Habs].
    apply andb_prop in H. destruct H as [Htruthy Hseg].
    apply negb_true_iff, String.eqb_neq in Hseg.
    destruct up as [|u up].
    + exists down. now rewrite Eroot, app_nil_r.
    + exfalso. apply Hseg. cbn [map app].
      unfold firstSegment.
      destruct (map (fun _ : string => ".."%string) up ++ down)%list
        as [|y rest] eqn:El; [reflexivity|].
      rewrite (join_cons "/") by discriminate.
      now rewrite (split_app_sep "/").
  - intros (below & Eseg).
    assert (Eup : up = [] /\ down = below).
    { rewrite Eseg, dropCommon_prefix in Edrop. inversion Edrop; auto. }
    destruct Eup as [-> ->]. cbn [map app].
    destruct below as [|x below'].
    + exfalso. apply Hne. apply canonical_eq; auto.
      now rewrite Eseg, app_nil_r.
    + inversion Hdown as [|? ? Hx Hrest]; subst.
      rewrite truthy_join_plain, isAbsolute_join_plain by assumption.
      rewrite firstSegment_join_plain by assumption. cbn [hd].
      destruct Hx as (_ & _ & Hx & _). apply String.eqb_neq in Hx.
      now rewrite Hx.
Qed.
End Relative.

Section Characterization.
Variable cwd : string.
Hypothesis cwd_absolute : Path.isAbsolute cwd = true.

Lemma normalizePath_canonical (p : string) : canonical (normalizePath cwd p).
Proof. unfold normalizePath. now apply resolve_canonical. Qed.

(** What [isWithinAllowed] decides: the canonical target lies on or below
    a canonical root, and the first segment below the root, if any, does
    not begin with two dots. *)
Lemma isWithinAllowed_iff (target : string) (roots : list string) :
  isWithinAllowed cwd target roots = true
  <-> exists (r : string) (below : list string),
        In r roots
        /\ Path.segments (normalizePath cwd target)
           = (Path.segments (normalizePath cwd r) ++ below)%list
        /\ startsWith ".." (hd EmptyString below) = false.
Proof.
  unfold isWithinAllowed.
  destruct (Z.eqb_spec (Z.of_nat (List.length roots)) 0) as [Hz|Hnz].
  { destruct roots; [|simpl in Hz; lia]. split; [discriminate|].
    intros (r & _ & [] & _). }
  rewrite existsb_exists. split.
  - intros (r & Hin & Htest). apply root_test_iff in Htest;
      try apply normalizePath_canonical.
    destruct Htest as (below & H1 & H2). eauto.
  - intros (r & below & Hin & H1 & H2). exists r. split; [exact Hin|].
    apply root_test_iff; try apply normalizePath_canonical. eauto.
Qed.

(** What the predicate of the specification decides: the canonical
    target lies on or below a canonical root. *)
Lemma isAuthorized_iff (target : string) (roots : list string) :
  isAuthorized cwd target roots = true
  <-> exists (r : string) (below : list string),
        In r roots
        /\ Path.segments (normalizePath cwd target)
           = (Path.segments (normalizePath cwd r) ++ below)%list.
Proof.
  unfold isAuthorized. rewrite existsb_exists. split.
  - intros (r & Hin & Htest). cbv zeta in Htest.
    apply root_spec_iff in Htest; try apply normalizePath_canonical.
    destruct Htest as (below & H1). eauto.
  - intros (r & below & Hin & H1). exists r. split; [exact Hin|].
    cbv zeta. apply root_spec_iff; try apply normalizePath_canonical. eauto.
Qed.

(** Whatever [isWithinAllowed] accepts the specification accepts too:
    no path outside every root is ever let through. *)
Lemma isWithinAllowed_sound (target : string) (roots : list string) :
  isWithinAllowed cwd target roots = true -> isAuthorized cwd target roots = true.
Proof.
  rewrite isWithinAllowed_iff, isAuthorized_iff.
  intros (r & below & H1 & H2 & _). eauto.
Qed.
End Characterization.

Lemma isWithinAllowed_nil (cwd target : string) :
  isWithinAllowed cwd target [] = false.
Proof. reflexivity. Qed.

End AuthFacts.

Module AuthTheorems.
Import JS Bridge StringDefs AuthDefs AuthFacts Demo.

(** C1.  The check fails for a descendant whose name begins with two
    dots.  With [/home/u/proj] authorized, [/home/u/proj/..cache] is a
    file of the root: its relative path [..cache] is not empty, is not
    absolute and its first segment is not the parent segment, so the
    predicate of the specification holds; [isWithinAllowed] answers
    false, because it tests the relative path for the two-character
    prefix, and a read of the file is refused as not allowed.  The other
    parts hold: an empty set authorizes nothing, a root authorizes
    itself and what lies below it, and a path that climbs out of the
    root is refused. *)
Theorem isWithinAllowed_refuses_dotted_child :
  Path.relative "/srv/bridge" "/home/u/proj" "/home/u/proj/..cache"
  = "..cache"%string
  /\ isAuthorized "/srv/bridge" "/home/u/proj/..cache" ["/home/u/proj"%string]
     = true
  /\ isWithinAllowed "/srv/bridge" "/home/u/proj/..cache" ["/home/u/proj"%string]
     = false
  /\ fsRead "/srv/bridge" fs config (Some "/home/u/proj/..cache"%string) None None
     = (Error 403 "ACCESS_DENIED" (Text "Path not allowed"), [])
  /\ isWithinAllowed "/srv/bridge" "/home/u/proj/..cache" [] = false
  /\ isWithinAllowed "/srv/bridge" "/home/u/proj" ["/home/u/proj"%string] = true
  /\ isWithinAllowed "/srv/bridge" "/home/u/proj/src/index.js"
                     ["/home/u/proj"%string] = true
  /\ isWithinAllowed "/srv/bridge" "/home/u/proj/../../etc/passwd"
                     ["/home/u/proj"%string] = false.
Proof. repeat split. Qed.

End AuthTheorems.

Module ExtensionFacts.
Import JS Bridge StringDefs StringFacts.

Lemma get_append_right (pre s : string) (i : nat) :
  String.get (String.length pre + i) (pre ++ s) = String.get i s.
Proof.
  induction pre as [|c pre IH]; [reflexivity|]. simpl. exact IH.
Qed.

Lemma get_free (c : ascii) (s : string) (i : nat) (x : ascii) :
  hasChar c s = false -> String.get i s = Some x -> Ascii.eqb x c = false.
Proof.
  revert i. induction s as [|y s IH]; intros i Hfree Hget; [discriminate|].
  cbn [hasChar] in Hfree. apply orb_false_elim in Hfree. destruct Hfree as [Hy Hs].
  destruct i as [|i]; simpl in Hget.
  - inversion Hget; subst. exact Hy.
  - eauto.
Qed.

Lemma get_in_range (s : string) (i : nat) :
  (i < String.length s)%nat -> exists x, String.get i s = Some x.
Proof.
  revert i. induction s as [|y s IH]; intros i Hi; simpl in Hi; [lia|].
  destruct i as [|i]; simpl; [eauto|]. apply IH. lia.
Qed.

Section Dotfile.
Variables pre name : string.
Hypothesis name_no_slash : hasChar "/" name = false.
Hypothesis name_no_dot : hasChar "." name = false.

Local Abbreviation path := (pre ++ name)%string.

(** Once the end of the name is known and no dot has been seen, the
    characters of [name] change nothing. *)
Lemma extnameLoop_skips_name (k : nat) (st : Path.extState) :
  (k <= String.length name)%nat ->
  Path.endPos st <> -1 -> Path.startDot st = -1 ->
  Path.extnameLoop path (String.length pre + k) st
  = Path.extnameLoop path (String.length pre) st.
Proof.
  intros Hk Hend Hdot. induction k as [|k IH].
  - now rewrite Nat.add_0_r.
  - rewrite Nat.add_succ_r. cbn [Path.extnameLoop].
    rewrite get_append_right.
    destruct (get_in_range name k) as [x Hx]; [lia|]. rewrite Hx.
    rewrite (get_free "/" name k x name_no_slash Hx).
    rewrite (get_free "." name k x name_no_dot Hx).
    apply Z.eqb_neq in Hend. rewrite Hend. rewrite Hdot. cbn [Z.eqb negb].
    apply IH. lia.
Qed.
End Dotfile.

(** [path.extname] of a file whose name is a dot followed by characters
    other than dots is empty: such a name has no extension, its dot is
    the first character of the name. *)
Lemma extname_dotfile (dir name : string) :
  hasChar "/" name = false -> hasChar "." name = false ->
  Path.extname (dir ++ "/." ++ name) = EmptyString.
Proof.
  intros Hslash Hdot.
  set (pre := (dir ++ "/.")%string).
  assert (Epath : (dir ++ "/." ++ name)%string = (pre ++ name)%string).
  { subst pre. now rewrite append_assoc. }
  assert (Elen : String.length (pre ++ name)
                 = (String.length pre + String.length name)%nat).
  { clear. induction pre as [|c p IH]; simpl; [reflexivity | now rewrite IH]. }
  assert (Epre : String.length pre = S (S (String.length dir))).
  { subst pre. clear. induction dir as [|c d IH]; simpl; [reflexivity | now rewrite IH]. }
  assert (Gdot : String.get (S (String.length dir)) (pre ++ name) = Some "."%char).
  { subst pre. clear. induction dir as [|c d IH]; simpl; [reflexivity | exact IH]. }
  assert (Gslash : String.get (String.length dir) (pre ++ name) = Some "/"%char).
  { subst pre. clear. induction dir as [|c d IH]; simpl; [reflexivity | exact IH]. }
  rewrite Epath. unfold Path.extname. rewrite Elen.
  set (init := Path.mkExt (-1) 0 (-1) true 0).
  assert (Hloop : exists e,
             Path.extnameLoop (pre ++ name)
               (String.length pre + String.length name) init
             = Path.mkExt (Z.of_nat (S (String.length dir)))
                          (Z.of_nat (String.length dir) + 1) e false 0).
  { destruct (String.length name) as [|k] eqn:Ek.
    - rewrite Nat.add_0_r, Epre. cbn [Path.extnameLoop].
      rewrite Gdot. cbn [Ascii.eqb Bool.eqb]. subst init.
      cbn [Path.endPos Path.startDot Path.startPart Path.matchedSlash
           Path.preDotState Z.eqb Pos.eqb negb].
      rewrite Gslash. cbn [Ascii.eqb Bool.eqb negb Path.matchedSlash
           Path.endPos Path.startDot Path.startPart Path.preDotState]. eauto.
    - rewrite Nat.add_succ_r. cbn [Path.extnameLoop].
      rewrite get_append_right.
      destruct (get_in_range name k) as [x Hx]; [lia|]. rewrite Hx.
      rewrite (get_free "/" name k x Hslash Hx).
      rewrite (get_free "." name k x Hdot Hx).
      subst init.
      cbn [Path.endPos Path.startDot Path.startPart Path.matchedSlash
           Path.preDotState Z.eqb Pos.eqb negb].
      rewrite extnameLoop_skips_name;
        [ | assumption | assumption | lia | cbn [Path.endPos]; lia | reflexivity ].
      rewrite Epre. cbn [Path.extnameLoop].
      rewrite Gdot. cbn [Ascii.eqb Bool.eqb].
      cbn [Path.endPos Path.startDot Path.startPart Path.matchedSlash
           Path.preDotState Z.eqb Pos.eqb negb].
      match goal with
      | |- context [(?a =? -1)] => destruct (Z.eqb_spec a (-1)); [lia|]
      end.
      cbn [Path.endPos Path.startDot Path.startPart Path.matchedSlash
           Path.preDotState Z.eqb Pos.eqb negb].
      rewrite Gslash. cbn [Ascii.eqb Bool.eqb negb Path.matchedSlash
           Path.endPos Path.startDot Path.startPart Path.preDotState]. eauto. }
  destruct Hloop as [e ->].
  cbn [Path.endPos Path.startDot Path.startPart Path.preDotState].
  cbn [Z.eqb]. rewrite !orb_true_r. reflexivity.
Qed.

(** So no name of that shape is ever refused, whatever the list. *)
Lemma dotfile_never_forbidden (dir name : string) (forbidden : list string) :
  hasChar "/" name = false -> hasChar "." name = false ->
  includes EmptyString forbidden = false ->
  isForbiddenExtension (dir ++ "/." ++ name) forbidden = false.
Proof.
  intros Hs Hd Hf. unfold isForbiddenExtension.
  now rewrite extname_dotfile.
Qed.
End ExtensionFacts.

Module ExtensionTheorems.
Import JS Bridge Demo.

(** C2.  A file named [.env] is not refused.  [path.extname] gives the
    empty string for a name whose only dot is its first character, so
    with [.env] forbidden (alone, or in the default list)
    [isForbiddenExtension] is false for [/home/u/proj/.env] and the read
    goes through to the content of the file; [.env.local] has the
    extension [.local], which the default list does not hold either.  A
    name with a dot inside it is matched on its last suffix, in lower
    case. *)
Theorem fsRead_serves_dot_env :
  Path.extname "/home/u/proj/.env" = EmptyString
  /\ isForbiddenExtension "/home/u/proj/.env" [".env"%string] = false
  /\ isForbiddenExtension "/home/u/proj/.env" (forbiddenExtensions DEFAULT_CONFIG)
     = false
  /\ isForbiddenExtension "/home/u/proj/.env.local"
                          (forbiddenExtensions DEFAULT_CONFIG) = false
  /\ isWithinAllowed "/srv/bridge" "/home/u/proj/.env" (allowedPaths config) = true
  /\ fsRead "/srv/bridge" fs config (Some "/home/u/proj/.env"%string) None None
     = (ReadResult "/home/u/proj/.env" "SECRET=1" 8 stamp 1 false,
        [CallExists "/home/u/proj/.env"; CallStat "/home/u/proj/.env";
         CallReadFile "/home/u/proj/.env" "utf8"])
  /\ isForbiddenExtension "/home/u/proj/prod.ENV" [".env"%string] = true
  /\ isForbiddenExtension "/home/u/proj/server.key"
                          (forbiddenExtensions DEFAULT_CONFIG) = true.
Proof. repeat split. Qed.

End ExtensionTheorems.

Module ResolverFacts.
Import JS Bridge AuthDefs PathFacts Demo AnswerDefs.

(** [normalizePath] never gives an empty string, so the test [!root] of
    [isWithinAllowed] never fires. *)
Lemma normalizePath_truthy (cwd inputPath : string) :
  truthy (normalizePath cwd inputPath) = true.
Proof.
  unfold normalizePath, Path.resolve.
  destruct (trim inputPath =? "")%string.
  - destruct (cwd =? "")%string.
    + cbn [negb]. now destruct (truthy (Path.normalizeString _ _)) eqn:E.
    + destruct (Path.isAbsolute cwd); cbn [negb]; [reflexivity|].
      now destruct (truthy (Path.normalizeString _ _)) eqn:E.
  - destruct (Path.isAbsolute (trim inputPath)); [reflexivity|].
    destruct (cwd =? "")%string.
    + cbn [negb]. now destruct (truthy (Path.normalizeString _ _)) eqn:E.
    + destruct (Path.isAbsolute cwd); cbn [negb]; [reflexivity|].
      now destruct (truthy (Path.normalizeString _ _)) eqn:E.
Qed.

(** A blank input is resolved as the working directory is. *)
Lemma normalizePath_blank (cwd inputPath : string) :
  canonical cwd -> trim inputPath = EmptyString ->
  normalizePath cwd inputPath = cwd.
Proof.
  intros Hc Hblank. unfold normalizePath. rewrite Hblank.
  rewrite <- (resolve_of_canonical cwd cwd Hc) at 2.
  destruct Hc as (segs & _ & ->).
  unfold Path.resolve.
  change ("/" ++ JS.join "/" segs)%string with (String "/" (JS.join "/" segs)).
  cbn [String.eqb]. rewrite isAbsolute_cons. cbn [negb String.append].
  reflexivity.
Qed.

(** The handlers hand [isWithinAllowed] a path that [normalizePath] has
    already resolved, and [isWithinAllowed] trims it once more: a last
    segment that ends in white space is checked without it.  With
    [/home/u/proj] authorized, a scan of ["/home/u/proj /"] is let through
    as the root and lists the directory next to it. *)
Remark projectScan_checks_trimmed_path :
  normalizePath "/srv/bridge" "/home/u/proj /" = "/home/u/proj "%string
  /\ isWithinAllowed "/srv/bridge" "/home/u/proj " (allowedPaths config) = true
  /\ projectScan "/srv/bridge" byteOrder 10 fs config
       (Some "/home/u/proj /"%string) None None
     = Some (ScanResult "/home/u/proj " "📄 private.txt" (ofZ 4) (ofZ 800)).
Proof. repeat apply conj; vm_compute; reflexivity. Qed.

End ResolverFacts.

Module ResolverTheorems.
Import JS Bridge Demo.

(** C4.  A blank path resolves to the working directory.  [normalizePath]
    gives [process.cwd()] for the empty string and for a string of white
    space, never an empty result, and a scan request whose path is white
    space lists the working directory when that directory is
    authorized. *)
Theorem normalizePath_blank_is_cwd :
  normalizePath "/srv/bridge" "" = "/srv/bridge"%string
  /\ normalizePath "/srv/bridge" "   " = "/srv/bridge"%string
  /\ truthy (normalizePath "/srv/bridge" "   ") = true
  /\ projectScan "/srv/bridge" byteOrder 10 fs
       (withRoots DEFAULT_CONFIG ["/srv/bridge"%string] "")
       (Some "   "%string) None None
     = Some (ScanResult "/srv/bridge" "📄 package.json" (ofZ 4) (ofZ 800)).
Proof. repeat split. Qed.

End ResolverTheorems.

Module LimitFacts.
Import JS Bridge NumberFacts.

(** [Math.min] with a finite cap is NaN or at most the cap. *)
Lemma Math_min_cap (a : number) (cap : Q) :
  Math_min a (Fin cap) = NaN \/ le (Math_min a (Fin cap)) (Fin cap) = true.
Proof.
  destruct a as [| |q|]; simpl; auto.
  - right. destruct (Qle_bool q cap) eqn:E; simpl; [exact E|].
    apply Qle_bool_iff. apply Qle_refl.
  - right. apply Qle_bool_iff. apply Qle_refl.
Qed.

Lemma Math_min_NaN (a b : number) :
  Math_min a b = NaN <-> a = NaN \/ b = NaN.
Proof.
  destruct a, b; simpl; split; intros H; auto;
    try discriminate; try (destruct H; discriminate);
    try (destruct (Qle_bool _ _); discriminate).
Qed.

(** The limits of a scan request are each NaN or within the ceiling, and
    NaN exactly when the number they are taken from is. *)
Lemma scanLimits_cases (config : Config) (qMaxDepth qMaxEntries : option string) :
  let lim := scanLimits config qMaxDepth qMaxEntries in
  (fst lim = NaN \/ le (fst lim) (ofZ 8) = true)
  /\ (snd lim = NaN \/ le (snd lim) (ofZ 1500) = true)
  /\ (fst lim = NaN <-> queryNumber qMaxDepth (maxDepth config) = NaN)
  /\ (snd lim = NaN <-> queryNumber qMaxEntries (maxEntries config) = NaN).
Proof.
  cbv zeta. unfold scanLimits. cbn [fst snd]. unfold ofZ.
  repeat split; try apply Math_min_cap;
    try (intros H; apply Math_min_NaN in H; destruct H; [assumption|discriminate]);
    try (intros H; apply Math_min_NaN; now left).
Qed.

(** No string reaches the scan as NaN but through [Number]. *)
Lemma queryNumber_NaN (q : option string) (dflt : number) :
  dflt <> NaN ->
  (queryNumber q dflt = NaN
   <-> exists s, q = Some s /\ s <> EmptyString /\ StringToNumber s = NaN).
Proof.
  intros Hd. unfold queryNumber. destruct q as [s|].
  - destruct s as [|c s]; simpl.
    + split; [congruence|]. intros (s' & E & Hne & _). inversion E. congruence.
    + split; [intros H; exists (String c s); repeat split; auto; discriminate|].
      intros (s' & E & _ & H). now inversion E; subst.
  - split; [congruence|]. intros (s' & E & _). discriminate.
Qed.
End LimitFacts.

Module LimitTheorems.
Import JS Bridge Demo AnswerDefs.

(** C3.  A limit that is not a number is not clamped.  [Number] of such
    a string is NaN, [Math.min] of NaN and the ceiling is NaN, and both
    guards of [walk] are false against NaN: the request
    [?maxDepth=abc&maxEntries=abc] is answered with the limits NaN and
    NaN, lists directories ten levels deep, beyond the ceiling of 8, and
    lists all 1501 files of a directory, beyond the ceiling of 1500,
    without a truncation line.  Missing, zero, negative and too large
    numbers stay within the ceilings. *)
Theorem projectScan_unclamped_for_non_numeric :
  let deep :=
    projectScan "/srv/bridge" byteOrder 12 deepFs
      (withRoots DEFAULT_CONFIG ["/r"%string] "/r")
      None (Some "abc"%string) (Some "abc"%string) in
  let wide :=
    projectScan "/srv/bridge" byteOrder 2 (wideFs 1501)
      (withRoots DEFAULT_CONFIG ["/w"%string] "/w")
      None (Some "abc"%string) (Some "abc"%string) in
  scanLimits DEFAULT_CONFIG (Some "abc"%string) (Some "abc"%string) = (NaN, NaN)
  /\ answerSummary deep = Some (NaN, NaN, 10%nat, "                  📁 d"%string)
  /\ answeredLines deep =
     ["📁 d"; "  📁 d"; "    📁 d"; "      📁 d"; "        📁 d";
      "          📁 d"; "            📁 d"; "              📁 d";
      "                📁 d"; "                  📁 d"]%string
  /\ option_map (fun out => last (listed out) (0, EmptyString))
       (scanDirTree byteOrder deepFs
          (mkOpts NaN NaN (ignoredDirs DEFAULT_CONFIG)) 12 "/r")
     = Some (10, "/r/d/d/d/d/d/d/d/d/d/d"%string)
  /\ answerSummary wide = Some (NaN, NaN, 1501%nat, "📄 f1500"%string)
  /\ scanLimits DEFAULT_CONFIG None None = (ofZ 4, ofZ 800)
  /\ scanLimits DEFAULT_CONFIG (Some "0"%string) (Some "-3"%string)
     = (ofZ 0, ofZ (-3))
  /\ scanLimits DEFAULT_CONFIG (Some "99"%string) (Some "1e9"%string)
     = (ofZ 8, ofZ 1500).
Proof.
  cbv zeta. repeat apply conj; vm_compute; reflexivity.
Qed.
End LimitTheorems.


Module CapFacts.
Import JS Bridge NumberFacts.

Lemma Qle_bool_false_lt (x y : Q) : Qle_bool x y = false -> (y < x)%Q.
Proof.
  intros H. apply Qnot_le_lt. intros Hle.
  apply Qle_bool_iff in Hle. congruence.
Qed.

(** Against a limit of at most [E], a counter that has not reached the
    limit is below [E]. *)
Lemma below_cap (m : number) (c E : Z) :
  le m (ofZ E) = true -> ge (ofZ c) m = false -> c < E.
Proof.
  unfold ge, ofZ. destruct m as [| |q|]; simpl; try discriminate.
  intros Hcap Hc. apply Qle_bool_iff in Hcap. apply Qle_bool_false_lt in Hc.
  rewrite Zlt_Qlt. eapply Qlt_le_trans; eauto.
Qed.

(** Against a limit of at most [D], a depth that does not exceed the
    limit is at most [D], and a depth beyond [D] exceeds the limit. *)
Lemma within_cap (m : number) (k D : Z) :
  le m (ofZ D) = true -> gt (ofZ k) m = false -> k <= D.
Proof.
  unfold gt, ofZ. destruct m as [| |q|]; simpl; try discriminate.
  intros Hcap Hk. apply negb_false_iff, Qle_bool_iff in Hk.
  apply Qle_bool_iff in Hcap. rewrite Zle_Qle. eapply Qle_trans; eauto.
Qed.

Lemma beyond_cap (m : number) (k D : Z) :
  le m (ofZ D) = true -> D < k -> gt (ofZ k) m = true.
Proof.
  unfold gt, ofZ. destruct m as [| |q|]; simpl; try discriminate; auto.
  intros Hcap Hk. apply Qle_bool_iff in Hcap. apply negb_true_iff.
  destruct (Qle_bool (inject_Z k) q) eqn:E; [|reflexivity].
  apply Qle_bool_iff in E. exfalso.
  assert (H : (inject_Z k <= inject_Z D)%Q) by (eapply Qle_trans; eauto).
  rewrite <- Zle_Qle in H. lia.
Qed.
End CapFacts.

Module ScanCapFacts.
Import JS Bridge ScanDefs NumberFacts ScanFacts CapFacts.

Section Capped.
Variable localeCompare : string -> string -> Z.
Variable fs : FileSystem.
Variable opts : ScanOpts.
Variables D E : Z.
Hypothesis depth_cap : le (optMaxDepth opts) (ofZ D) = true.
Hypothesis entries_cap : le (optMaxEntries opts) (ofZ E) = true.

Lemma walkEntries_capped
  (rec : string -> Z -> string -> ScanState -> option ScanState)
  (dir : string) (k : nat) :
  Z.of_nat k <= D ->
  (forall dir' st1 st2, scanInv D E st1 ->
      rec dir' (Z.of_nat (S k)) (indent (S k)) st1 = Some st2 -> scanInv D E st2) ->
  forall names st st', scanInv D E st ->
    walkEntries fs opts rec dir (Z.of_nat k) (indent k) names st = Some st' ->
    scanInv D E st'.
Proof.
  intros Hk Hrec names.
  induction names as [|name rest IH]; intros st st' Hinv H.
  - simpl in H. now inversion H; subst.
  - rewrite walkEntries_cons in H. cbv zeta in H.
    destruct (ge (ofZ (entriesCount st)) (optMaxEntries opts)) eqn:Efull.
    { now inversion H; subst. }
    pose proof (below_cap _ _ _ entries_cap Efull) as Hroom.
    destruct (includes name _); [eauto|].
    destruct (stat fs _) as [s|]; [|eauto].
    set (st1 := mkScan _ _ _) in H.
    assert (Hinv1 : scanInv D E st1).
    { destruct Hinv as (Hc & Hl & Hlines & Hlisted).
      subst st1; unfold scanInv; simpl. repeat split; try lia; auto.
      - rewrite length_app; simpl. lia.
      - apply Forall_app; split; auto. constructor; auto.
        exists k, (isDirectory s), name. auto. }
    destruct (isDirectory s).
    + replace (Z.of_nat k + 1) with (Z.of_nat (S k)) in H by lia.
      change (indent k ++ "  ") with (indent (S k)) in H.
      destruct (rec _ _ _ _) as [st2|] eqn:Erec; [|discriminate].
      eauto.
    + eauto.
Qed.

Lemma walk_capped (fuel : nat) :
  forall dir k st st', scanInv D E st ->
    walk localeCompare fs opts fuel dir (Z.of_nat k) (indent k) st = Some st' ->
    scanInv D E st'.
Proof.
  induction fuel as [|fuel IH]; intros dir k st st' Hinv H; [discriminate|].
  rewrite walk_S in H. cbv zeta in H.
  destruct (ge _ _); [now inversion H; subst|].
  destruct (gt (ofZ (Z.of_nat k)) (optMaxDepth opts)) eqn:Edeep;
    [now inversion H; subst|].
  pose proof (within_cap _ _ _ depth_cap Edeep) as Hk.
  set (st0 := mkScan _ _ _) in H.
  assert (Hinv0 : scanInv D E st0).
  { destruct Hinv as (Hc & Hl & Hlines & Hlisted).
    subst st0; unfold scanInv; simpl. repeat split; auto; try lia.
    apply Forall_app; split; auto. constructor; auto. simpl. lia. }
  destruct (readdir fs dir) as [dirents|]; [|now inversion H; subst].
  eapply walkEntries_capped; eauto.
Qed.

Lemma walkEntries_answers
  (rec : string -> Z -> string -> ScanState -> option ScanState)
  (dir : string) (depth : Z) (prefix : string) :
  (forall dir' st1, exists st2,
      rec dir' (depth + 1) (prefix ++ "  ") st1 = Some st2) ->
  forall names st, exists st',
    walkEntries fs opts rec dir depth prefix names st = Some st'.
Proof.
  intros Hrec names.
  induction names as [|name rest IH]; intros st; [simpl; eauto|].
  rewrite walkEntries_cons. cbv zeta.
  destruct (ge _ _); eauto.
  destruct (includes _ _); eauto.
  destruct (stat fs _) as [s|]; eauto.
  destruct (isDirectory s); eauto.
  destruct (Hrec (Path.join dir name)
              (mkScan (lines st ++ [entryLine prefix true name])
                      (entriesCount st + 1) (listed st))) as [st2 Erec].
  rewrite Erec. eauto.
Qed.

Lemma walk_answers (fuel : nat) :
  forall dir depth prefix st,
    (0 < fuel)%nat -> D + 2 - depth <= Z.of_nat fuel ->
    exists st', walk localeCompare fs opts fuel dir depth prefix st = Some st'.
Proof.
  induction fuel as [|fuel IH]; intros dir depth prefix st Hpos Hfuel; [lia|].
  rewrite walk_S. cbv zeta.
  destruct (ge _ _); eauto.
  destruct (gt (ofZ depth) (optMaxDepth opts)) eqn:Edeep; eauto.
  assert (Hk : depth <= D).
  { destruct (Z.le_gt_cases depth D) as [|Hgt]; [assumption|].
    rewrite (beyond_cap _ _ _ depth_cap) in Edeep by lia. discriminate. }
  destruct (readdir fs dir) as [dirents|]; eauto.
  apply walkEntries_answers. intros dir' st1. apply IH; lia.
Qed.
End Capped.
End ScanCapFacts.

Module ScanCapTheorems.
Import JS Bridge ScanDefs NumberFacts ScanFacts CapFacts ScanCapFacts LimitFacts.

(** X1.  When neither limit of a scan request is NaN, the scan is
    bounded by the ceilings whatever the request and the configuration
    say: [scanDirTree] returns for every fuel from 10 on, it lists at
    most 1500 entries (1501 lines with the truncation line), it calls
    [readdir] at depths 0 to 8 only, and the handler always answers. *)
Theorem projectScan_numeric_limits_bounded :
  forall (cwd : string) (localeCompare : string -> string -> Z)
         (fs : FileSystem) (config : Config)
         (qPath qMaxDepth qMaxEntries : option string) (rootDir : string),
    fst (scanLimits config qMaxDepth qMaxEntries) <> NaN ->
    snd (scanLimits config qMaxDepth qMaxEntries) <> NaN ->
    (exists r : ScanState,
        (forall fuel : nat, (10 <= fuel)%nat ->
           scanDirTree localeCompare fs
             (mkOpts (fst (scanLimits config qMaxDepth qMaxEntries))
                     (snd (scanLimits config qMaxDepth qMaxEntries))
                     (ignoredDirs config))
             fuel rootDir = Some r)
        /\ entriesCount r <= 1500
        /\ (List.length (lines r) <= 1501)%nat
        /\ Forall (fun x : Z * string => 0 <= fst x <= 8) (listed r))
    /\ (exists answer : response,
          forall fuel : nat, (10 <= fuel)%nat ->
            projectScan cwd localeCompare fuel fs config qPath qMaxDepth qMaxEntries
            = Some answer).
Proof.
  intros cwd lc fs config qPath qd qe rootDir Hd He.
  destruct (scanLimits_cases config qd qe) as (Cd & Ce & _ & _).
  cbv zeta in Cd, Ce.
  destruct Cd as [Cd|Cd]; [congruence|]. destruct Ce as [Ce|Ce]; [congruence|].
  assert (Hscan : forall root, exists r : ScanState,
      (forall fuel : nat, (10 <= fuel)%nat ->
         scanDirTree lc fs
           (mkOpts (fst (scanLimits config qd qe)) (snd (scanLimits config qd qe))
                   (ignoredDirs config)) fuel root = Some r)
      /\ entriesCount r <= 1500
      /\ (List.length (lines r) <= 1501)%nat
      /\ Forall (fun x : Z * string => 0 <= fst x <= 8) (listed r)).
  { intros root.
    set (opts := mkOpts (fst (scanLimits config qd qe))
                        (snd (scanLimits config qd qe)) (ignoredDirs config)).
    destruct (walk_answers lc fs opts 8 Cd 10 root 0 "" (mkScan [] 0 []))
      as [st Hst]; [lia | lia |].
    assert (Hinv : scanInv 8 1500 st).
    { apply (walk_capped lc fs opts 8 1500 Cd Ce 10 root 0%nat
               (mkScan [] 0 []) st); [|exact Hst].
      unfold scanInv; simpl. repeat split; auto; lia. }
    destruct Hinv as (Hc & Hl & _ & Hlisted).
    assert (Hten : exists r, scanDirTree lc fs opts 10 root = Some r
               /\ entriesCount r = entriesCount st
               /\ (List.length (lines r) <= S (List.length (lines st)))%nat
               /\ listed r = listed st).
    { unfold scanDirTree. rewrite Hst.
      destruct (ge _ _); eexists; (split; [reflexivity|]); simpl.
      - rewrite length_app. simpl. repeat split; lia.
      - repeat split; lia. }
    destruct Hten as (r & Hr & Hrc & Hrl & Hrd).
    exists r. split; [|split; [|split]].
    - intros fuel Hfuel. eapply scanDirTree_fuel_le; eauto.
    - lia.
    - lia.
    - now rewrite Hrd. }
  split; [apply Hscan|].
  unfold projectScan.
  destruct (scanLimits config qd qe) as [d e] eqn:Elim. cbn [fst snd] in Hscan.
  destruct (negb (truthy _)); [eauto|].
  destruct (negb (isWithinAllowed _ _ _)); [eauto|].
  destruct (stat fs _) as [st|]; [|eauto].
  destruct (negb (isDirectory st)); [eauto|].
  destruct (Hscan (normalizePath cwd
              match qPath with
              | Some s => if truthy s then s else activeProjectRoot config
              | None => activeProjectRoot config
              end)) as (r & Hr & _).
  eexists. intros fuel Hfuel. rewrite (Hr fuel Hfuel). reflexivity.
Qed.
End ScanCapTheorems.

Module ScanCapWitnesses.
Import JS Bridge Demo ScanCapTheorems.

Lemma projectScan_numeric_limits_bounded_witness :
  exists answer : response,
    forall fuel : nat, (10 <= fuel)%nat ->
      projectScan "/srv/bridge" byteOrder fuel fs config None
                  (Some "99"%string) (Some "-3"%string)
      = Some answer.
Proof.
  refine (proj2 (projectScan_numeric_limits_bounded "/srv/bridge" byteOrder fs
                   config None (Some "99"%string) (Some "-3"%string)
                   "/home/u/proj" _ _)); vm_compute; discriminate.
Defined.
End ScanCapWitnesses.

Module CutFacts.
Import JS Bridge ScanDefs CutDefs NumberFacts ScanFacts.

Lemma grows_countsLines (st st' : ScanState) :
  grows st st' -> countsLines st -> countsLines st'.
Proof.
  intros (new & L & C) H. unfold countsLines in *.
  rewrite C, L, length_app, H. lia.
Qed.

Lemma cutAt_full (n : Z) (stU stU' stL : ScanState) :
  0 <= n -> countsLines stU -> cutAt n stU stL ->
  n <= entriesCount stL -> grows stU stU' -> cutAt n stU' stL.
Proof.
  intros Hn Hcount [Hl Hc] Hfull (new & L & C). unfold countsLines in Hcount.
  split.
  - rewrite Hl, L. rewrite firstn_app.
    replace (Z.to_nat n - List.length (lines stU))%nat with 0%nat by lia.
    simpl. now rewrite app_nil_r.
  - lia.
Qed.

Lemma cutAt_room (n : Z) (stU stL : ScanState) :
  countsLines stU -> cutAt n stU stL -> entriesCount stL < n ->
  lines stL = lines stU /\ entriesCount stL = entriesCount stU.
Proof.
  intros Hcount [Hl Hc] Hroom. unfold countsLines in Hcount. split; [|lia].
  rewrite Hl. apply firstn_all2. lia.
Qed.

Lemma cutAt_same (n : Z) (stU stL : ScanState) :
  countsLines stU -> lines stL = lines stU ->
  entriesCount stL = entriesCount stU -> entriesCount stU <= n ->
  cutAt n stU stL.
Proof.
  intros Hcount Hl Hc Hle. unfold countsLines in Hcount. split; [|lia].
  rewrite Hl. symmetry. apply firstn_all2. lia.
Qed.

Section Cut.
Variable localeCompare : string -> string -> Z.
Variable fs : FileSystem.
Variable dm : number.
Variable n : Z.
Variable ignored : list string.
Hypothesis n_nonneg : 0 <= n.

Local Abbreviation unbounded := (mkOpts dm PosInf ignored).
Local Abbreviation limited := (mkOpts dm (ofZ n) ignored).

Lemma walkEntries_followsCut
  (recU recL : string -> Z -> string -> ScanState -> option ScanState) :
  (forall dir depth prefix st r, recU dir depth prefix st = Some r -> grows st r) ->
  followsCut n recU recL ->
  forall dir depth prefix names stU stU' stL,
    walkEntries fs unbounded recU dir depth prefix names stU = Some stU' ->
    countsLines stU -> cutAt n stU stL ->
    exists stL',
      walkEntries fs limited recL dir depth prefix names stL = Some stL'
      /\ cutAt n stU' stL'.
Proof.
  intros HgU Hsim dir depth prefix names.
  induction names as [|name rest IH]; intros stU stU' stL HU Hcount Hcut.
  - simpl in *. inversion HU; subst. eauto.
  - pose proof (walkEntries_grows fs unbounded recU HgU _ _ _ _ _ _ HU) as Gall.
    rewrite walkEntries_cons in HU. rewrite walkEntries_cons. cbv zeta in *.
    cbn [optMaxEntries optIgnoredDirs] in *.
    rewrite ge_PosInf in HU. rewrite ge_ofZ.
    destruct (Z.leb_spec n (entriesCount stL)) as [Hfull|Hroom].
    { exists stL. split; auto. eapply cutAt_full; eauto. }
    destruct (cutAt_room n stU stL Hcount Hcut Hroom) as [Hl Hc].
    destruct (includes name ignored); [eapply IH; eauto|].
    destruct (stat fs _) as [s|]; [|eapply IH; eauto].
    rewrite Hl, Hc.
    set (st1U := mkScan _ _ (listed stU)) in *.
    set (st1L := mkScan _ _ (listed stL)).
    assert (G1 : grows stU st1U).
    { exists [entryLine prefix (isDirectory s) name]. simpl. split; auto. }
    assert (Hcount1 : countsLines st1U) by (eapply grows_countsLines; eauto).
    assert (Hcut1 : cutAt n st1U st1L).
    { apply cutAt_same; auto. subst st1U; simpl. lia. }
    destruct (isDirectory s).
    + destruct (recU _ _ _ _) as [st2U|] eqn:EU; [|discriminate].
      destruct (Hsim _ _ _ _ _ st1L EU Hcount1 Hcut1) as (st2L & EL & Hcut2).
      rewrite EL. apply IH with (stU := st2U); auto.
      eapply grows_countsLines; [eapply HgU; exact EU | exact Hcount1].
    + apply IH with (stU := st1U); auto.
Qed.

Lemma walk_followsCut (fuel : nat) :
  followsCut n (walk localeCompare fs unbounded fuel)
             (walk localeCompare fs limited fuel).
Proof.
  induction fuel as [|fuel IH]; intros dir depth prefix stU stU' stL HU Hcount Hcut;
    [discriminate|].
  pose proof (walk_grows _ _ _ _ _ _ _ _ _ HU) as Gall.
  rewrite walk_S in HU. rewrite walk_S. cbv zeta in *.
  cbn [optMaxEntries optMaxDepth] in *.
  rewrite ge_PosInf in HU. rewrite ge_ofZ.
  destruct (Z.leb_spec n (entriesCount stL)) as [Hfull|Hroom].
  { exists stL. split; auto. eapply cutAt_full; eauto. }
  destruct (cutAt_room n stU stL Hcount Hcut Hroom) as [Hl Hc].
  rewrite Hc.
  destruct (gt _ dm).
  { inversion HU; subst. eauto. }
  rewrite Hl.
  destruct (readdir fs dir) as [dirents|].
  - eapply walkEntries_followsCut; eauto.
    + intros. eapply walk_grows; eauto.
    + apply cutAt_same; auto. simpl. lia.
  - inversion HU; subst. eexists; split; eauto.
    apply cutAt_same; auto. simpl. lia.
Qed.
End Cut.
End CutFacts.

Module CutTheorems.
Import JS Bridge ScanDefs CutDefs NumberFacts ScanFacts CutFacts.

(** X2.  A scan cut short shows the beginning of the full scan.  For an
    entry limit [n >= 0], [scanDirTree] returns the first [n] lines of
    what it returns without an entry limit (same depth limit, same
    ignored names), followed by the truncation line exactly when the
    full scan has at least [n] entries; its counter is the smaller of
    [n] and the full count. *)
Theorem scanDirTree_limited_is_prefix :
  forall (localeCompare : string -> string -> Z) (fs : FileSystem)
         (rootDir : string) (dm : number) (ignored : list string)
         (fuel : nat) (n : Z) (full : ScanState),
    0 <= n ->
    scanDirTree localeCompare fs (mkOpts dm PosInf ignored) fuel rootDir
    = Some full ->
    exists r : ScanState,
      scanDirTree localeCompare fs (mkOpts dm (ofZ n) ignored) fuel rootDir
      = Some r
      /\ lines r
         = (firstn (Z.to_nat n) (lines full)
            ++ (if n <=? entriesCount full then [truncatedLine] else []))%list
      /\ entriesCount r = Z.min (entriesCount full) n.
Proof.
  intros lc fs rootDir dm ignored fuel n full Hn H. unfold scanDirTree in *.
  destruct (walk lc fs (mkOpts dm PosInf ignored) _ _ _ _ _) as [stU|] eqn:EU;
    [|discriminate].
  cbn [optMaxEntries] in *. rewrite ge_PosInf in H. inversion H; subst full.
  destruct (walk_followsCut lc fs dm n ignored Hn fuel
              _ _ _ _ _ (mkScan [] 0 []) EU) as (stL & EL & Hl & Hc).
  - reflexivity.
  - split; simpl; [now destruct (Z.to_nat n) | lia].
  - rewrite EL, ge_ofZ, Hc.
    destruct (Z.leb_spec n (entriesCount stU)) as [Hle|Hgt].
    + rewrite Z.min_r by lia. rewrite Z.leb_refl.
      eexists. split; [reflexivity|]. simpl. rewrite Hl. split; auto; lia.
    + rewrite Z.min_l by lia.
      destruct (Z.leb_spec n (entriesCount stU)); [lia|].
      eexists. split; [reflexivity|]. rewrite Hl, app_nil_r. split; auto; lia.
Qed.
End CutTheorems.

Module CutWitnesses.
Import JS Bridge Demo CutTheorems.

Lemma scanDirTree_limited_is_prefix_witness :
  exists r : ScanState,
    scanDirTree byteOrder fs (mkOpts (ofZ 4) (ofZ 2) (ignoredDirs config)) 10
                "/home/u/proj" = Some r
    /\ lines r = ["📄 ..cache"; "📄 .env"; truncatedLine]%string
    /\ entriesCount r = 2.
Proof.
  refine (scanDirTree_limited_is_prefix byteOrder fs "/home/u/proj" (ofZ 4)
            (ignoredDirs config) 10 2
            (mkScan
               ["📄 ..cache"; "📄 .env"; "📄 README.md"; "📄 big.bin";
                "📄 notes.txt"; "📁 src"; "  📄 index.js"; "  📁 lib";
                "    📄 util.js"]%string
               9
               [(0, "/home/u/proj"); (1, "/home/u/proj/src");
                (2, "/home/u/proj/src/lib")]%string) _ _);
    [lia | vm_compute; reflexivity].
Defined.
End CutWitnesses.

Module SortFacts.
Import JS Bridge.

Section Sorting.
Variable localeCompare : string -> string -> Z.

Local Abbreviation before := (fun a b : string => localeCompare a b <= 0).

Lemma insertName_perm (x : string) (l : list string) :
  Permutation (insertName localeCompare x l) (x :: l).
Proof.
  induction l as [|y l IH]; simpl; [reflexivity|].
  destruct (localeCompare x y <=? 0); [reflexivity|].
  rewrite IH. apply perm_swap.
Qed.

Lemma sortNames_perm (l : list string) :
  Permutation (sortNames localeCompare l) l.
Proof.
  induction l as [|x l IH]; simpl; [reflexivity|].
  rewrite insertName_perm. now constructor.
Qed.

Lemma sortNames_In (x : string) (l : list string) :
  In x (sortNames localeCompare l) <-> In x l.
Proof.
  split; apply Permutation_in;
    [apply sortNames_perm | symmetry; apply sortNames_perm].
Qed.

Hypothesis comparable :
  forall a b : string, localeCompare a b <= 0 \/ localeCompare b a <= 0.

Lemma insertName_hd (a x : string) (l : list string) :
  before a x -> HdRel before a l -> HdRel before a (insertName localeCompare x l).
Proof.
  intros Hax Hl. destruct l as [|y l]; simpl.
  - now constructor.
  - destruct (localeCompare x y <=? 0); constructor; auto.
    now inversion Hl.
Qed.

Lemma insertName_sorted (x : string) (l : list string) :
  Sorted before l -> Sorted before (insertName localeCompare x l).
Proof.
  induction 1 as [|y l Hs IH Hhd]; simpl.
  - repeat constructor.
  - destruct (Z.leb_spec (localeCompare x y) 0) as [Hle|Hgt].
    + constructor; [now constructor | now constructor].
    + constructor; [exact IH|].
      apply insertName_hd; [|exact Hhd].
      destruct (comparable x y); [lia | assumption].
Qed.

Lemma sortNames_sorted (l : list string) :
  Sorted before (sortNames localeCompare l).
Proof.
  induction l as [|x l IH]; simpl; [constructor|].
  now apply insertName_sorted.
Qed.
End Sorting.
End SortFacts.

Module SortTheorems.
Import JS Bridge SortFacts.

(** X3.  Sorting the names of a directory loses and invents nothing: the
    sorted list is a permutation of what [readdir] gave.  When any two
    names are comparable by the collation, each name of the sorted list
    comes before or with the next one. *)
Theorem sortNames_permutation_sorted :
  forall (localeCompare : string -> string -> Z) (dirents : list string),
    Permutation (sortNames localeCompare dirents) dirents
    /\ ((forall a b : string, localeCompare a b <= 0 \/ localeCompare b a <= 0) ->
        Sorted (fun a b => localeCompare a b <= 0)
               (sortNames localeCompare dirents)).
Proof.
  intros lc dirents. split.
  - apply sortNames_perm.
  - intros Hcmp. now apply sortNames_sorted.
Qed.
End SortTheorems.

Module SortWitnesses.
Import JS Bridge SortTheorems.

Lemma sortNames_permutation_sorted_witness :
  Sorted (fun a b => Z.of_nat (String.length a) - Z.of_nat (String.length b) <= 0)
         (sortNames (fun a b => Z.of_nat (String.length a) - Z.of_nat (String.length b))
                    ["src"; "a"; "README.md"; "lib"]%string).
Proof.
  refine (proj2 (sortNames_permutation_sorted
                   (fun a b => Z.of_nat (String.length a) - Z.of_nat (String.length b))
                   ["src"; "a"; "README.md"; "lib"]%string) _).
  intros a b. lia.
Defined.
End SortWitnesses.

Module FrameFacts.
Import JS Bridge ScanDefs FrameDefs ScanFacts SortFacts.

Section Frame.
Variable localeCompare : string -> string -> Z.
Variable fs : FileSystem.
Variable opts : ScanOpts.

(** What is known of a call of [walk], of a line and of a logged call. *)
Variable Ctx : string -> Z -> string -> Prop.
Variable Pline : string -> Prop.
Variable Plisted : Z * string -> Prop.

Hypothesis ctx_entry :
  forall dir depth prefix dirents name s,
    Ctx dir depth prefix -> readdir fs dir = Some dirents -> In name dirents ->
    includes name (optIgnoredDirs opts) = false ->
    stat fs (Path.join dir name) = Some s ->
    Pline (entryLine prefix (isDirectory s) name)
    /\ (isDirectory s = true ->
        Ctx (Path.join dir name) (depth + 1) (prefix ++ "  ")).
Hypothesis ctx_listed :
  forall dir depth prefix, Ctx dir depth prefix -> Plisted (depth, dir).

Local Abbreviation framed :=
  (fun st : ScanState => Forall Pline (lines st) /\ Forall Plisted (listed st)).

Lemma walkEntries_framed
  (rec : string -> Z -> string -> ScanState -> option ScanState)
  (dir : string) (depth : Z) (prefix : string) (dirents : list string) :
  Ctx dir depth prefix -> readdir fs dir = Some dirents ->
  (forall dir' st1 st2, Ctx dir' (depth + 1) (prefix ++ "  ") -> framed st1 ->
      rec dir' (depth + 1) (prefix ++ "  ") st1 = Some st2 -> framed st2) ->
  forall names, (forall x, In x names -> In x dirents) ->
  forall st st', framed st ->
    walkEntries fs opts rec dir depth prefix names st = Some st' -> framed st'.
Proof.
  intros Hctx Hdir Hrec names.
  induction names as [|name rest IH]; intros Hsub st st' Hst H.
  - simpl in H. now inversion H; subst.
  - assert (Hrest : forall x, In x rest -> In x dirents)
      by (intros x Hx; apply Hsub; now right).
    rewrite walkEntries_cons in H. cbv zeta in H.
    destruct (ge _ _); [now inversion H; subst|].
    destruct (includes name _) eqn:Eign; [eauto|].
    destruct (stat fs _) as [s|] eqn:Estat; [|eauto].
    destruct (ctx_entry dir depth prefix dirents name s Hctx Hdir
                (Hsub name (or_introl eq_refl)) Eign Estat) as [Hline Hsubctx].
    set (st1 := mkScan _ _ _) in H.
    assert (Hst1 : framed st1).
    { destruct Hst as [Hl Hd]. subst st1; simpl. split; auto.
      apply Forall_app. split; auto. }
    destruct (isDirectory s).
    + destruct (rec _ _ _ _) as [st2|] eqn:Erec; [|discriminate].
      eapply IH; [exact Hrest | | exact H]. eapply Hrec; eauto.
    + eauto.
Qed.

Lemma walk_framed (fuel : nat) :
  forall dir depth prefix st st',
    Ctx dir depth prefix -> framed st ->
    walk localeCompare fs opts fuel dir depth prefix st = Some st' -> framed st'.
Proof.
  induction fuel as [|fuel IH]; intros dir depth prefix st st' Hctx Hst H;
    [discriminate|].
  rewrite walk_S in H. cbv zeta in H.
  destruct (ge _ _); [now inversion H; subst|].
  destruct (gt _ _); [now inversion H; subst|].
  set (st0 := mkScan _ _ _) in H.
  assert (Hst0 : framed st0).
  { destruct Hst as [Hl Hd]. subst st0; simpl. split; auto.
    apply Forall_app. split; auto. constructor; eauto. }
  destruct (readdir fs dir) as [dirents|] eqn:Edir; [|now inversion H; subst].
  refine (walkEntries_framed (walk localeCompare fs opts fuel) dir depth prefix
            dirents Hctx Edir _ (sortNames localeCompare dirents) _ st0 st' Hst0 H).
  - intros dir' st1 st2 Hc Hf Hw. exact (IH _ _ _ _ _ Hc Hf Hw).
  - intros x. apply sortNames_In.
Qed.

Lemma scanDirTree_framed (fuel : nat) (rootDir : string) (r : ScanState) :
  Ctx rootDir 0 "" ->
  scanDirTree localeCompare fs opts fuel rootDir = Some r ->
  exists entries marker : list string,
    lines r = (entries ++ marker)%list
    /\ (marker = [] \/ marker = [truncatedLine])
    /\ Forall Pline entries /\ Forall Plisted (listed r).
Proof.
  intros Hctx H. unfold scanDirTree in H.
  destruct (walk _ _ _ _ _ _ _ _) as [st|] eqn:Est; [|discriminate].
  assert (Hinit : Forall Pline (lines (mkScan [] 0 []))
                  /\ Forall Plisted (listed (mkScan [] 0 [])))
    by (split; constructor).
  destruct (walk_framed _ _ _ _ _ _ Hctx Hinit Est) as [Hl Hd].
  destruct (ge _ _); inversion H; subst r; simpl.
  - exists (lines st), [truncatedLine]. auto.
  - exists (lines st), []. rewrite app_nil_r. auto.
Qed.
End Frame.
End FrameFacts.

Module JoinFacts.
Import JS Bridge StringDefs StringFacts AuthDefs PathFacts AuthFacts ExtensionFacts.

Lemma length_append (a b : string) :
  String.length (a ++ b) = (String.length a + String.length b)%nat.
Proof. induction a as [|c a IH]; simpl; [reflexivity | now rewrite IH]. Qed.

(** A path that ends with a name without separator has no trailing one. *)
Lemma no_trailing_separator (pre name : string) :
  name <> EmptyString -> hasChar "/" name = false ->
  match String.get (String.length (pre ++ name) - 1) (pre ++ name) with
  | Some c => Ascii.eqb c "/"
  | None => false
  end = false.
Proof.
  intros Hne Hfree. rewrite length_append.
  destruct name as [|c name]; [congruence|].
  replace (String.length pre + String.length (String c name) - 1)%nat
    with (String.length pre + String.length name)%nat by (simpl; lia).
  rewrite get_append_right.
  destruct (get_in_range (String c name) (String.length name)) as [x Hx];
    [simpl; lia|].
  rewrite Hx. eapply get_free; eauto.
Qed.

Lemma snoc_plain (segs : list string) (name : string) :
  Forall plain segs -> plain name -> Forall plain (segs ++ [name]).
Proof. intros Hs Hn. apply Forall_app. split; auto. Qed.

Lemma join_nonempty (l : list string) :
  Forall plain l -> l <> [] -> (JS.join "/" l =? "")%string = false.
Proof.
  intros Hp Hn. destruct l as [|x rest]; [congruence|].
  inversion Hp; subst.
  pose proof (truthy_join_plain x rest H1) as Ht.
  unfold truthy in Ht. now apply negb_true_iff in Ht.
Qed.

(** [path.join] of a canonical directory and a plain name is the
    canonical path one segment below. *)
Lemma join_canonical (segs : list string) (name : string) :
  Forall plain segs -> plain name ->
  Path.join ("/" ++ JS.join "/" segs) name
  = ("/" ++ JS.join "/" (segs ++ [name]))%string.
Proof.
  intros Hs Hn.
  pose proof Hn as (Hne & _ & _ & Hfree).
  unfold Path.join.
  change ("/" ++ JS.join "/" segs)%string with (String "/" (JS.join "/" segs)).
  cbn [String.eqb].
  destruct (String.eqb_spec name "") as [|_]; [congruence|].
  set (joined := (String "/" (JS.join "/" segs) ++ "/" ++ name)%string).
  assert (Ej : joined = String "/" (JS.join "/" segs ++ String "/" name))
    by reflexivity.
  assert (Enz : (joined =? "")%string = false) by (rewrite Ej; reflexivity).
  rewrite Enz. unfold Path.normalize. rewrite Enz.
  assert (Eabs : Path.isAbsolute joined = true)
    by (rewrite Ej; apply isAbsolute_cons).
  rewrite Eabs. cbn [negb].
  assert (Etr : match String.get (String.length joined - 1) joined with
                | Some c => Ascii.eqb c "/"
                | None => false
                end = false).
  { subst joined.
    change (String "/" (JS.join "/" segs) ++ "/" ++ name)%string
      with ((String "/" (JS.join "/" segs) ++ "/") ++ name)%string
      || rewrite <- append_assoc.
    apply no_trailing_separator; assumption. }
  rewrite Etr.
  assert (Enorm : Path.normalizeString joined false
                  = JS.join "/" (segs ++ [name])).
  { unfold Path.normalizeString, Path.normalizeSegments. rewrite Ej.
    cbn [split]. rewrite Ascii.eqb_refl.
    cbn [fold_left]. cbn [Path.normalizeStep String.eqb].
    f_equal.
    destruct segs as [|s segs'].
    - cbn [JS.join String.concat String.append split].
      rewrite Ascii.eqb_refl. rewrite (split_free "/") by assumption.
      cbn [fold_left]. cbn [Path.normalizeStep String.eqb].
      rewrite plain_step by assumption. reflexivity.
    - rewrite <- (join_snoc "/") by discriminate.
      rewrite (split_join "/").
      + rewrite fold_plain by (apply snoc_plain; assumption).
        rewrite app_nil_r. apply rev_involutive.
      + destruct ((s :: segs') ++ [name])%list eqn:E; [|discriminate].
        apply app_eq_nil in E. destruct E; discriminate.
      + apply plain_noSlash. apply snoc_plain; assumption. }
  rewrite Enorm.
  rewrite join_nonempty; [reflexivity | now apply snoc_plain |].
  destruct segs; discriminate.
Qed.

Lemma join_below (dir name : string) :
  canonical dir -> plain name ->
  canonical (Path.join dir name)
  /\ Path.segments (Path.join dir name) = (Path.segments dir ++ [name])%list.
Proof.
  intros (segs & Hs & ->) Hn. rewrite join_canonical by assumption.
  rewrite !segments_canonical; auto using snoc_plain.
  split; [|reflexivity].
  exists (segs ++ [name])%list. split; [now apply snoc_plain | reflexivity].
Qed.
End JoinFacts.

Module FrameTheorems.
Import JS Bridge ScanDefs AuthDefs FrameDefs FrameFacts JoinFacts.

Lemma entered_nonneg (fs : FileSystem) (ignored : list string)
  (rootDir : string) (depth : Z) (dir : string) :
  entered fs ignored rootDir depth dir -> 0 <= depth.
Proof. induction 1; lia. Qed.

(** With plain names from [readdir] and a canonical start, a directory
    the scan can enter is a canonical path, and no segment of it below
    the start is an ignored name. *)
Lemma entered_clear (fs : FileSystem) (ignored : list string)
  (rootDir : string) (depth : Z) (dir : string) :
  plainNames fs -> canonical rootDir ->
  entered fs ignored rootDir depth dir ->
  canonical dir /\ clearOfIgnored ignored rootDir (depth, dir).
Proof.
  intros Hnames Hroot Hent.
  induction Hent as [|depth dir dirents name stats _ IH Hdir Hin Hign _ _].
  - split; [exact Hroot|]. exists []. cbn [fst snd].
    split; [now rewrite app_nil_r|]. split; [reflexivity | constructor].
  - destruct IH as (Hcan & below & Hseg & Hlen & Hclear). cbn [fst snd] in *.
    assert (Hplain : plain name).
    { pose proof (Hnames dir dirents Hdir) as Hall.
      rewrite Forall_forall in Hall. now apply Hall. }
    destruct (join_below dir name Hcan Hplain) as [Hcan' Hseg'].
    split; [exact Hcan'|]. exists (below ++ [name])%list. cbn [fst snd].
    split; [now rewrite Hseg', Hseg, <- app_assoc|]. split.
    + rewrite length_app. simpl. lia.
    + apply Forall_app. split; [exact Hclear|]. now constructor.
Qed.

(** X4.  Ignored names never show and are never entered.  Whatever the
    limits, every line [scanDirTree] returns before the truncation line
    is the line of an entry that [readdir] gave for a directory the scan
    entered and whose name is not in the ignored list, and every
    directory it asked [readdir] for is the starting directory, at depth
    0, or [path.join(dir, name)] one level below a directory [dir] the
    scan entered, for a name that [readdir] gave for [dir], that is not
    in the ignored list and that [stat] reports as a directory.  So with
    plain names from [readdir] and a canonical start, no segment below
    the start of a directory it asked [readdir] for is an ignored
    name. *)
Theorem scanDirTree_skips_ignored :
  forall (localeCompare : string -> string -> Z) (fs : FileSystem)
         (opts : ScanOpts) (fuel : nat) (rootDir : string) (r : ScanState),
    scanDirTree localeCompare fs opts fuel rootDir = Some r ->
    exists entries marker : list string,
      lines r = (entries ++ marker)%list
      /\ (marker = [] \/ marker = [truncatedLine])
      /\ Forall (listsUnignored fs (optIgnoredDirs opts) rootDir) entries
      /\ Forall (enteredUnignored fs (optIgnoredDirs opts) rootDir) (listed r)
      /\ (plainNames fs -> canonical rootDir ->
          Forall (clearOfIgnored (optIgnoredDirs opts) rootDir) (listed r)).
Proof.
  intros lc fs opts fuel rootDir r H.
  destruct (scanDirTree_framed lc fs opts
              (fun dir depth prefix =>
                 entered fs (optIgnoredDirs opts) rootDir depth dir
                 /\ prefix = indent (Z.to_nat depth))
              (listsUnignored fs (optIgnoredDirs opts) rootDir)
              (enteredUnignored fs (optIgnoredDirs opts) rootDir))
    with (fuel := fuel) (rootDir := rootDir) (r := r)
    as (entries & marker & Hlines & Hmarker & Hentries & Hlisted).
  - intros dir depth prefix dirents name s (Hent & ->) Hdir Hin Hign Hstat.
    split.
    + exists depth, dir, dirents, name, s. auto 10.
    + intros Hd. split.
      * now apply (entered_child _ _ _ depth dir dirents name s).
      * pose proof (entered_nonneg _ _ _ _ _ Hent) as Hpos.
        rewrite Z2Nat.inj_add by lia. rewrite Nat.add_comm. reflexivity.
  - intros dir depth prefix [Hent _]. exact Hent.
  - split; [constructor | reflexivity].
  - exact H.
  - exists entries, marker. repeat apply conj; auto.
    intros Hnames Hroot. rewrite Forall_forall in *. intros [depth dir] Hin.
    apply (entered_clear fs _ rootDir depth dir Hnames Hroot).
    exact (Hlisted (depth, dir) Hin).
Qed.

(** X5.  The scan stays below the directory it starts from.  When
    [readdir] gives plain names and the starting directory is a
    canonical path, every directory [scanDirTree] asks [readdir] for is
    a canonical path whose segments are those of the starting directory
    followed by as many names as the depth of the call. *)
Theorem scanDirTree_stays_below_root :
  forall (localeCompare : string -> string -> Z) (fs : FileSystem)
         (opts : ScanOpts) (fuel : nat) (rootDir : string) (r : ScanState),
    plainNames fs -> canonical rootDir ->
    scanDirTree localeCompare fs opts fuel rootDir = Some r ->
    Forall (belowRoot rootDir) (listed r).
Proof.
  intros lc fs opts fuel rootDir r Hnames Hroot H.
  destruct (scanDirTree_framed lc fs opts
              (fun dir depth _ => belowRoot rootDir (depth, dir))
              (fun _ => True) (belowRoot rootDir))
    with (fuel := fuel) (rootDir := rootDir) (r := r)
    as (entries & marker & _ & _ & _ & Hlisted); auto.
  - intros dir depth prefix dirents name s (Hcan & below & Hseg & Hlen)
           Hdir Hin _ _.
    split; [exact I|]. intros _.
    assert (Hplain : plain name).
    { pose proof (Hnames dir dirents Hdir) as Hall.
      rewrite Forall_forall in Hall. now apply Hall. }
    destruct (join_below dir name Hcan Hplain) as [Hcan' Hseg'].
    split; [exact Hcan'|]. cbn [fst snd] in *.
    exists (below ++ [name])%list. split.
    + now rewrite Hseg', Hseg, <- app_assoc.
    + rewrite length_app. simpl. lia.
  - split; [exact Hroot|]. exists []. cbn [fst snd].
    split; [now rewrite app_nil_r | reflexivity].
Qed.
End FrameTheorems.

Module FrameWitnesses.
Import JS Bridge ScanDefs AuthDefs FrameDefs Demo FrameDemo FrameTheorems.

Lemma vendorFs_plainNames : plainNames vendorFs.
Proof.
  intros p names H. unfold vendorFs in H. cbn [readdir] in H.
  unfold vendorTree in H. cbn [lookup] in H.
  repeat match type of H with
         | context [(p =? ?q)%string] => destruct (p =? q)%string
         end;
    inversion H; subst; repeat constructor; try discriminate; reflexivity.
Defined.

Lemma root_canonical : canonical "/r".
Proof.
  exists ["r"%string]. split; [|reflexivity].
  repeat constructor; try discriminate; reflexivity.
Defined.

(** The ignored directory of the example holds a file, and is not among
    the directories the scan can enter. *)
Lemma vendor_node_modules_not_entered :
  readdir vendorFs "/r/node_modules" = Some ["pkg.js"%string]
  /\ ~ enteredUnignored vendorFs ["node_modules"%string] "/r"
                        (1, "/r/node_modules"%string).
Proof.
  split; [reflexivity|]. intros Hent.
  destruct (entered_clear _ _ _ _ _ vendorFs_plainNames root_canonical Hent)
    as (_ & below & Hseg & _ & Hclear).
  vm_compute in Hseg. destruct below as [|x below]; [discriminate|].
  inversion Hseg; subst. inversion Hclear; subst. discriminate.
Qed.

Lemma scanDirTree_skips_ignored_witness :
  exists entries marker : list string,
    ["📁 src"; "  📄 a.js"]%string = (entries ++ marker)%list
    /\ (marker = [] \/ marker = [truncatedLine])
    /\ Forall (listsUnignored vendorFs ["node_modules"%string] "/r") entries
    /\ Forall (enteredUnignored vendorFs ["node_modules"%string] "/r")
              [(0, "/r"); (1, "/r/src")]%string
    /\ Forall (clearOfIgnored ["node_modules"%string] "/r")
              [(0, "/r"); (1, "/r/src")]%string.
Proof.
  destruct (scanDirTree_skips_ignored byteOrder vendorFs
              (mkOpts (ofZ 4) (ofZ 10) ["node_modules"%string]) 10 "/r"
              (mkScan ["📁 src"; "  📄 a.js"]%string 2
                      [(0, "/r"); (1, "/r/src")]%string))
    as (entries & marker & Hlines & Hmarker & Hentries & Hlisted & Hclear).
  - vm_compute. reflexivity.
  - exists entries, marker. repeat apply conj; auto.
    exact (Hclear vendorFs_plainNames root_canonical).
Defined.

Lemma deepFs_plainNames : plainNames deepFs.
Proof.
  intros p names H. unfold deepFs in H. cbn [readdir] in H.
  destruct (_ <=? 20); inversion H; subst; repeat constructor;
    try discriminate; reflexivity.
Defined.

Lemma scanDirTree_stays_below_root_witness :
  Forall (belowRoot "/r") [(0, "/r"); (1, "/r/d")]%string.
Proof.
  refine (scanDirTree_stays_below_root byteOrder deepFs
            (mkOpts (ofZ 4) (ofZ 2) ["node_modules"%string]) 10 "/r"
            (mkScan ["📁 d"; "  📁 d"; "…(truncated)"]%string 2
                    [(0, "/r"); (1, "/r/d")]%string)
            deepFs_plainNames _ _).
  - exists ["r"%string]. split; [|reflexivity].
    repeat constructor; try discriminate; reflexivity.
  - vm_compute. reflexivity.
Defined.
End FrameWitnesses.

Module ReadMoreFacts.
Import JS Bridge StringDefs StringFacts NumberFacts ReadDefs ReadFacts.

Lemma length_split (sep : ascii) (s : string) :
  List.length (split sep s) = S (countChar sep s).
Proof.
  induction s as [|c r IH]; [reflexivity|].
  cbn [split countChar]. destruct (Ascii.eqb c sep).
  - simpl. now rewrite IH.
  - pose proof (split_not_nil sep r) as Hnn.
    destruct (split sep r) as [|h t]; [congruence|]. simpl in *. exact IH.
Qed.

(** With no positive line bound the content is left as it is. *)
Lemma boundLines_off (m : number) (content : string) :
  truthyNum m && gt m (ofZ 0) = false -> boundLines m content = content.
Proof. intros H. unfold boundLines. now rewrite H. Qed.

Lemma boundLines_lines (m : Z) (content : string) :
  0 < m ->
  Z.of_nat (List.length (split LF (boundLines (ofZ m) content))) <= m + 1.
Proof.
  intros Hm.
  destruct (Z.le_gt_cases (Z.of_nat (List.length (split LF content))) m)
    as [Hle|Hgt].
  - rewrite boundLines_within by assumption. lia.
  - rewrite split_boundLines_over by lia.
    rewrite length_app, length_firstn. simpl. lia.
Qed.
End ReadMoreFacts.

Module ReadMoreTheorems.
Import JS Bridge StringDefs NumberFacts ReadDefs ReadFacts ReadMoreFacts.

(** X6.  The read handler touches the file system only for a path that
    passed both checks: every call it makes ([existsSync], [stat],
    [readFile]) is on the resolved path of the request, which
    [isWithinAllowed] accepted and whose extension is not forbidden, and
    it reads nothing of a file that [stat] reports larger than the
    limit. *)
Theorem fsRead_calls_only_after_checks :
  forall (cwd : string) (fs : FileSystem) (config : Config)
         (bPath bEncoding : option string) (bMaxLines : option number)
         (call : fsCall),
    In call (snd (fsRead cwd fs config bPath bEncoding bMaxLines)) ->
    exists filePath : string,
      bPath = Some filePath
      /\ callPath call = normalizePath cwd filePath
      /\ isWithinAllowed cwd (normalizePath cwd filePath) (allowedPaths config)
         = true
      /\ isForbiddenExtension (normalizePath cwd filePath)
                              (forbiddenExtensions config) = false
      /\ (forall p e, call = CallReadFile p e ->
          exists stats, stat fs p = Some stats
                        /\ gt (ofZ (size stats)) (maxFileSize config) = false).
Proof.
  intros cwd fs config bPath bEncoding bMaxLines call. unfold fsRead.
  destruct bPath as [filePath|]; [|intros []].
  destruct (negb (truthy filePath)); [intros []|].
  destruct (isWithinAllowed _ _ _) eqn:Eauth; cbn [negb]; [|intros []].
  destruct (isForbiddenExtension _ _) eqn:Eext; [intros []|].
  intros Hin. exists filePath. split; [reflexivity|].
  assert (Hgoal : callPath call = normalizePath cwd filePath
           /\ (forall p e, call = CallReadFile p e ->
               exists stats, stat fs p = Some stats
                 /\ gt (ofZ (size stats)) (maxFileSize config) = false));
    [|destruct Hgoal; auto].
  unfold existsSync in Hin.
  destruct (stat fs (normalizePath cwd filePath)) as [stats|] eqn:Est;
    cbn [negb] in Hin.
  - destruct (gt (ofZ (size stats)) (maxFileSize config)) eqn:Egt.
    + cbn [snd] in Hin. destruct Hin as [<-|[<-|[]]];
        (split; [reflexivity | intros; discriminate]).
    + assert (Hcalls : In call [CallExists (normalizePath cwd filePath);
                                CallStat (normalizePath cwd filePath);
                                CallReadFile (normalizePath cwd filePath)
                                  match bEncoding with
                                  | Some e => e
                                  | None => "utf8"%string
                                  end]).
      { destruct (readFile fs _ _); exact Hin. }
      destruct Hcalls as [<-|[<-|[<-|[]]]];
        (split; [reflexivity|]); try (intros; discriminate).
      intros p e E. inversion E; subst. eauto.
  - cbn [snd] in Hin. destruct Hin as [<-|[]].
    split; [reflexivity | intros; discriminate].
Qed.

(** X7.  The line count of a read answer is one more than the number of
    line feeds in the returned content, so at least 1 even for an empty
    file; and under a positive integer line bound [m], whether it comes
    from the request or from the configuration, it is at most [m + 1]. *)
Theorem fsRead_lineCount :
  forall (cwd : string) (fs : FileSystem) (config : Config)
         (bPath bEncoding : option string) (bMaxLines : option number)
         (p c : string) (sz : Z) (lm : string) (n : Z) (t : bool)
         (calls : list fsCall),
    fsRead cwd fs config bPath bEncoding bMaxLines
    = (ReadResult p c sz lm n t, calls) ->
    n = 1 + Z.of_nat (countChar LF c)
    /\ (forall m : Z,
          match bMaxLines with Some x => x | None => maxReadLines config end
          = ofZ m ->
          0 < m -> n <= m + 1).
Proof.
  intros cwd fs config bPath bEncoding bMaxLines p c sz lm n t calls H.
  apply fsRead_ReadResult_inv in H.
  destruct H as (stats & content & _ & _ & _ & _ & Hc & _ & _ & Hn & _).
  split.
  - rewrite Hn, length_split. lia.
  - intros m Hm Hpos. rewrite Hn, Hc, Hm. now apply boundLines_lines.
Qed.

(** X8.  The line bound of a request replaces the configured one and is
    not clamped by it: when the request gives [maxLines] as zero, a
    negative number or NaN, the whole content is returned with
    [truncated] false, whatever [maxReadLines] is configured. *)
Theorem fsRead_request_disables_line_bound :
  forall (cwd : string) (fs : FileSystem) (config : Config)
         (bPath bEncoding : option string) (m : number)
         (p c : string) (sz : Z) (lm : string) (n : Z) (t : bool)
         (calls : list fsCall),
    truthyNum m && gt m (ofZ 0) = false ->
    fsRead cwd fs config bPath bEncoding (Some m)
    = (ReadResult p c sz lm n t, calls) ->
    readFile fs (normalizePath cwd p)
      match bEncoding with Some e => e | None => "utf8"%string end = Some c
    /\ t = false.
Proof.
  intros cwd fs config bPath bEncoding m p c sz lm n t calls Hoff H.
  apply fsRead_ReadResult_inv in H.
  destruct H as (stats & content & _ & _ & _ & Hrd & Hc & _ & _ & _ & Ht).
  rewrite boundLines_off in Hc by assumption. subst c.
  split; [exact Hrd|]. now rewrite Ht, String.eqb_refl.
Qed.
End ReadMoreTheorems.

Module ReadMoreWitnesses.
Import JS Bridge Demo ReadDefs ReadMoreTheorems.

Lemma fsRead_calls_only_after_checks_witness :
  exists filePath : string,
    Some "/home/u/proj/README.md"%string = Some filePath
    /\ callPath (CallReadFile "/home/u/proj/README.md" "utf8")
       = normalizePath "/srv/bridge" filePath
    /\ isWithinAllowed "/srv/bridge" (normalizePath "/srv/bridge" filePath)
                       (allowedPaths config) = true
    /\ isForbiddenExtension (normalizePath "/srv/bridge" filePath)
                            (forbiddenExtensions config) = false
    /\ (forall p e, CallReadFile "/home/u/proj/README.md" "utf8"
                    = CallReadFile p e ->
        exists stats, stat fs p = Some stats
                      /\ gt (ofZ (size stats)) (maxFileSize config) = false).
Proof.
  refine (fsRead_calls_only_after_checks "/srv/bridge" fs config
            (Some "/home/u/proj/README.md"%string) None None
            (CallReadFile "/home/u/proj/README.md" "utf8") _).
  vm_compute. auto.
Defined.

Lemma fsRead_lineCount_witness :
  3 = 1 + Z.of_nat (countChar LF ("one" ++ LFs ++ "two" ++ LFs ++ "... (truncated)"))
  /\ (forall m : Z, ofZ 2 = ofZ m -> 0 < m -> 3 <= m + 1).
Proof.
  refine (fsRead_lineCount "/srv/bridge" fs config
            (Some "/home/u/proj/README.md"%string) None (Some (ofZ 2))
            "/home/u/proj/README.md"
            ("one" ++ LFs ++ "two" ++ LFs ++ "... (truncated)")
            11 stamp 3 true
            [CallExists "/home/u/proj/README.md";
             CallStat "/home/u/proj/README.md";
             CallReadFile "/home/u/proj/README.md" "utf8"] _).
  vm_compute. reflexivity.
Defined.

Lemma fsRead_request_disables_line_bound_witness :
  readFile fs (normalizePath "/srv/bridge" "/home/u/proj/README.md") "utf8"
  = Some ("one" ++ LFs ++ "two" ++ LFs ++ "six")%string
  /\ false = false.
Proof.
  refine (fsRead_request_disables_line_bound "/srv/bridge" fs config
            (Some "/home/u/proj/README.md"%string) None (ofZ 0)
            "/home/u/proj/README.md"
            ("one" ++ LFs ++ "two" ++ LFs ++ "six")
            11 stamp 3 false
            [CallExists "/home/u/proj/README.md";
             CallStat "/home/u/proj/README.md";
             CallReadFile "/home/u/proj/README.md" "utf8"] _ _);
    vm_compute; reflexivity.
Defined.
End ReadMoreWitnesses.

Module ExtensionShapeFacts.
Import JS Bridge StringDefs StringFacts ExtensionDefs.

Lemma extInv_done (path : string) (n : nat) (st : Path.extState) :
  extInv path n st -> extDone path st.
Proof.
  intros [(_ & H & _) | [(e & _ & H & _) | (e & sd & He & Hsd & _ & Hr & Hg & Hc)]].
  - now left.
  - now left.
  - right. exists e, sd. repeat split; auto; lia.
Qed.

Lemma clean_extend (path : string) (i e : nat) (x : ascii) :
  String.get i path = Some x ->
  Ascii.eqb x "." = false -> Ascii.eqb x "/" = false ->
  clean path (S i) e -> clean path i e.
Proof.
  intros Hg Hd Hs Hc j Hj.
  destruct (Nat.eq_dec j i) as [->|Hne]; [eauto|]. apply Hc. lia.
Qed.

Lemma extnameLoop_done (path : string) (n : nat) :
  forall st, extInv path n st -> extDone path (Path.extnameLoop path n st).
Proof.
  induction n as [|i IH]; intros st Hinv.
  - simpl. eapply extInv_done; eauto.
  - cbn [Path.extnameLoop].
    destruct (String.get i path) as [code|] eqn:Hget;
      [|eapply extInv_done; eauto].
    destruct st as [sd sp e ms pd].
    cbn [Path.startDot Path.startPart Path.endPos Path.matchedSlash
         Path.preDotState] in *.
    destruct (Ascii.eqb code "/") eqn:Eslash.
    + destruct ms; cbn [negb].
      * apply IH.
        destruct Hinv as [(He & Hs & Hm) | [(e' & _ & _ & Hm & _)
                                           | (e' & s' & _ & _ & Hm & _)]];
          cbn [Path.matchedSlash] in Hm; try discriminate.
        left. cbn. auto.
      * destruct Hinv as [(He & Hs & Hm) | [(e' & He & Hs & _)
                                           | (e' & s' & He & Hs & _ & Hr & Hg & Hc)]];
          cbn [Path.startDot Path.endPos Path.matchedSlash] in *.
        -- discriminate.
        -- left. exact Hs.
        -- right. exists e', s'. cbn. repeat split; auto; lia.
    + apply IH.
      destruct Hinv as [(He & Hs & Hm) | [(e' & He & Hs & Hm & Hr & Hc)
                                         | (e' & s' & He & Hs & Hm & Hr & Hg & Hc)]];
        cbn [Path.startDot Path.endPos Path.matchedSlash] in *; subst.
      * (* the end of the name is found here *)
        cbn [Z.eqb Pos.eqb].
        cbn [Path.startDot Path.startPart Path.endPos Path.matchedSlash
             Path.preDotState Z.eqb Pos.eqb negb].
        destruct (Ascii.eqb code ".") eqn:Edot.
        -- right; right. exists (S i), i.
           cbn [Path.startDot Path.endPos Path.matchedSlash].
           apply Ascii.eqb_eq in Edot. subst code.
           repeat split; auto; try lia. intros j Hj. lia.
        -- right; left. exists (S i).
           cbn [Path.startDot Path.endPos Path.matchedSlash].
           repeat split; auto; try lia.
           eapply clean_extend; eauto. intros j Hj. lia.
      * destruct (Z.eqb_spec (Z.of_nat e') (-1)) as [Hbad|_]; [lia|].
        cbn [Path.startDot Path.startPart Path.endPos Path.matchedSlash
             Path.preDotState Z.eqb Pos.eqb negb].
        destruct (Ascii.eqb code ".") eqn:Edot.
        -- right; right. exists e', i.
           cbn [Path.startDot Path.endPos Path.matchedSlash].
           apply Ascii.eqb_eq in Edot. subst code.
           repeat split; auto; lia.
        -- right; left. exists e'.
           cbn [Path.startDot Path.endPos Path.matchedSlash].
           repeat split; auto; try lia.
           eapply clean_extend; eauto.
      * destruct (Z.eqb_spec (Z.of_nat e') (-1)) as [Hbad|_]; [lia|].
        cbn [Path.startDot Path.startPart Path.endPos Path.matchedSlash
             Path.preDotState negb].
        destruct (Z.eqb_spec (Z.of_nat s') (-1)) as [Hbad|_]; [lia|].
        cbn [negb].
        assert (Hkeep : forall pd', extInv path i (Path.mkExt (Z.of_nat s') sp
                                                   (Z.of_nat e') false pd')).
        { intros pd'. right; right. exists e', s'.
          cbn [Path.startDot Path.endPos Path.matchedSlash].
          repeat split; auto; lia. }
        destruct (Ascii.eqb code "."); [destruct (negb (pd =? 1))|]; apply Hkeep.
Qed.

Lemma hasChar_by_get (c : ascii) (s : string) :
  (forall p x, String.get p s = Some x -> Ascii.eqb x c = false) ->
  hasChar c s = false.
Proof.
  induction s as [|y s IH]; intros H; [reflexivity|].
  cbn [hasChar]. rewrite (H 0%nat y eq_refl). cbn [orb].
  apply IH. intros p x Hp. exact (H (S p) x Hp).
Qed.

(** The extension is empty or a dot followed by characters that are
    neither dots nor separators. *)
Lemma extname_shape (path : string) :
  Path.extname path = EmptyString
  \/ exists rest : string,
       Path.extname path = String "." rest
       /\ hasChar "." rest = false /\ hasChar "/" rest = false.
Proof.
  unfold Path.extname.
  set (st := Path.extnameLoop path (String.length path) _).
  assert (Hdone : extDone path st).
  { apply extnameLoop_done. left. cbn. auto. }
  destruct ((Path.startDot st =? -1) || _ || _ || _) eqn:Etest; [now left|].
  right.
  destruct Hdone as [Hs | (e & sd & He & Hs & Hr & Hg & Hc)].
  { rewrite Hs in Etest. discriminate. }
  rewrite Hs, He.
  replace (Z.to_nat (Z.of_nat sd)) with sd by lia.
  replace (Z.to_nat (Z.of_nat e - Z.of_nat sd)) with (S (e - S sd)) by lia.
  set (ext := substring sd (S (e - S sd)) path).
  assert (G : forall p, (p < S (e - S sd))%nat ->
                        String.get p ext = String.get (p + sd) path).
  { intros p Hp. apply substring_correct1. exact Hp. }
  assert (G2 : forall p, (S (e - S sd) <= p)%nat -> String.get p ext = None).
  { intros p Hp. apply substring_correct2. exact Hp. }
  destruct ext as [|c rest] eqn:Eext.
  { specialize (G 0%nat ltac:(lia)). simpl in G. congruence. }
  assert (Ec : c = "."%char).
  { specialize (G 0%nat ltac:(lia)). simpl in G. congruence. }
  subst c. exists rest. split; [reflexivity|].
  assert (Hrest : forall p x, String.get p rest = Some x ->
                    Ascii.eqb x "." = false /\ Ascii.eqb x "/" = false).
  { intros p x Hp.
    destruct (Nat.lt_ge_cases (S p) (S (e - S sd))) as [Hlt|Hge].
    - specialize (G (S p) Hlt). cbn [String.get] in G. rewrite Hp in G.
      destruct (Hc (S p + sd)%nat ltac:(lia)) as (y & Hy & Hd & Hsl).
      rewrite Hy in G. inversion G; subst. auto.
    - specialize (G2 (S p) Hge). cbn [String.get] in G2. congruence. }
  split; apply hasChar_by_get; intros p x Hp; now apply Hrest in Hp.
Qed.

Lemma lowerChar_idempotent (c : ascii) : lowerChar (lowerChar c) = lowerChar c.
Proof.
  destruct c as [[] [] [] [] [] [] [] []]; reflexivity.
Qed.

Lemma lowerChar_keeps (c x : ascii) :
  x = "."%char \/ x = "/"%char ->
  Ascii.eqb (lowerChar c) x = Ascii.eqb c x.
Proof.
  intros [->| ->]; destruct c as [[] [] [] [] [] [] [] []]; reflexivity.
Qed.

Lemma toLowerCase_idempotent (s : string) :
  toLowerCase (toLowerCase s) = toLowerCase s.
Proof.
  induction s as [|c s IH]; simpl; [reflexivity|].
  now rewrite lowerChar_idempotent, IH.
Qed.

Lemma hasChar_toLowerCase (x : ascii) (s : string) :
  x = "."%char \/ x = "/"%char ->
  hasChar x (toLowerCase s) = hasChar x s.
Proof.
  intros Hx. induction s as [|c s IH]; simpl; [reflexivity|].
  now rewrite lowerChar_keeps, IH.
Qed.

(** What [isForbiddenExtension] looks up is a suffix entry. *)
Lemma lookup_isSuffixEntry (path : string) :
  isSuffixEntry (toLowerCase (Path.extname path)) = true.
Proof.
  destruct (extname_shape path) as [->|(rest & -> & Hd & Hs)]; [reflexivity|].
  cbn [toLowerCase]. unfold isSuffixEntry.
  change (lowerChar ".") with "."%char.
  rewrite !hasChar_toLowerCase by auto. rewrite Hd, Hs.
  change (String "." (toLowerCase rest)) with (toLowerCase (String "." rest)).
  rewrite toLowerCase_idempotent, String.eqb_refl. reflexivity.
Qed.
End ExtensionShapeFacts.

Module ExtensionShapeTheorems.
Import JS Bridge StringDefs ExtensionDefs ExtensionShapeFacts.

(** X9.  Only lower-case one-dot suffixes in the forbidden list have any
    effect.  The extension that is looked up is empty or a dot followed
    by characters other than dots and separators, lower-cased, while the
    list is used as it is: removing every entry of another shape (with
    an upper-case letter, without the leading dot, or with a second dot,
    as [.env.local] and [.env.production] of the default list) never
    changes the answer of [isForbiddenExtension]. *)
Theorem isForbiddenExtension_suffix_entries_only :
  forall (filePath : string) (forbidden : list string),
    isForbiddenExtension filePath forbidden
    = isForbiddenExtension filePath (filter isSuffixEntry forbidden).
Proof.
  intros filePath forbidden. unfold isForbiddenExtension, includes.
  pose proof (lookup_isSuffixEntry filePath) as Hshape.
  set (ext := toLowerCase (Path.extname filePath)) in *.
  induction forbidden as [|e l IH]; [reflexivity|].
  cbn [existsb filter].
  destruct (String.eqb_spec ext e) as [<-|Hne].
  - rewrite Hshape. cbn [existsb]. now rewrite String.eqb_refl.
  - cbn [orb]. destruct (isSuffixEntry e); [|exact IH].
    cbn [existsb]. apply String.eqb_neq in Hne. rewrite Hne. exact IH.
Qed.
End ExtensionShapeTheorems.

Module ContainFacts.
Import JS Bridge AuthDefs ContainDefs PathFacts AuthFacts.







Section Contain.
Variable cwd : string.
Hypothesis cwd_absolute : Path.isAbsolute cwd = true.

End Contain.

End ContainFacts.

Module ContainTheorems.
Import JS Bridge AuthDefs ContainDefs ReadDefs PathFacts AuthFacts ContainFacts.


(** X11.  With an absolute working directory [normalizePath] always
    gives a canonical path: ['/'] followed by names joined by ['/'],
    none of them empty, ["."] or [".."].  Applying it to its own result
    changes nothing when that result does not lose anything to [trim];
    [path.resolve] alone is idempotent. *)
Theorem normalizePath_canonical_idempotent :
  forall (cwd inputPath : string),
    Path.isAbsolute cwd = true ->
    canonical (normalizePath cwd inputPath)
    /\ Path.resolve cwd (normalizePath cwd inputPath) = normalizePath cwd inputPath
    /\ (trim (normalizePath cwd inputPath) = normalizePath cwd inputPath ->
        normalizePath cwd (normalizePath cwd inputPath)
        = normalizePath cwd inputPath).
Proof.
  intros cwd inputPath Hcwd.
  pose proof (normalizePath_canonical cwd Hcwd inputPath) as Hcan.
  split; [exact Hcan|]. split.
  - now apply resolve_of_canonical.
  - intros Htrim. unfold normalizePath at 1. rewrite Htrim.
    now apply resolve_of_canonical.
Qed.

End ContainTheorems.

Module ContainWitnesses.
Import JS Bridge AuthDefs ContainDefs ReadDefs Demo ContainTheorems.

(** A sibling directory whose name is that of a root followed by a
    space is accepted, on behalf of the root it is trimmed to, and does
    not lie on or below the root. *)
Lemma isWithinAllowed_trailing_space :
  isWithinAllowed "/srv/bridge" "/home/u/proj " ["/home/u/proj"%string] = true
  /\ ~ onOrBelow "/srv/bridge" ["/home/u/proj"%string] "/home/u/proj ".
Proof.
  split; [vm_compute; reflexivity|].
  intros (r & below & [<-|[]] & Hseg). vm_compute in Hseg. inversion Hseg.
Qed.


Lemma normalizePath_canonical_idempotent_witness :
  canonical (normalizePath "/srv/bridge" "  ../app/./x//y/..  ")
  /\ Path.resolve "/srv/bridge" (normalizePath "/srv/bridge" "  ../app/./x//y/..  ")
     = normalizePath "/srv/bridge" "  ../app/./x//y/..  "
  /\ (trim (normalizePath "/srv/bridge" "  ../app/./x//y/..  ")
      = normalizePath "/srv/bridge" "  ../app/./x//y/..  " ->
      normalizePath "/srv/bridge" (normalizePath "/srv/bridge" "  ../app/./x//y/..  ")
      = normalizePath "/srv/bridge" "  ../app/./x//y/..  ").
Proof.
  exact (normalizePath_canonical_idempotent "/srv/bridge"
           "  ../app/./x//y/..  " eq_refl).
Defined.

End ContainWitnesses.

Module RootsFacts.
Import JS Bridge AuthDefs ConfigDefs RootsDefs PathFacts AuthFacts ConfigFacts
       ConfigTheorems.

Lemma canonical_truthy (p : string) : canonical p -> truthy p = true.
Proof. intros (segs & _ & ->). reflexivity. Qed.

Lemma canonical_nonempty (p : string) : canonical p -> p <> EmptyString.
Proof. intros (segs & _ & ->). discriminate. Qed.

Lemma withRoots_same (config : Config) :
  withRoots config (allowedPaths config) (activeProjectRoot config) = config.
Proof. now destruct config. Qed.

Lemma filter_out_absent (r : string) (l : list string) :
  ~ In r l -> filter (fun p => negb (p =? r)%string) l = l.
Proof.
  induction l as [|x l IH]; intros Hni; [reflexivity|].
  simpl. destruct (String.eqb_spec x r) as [->|Hne].
  - exfalso. apply Hni. now left.
  - simpl. rewrite IH; [reflexivity|]. intros H. apply Hni. now right.
Qed.

Lemma filter_out_snoc (r : string) (l : list string) :
  ~ In r l -> filter (fun p => negb (p =? r)%string) (l ++ [r]) = l.
Proof.
  intros Hni. rewrite filter_app, filter_out_absent by assumption.
  simpl. rewrite String.eqb_refl. simpl. apply app_nil_r.
Qed.

Lemma NoDup_snoc (r : string) (l : list string) :
  NoDup l -> ~ In r l -> NoDup (l ++ [r]).
Proof.
  intros Hnd Hni. apply NoDup_app; auto.
  - repeat constructor. intros [].
  - intros x Hx [<-|[]]. contradiction.
Qed.

Section Requests.
Variable cwd : string.
Variable fs : FileSystem.
Variable config : Config.

(** The three successful requests, for a path that names a directory. *)
Lemma post_add (target : string) :
  namesDirectory cwd fs target ->
  postAllowedPaths cwd fs config (Some "add"%string) (Some target)
  = (let c := withRoots config
                (if includes (normalizePath cwd target) (allowedPaths config)
                 then allowedPaths config
                 else (allowedPaths config ++ [normalizePath cwd target])%list)
                (if truthy (activeProjectRoot config)
                 then activeProjectRoot config
                 else normalizePath cwd target) in
     (AllowedPathsResult (allowedPaths c) (activeProjectRoot c), c)).
Proof.
  intros (Ht & stats & Hs & Hd). unfold postAllowedPaths.
  rewrite Ht, Hs, Hd. cbn [negb actionIs String.eqb Ascii.eqb Bool.eqb andb].
  cbv zeta. destruct (includes _ _), (truthy (activeProjectRoot config));
    reflexivity.
Qed.

Lemma post_remove (target : string) :
  namesDirectory cwd fs target ->
  postAllowedPaths cwd fs config (Some "remove"%string) (Some target)
  = (let paths := filter (fun p => negb (p =? normalizePath cwd target)%string)
                         (allowedPaths config) in
     let c := withRoots config paths
                (if (activeProjectRoot config =? normalizePath cwd target)%string
                 then hd EmptyString paths
                 else activeProjectRoot config) in
     (AllowedPathsResult (allowedPaths c) (activeProjectRoot c), c)).
Proof.
  intros (Ht & stats & Hs & Hd). unfold postAllowedPaths.
  rewrite Ht, Hs, Hd. cbn [negb actionIs String.eqb Ascii.eqb Bool.eqb andb].
  cbv zeta. now rewrite first_or_empty.
Qed.
End Requests.

Section Preserved.
Variable cwd : string.
Hypothesis cwd_absolute : Path.isAbsolute cwd = true.

Lemma postAllowedPaths_wellFormed (fs : FileSystem) (config : Config)
  (action targetPath : option string) :
  wellFormed config ->
  wellFormed (snd (postAllowedPaths cwd fs config action targetPath)).
Proof.
  intros Hwf.
  pose proof (postAllowedPaths_valid cwd fs config action targetPath
                (proj1 (proj2 (proj2 Hwf)))) as Hvalid.
  destruct Hwf as (Hnd & Hcan & _ & Hiff).
  destruct (postAllowedPaths_answers cwd fs config action targetPath)
    as [(status & code & msg & E) | (c' & E)]; rewrite E in *; cbn [snd] in *.
  { repeat split; auto; apply Hiff. }
  apply postAllowedPaths_success_inv in E.
  destruct E as (target & -> & _ & _ & Hcases). cbv zeta in Hcases.
  pose proof (normalizePath_canonical cwd cwd_absolute target) as Hres.
  set (resolved := normalizePath cwd target) in *.
  destruct Hcases as [(Ha & Hp & Hact)
                     | [(Ha & Hr & Hp & Hact)
                       | (Ha & Hr & Hs & Hin & Hp & Hact)]].
  - assert (Hin : In resolved (allowedPaths c')).
    { rewrite Hp. destruct (includes _ _) eqn:Ei.
      - now apply includes_In.
      - apply in_or_app. right. now left. }
    repeat split; auto.
    + rewrite Hp. destruct (includes _ _) eqn:Ei; [assumption|].
      apply NoDup_snoc; [assumption|]. intros H.
      apply (proj2 (includes_In _ _)) in H. rewrite H in Ei. discriminate.
    + rewrite Hp. destruct (includes _ _); [assumption|].
      apply Forall_app. split; auto.
    + intros Hempty. rewrite Hact in Hempty.
      destruct (truthy (activeProjectRoot config)) eqn:Et.
      * rewrite Hempty in Et. discriminate.
      * exfalso. now apply (canonical_nonempty resolved).
    + intros Hnil. rewrite Hnil in Hin. destruct Hin.
  - assert (Hcan' : Forall canonical (allowedPaths c')).
    { rewrite Hp. rewrite Forall_forall in *. intros x Hx.
      apply filter_In in Hx. apply Hcan. tauto. }
    repeat split; auto.
    + rewrite Hp. now apply NoDup_filter.
    + intros Hempty. rewrite Hact in Hempty.
      destruct (String.eqb_spec (activeProjectRoot config) resolved) as [Heq|Hne].
      * destruct (allowedPaths c') as [|x l]; [reflexivity|].
        inversion Hcan'; subst. simpl in Hempty. subst x.
        exfalso. now apply (canonical_nonempty EmptyString).
      * apply Hiff in Hempty. rewrite Hp, Hempty. reflexivity.
    + intros Hnil. now apply activeRootValid_nil.
  - assert (Hin' : In resolved (allowedPaths c'))
      by (rewrite Hp; now apply includes_In).
    repeat split; auto; try (rewrite Hp; assumption).
    + intros Hempty. rewrite Hact in Hempty.
      exfalso. now apply (canonical_nonempty resolved).
    + intros Hnil. rewrite Hnil in Hin'. destruct Hin'.
Qed.
End Preserved.
End RootsFacts.

Module RootsTheorems.
Import JS Bridge AuthDefs ConfigDefs RootsDefs PathFacts AuthFacts ConfigFacts
       ConfigTheorems RootsFacts.

(** X13.  With an absolute working directory, every configuration the
    handler can reach from a well-formed one, the default one in
    particular, is well-formed: canonical roots without repetition, an
    active root that is one of them, and an active root exactly when
    there is a root. *)
Theorem reachable_wellFormed :
  forall (cwd : string) (start config : Config),
    Path.isAbsolute cwd = true ->
    wellFormed start -> reachable cwd start config -> wellFormed config.
Proof.
  intros cwd start config Hcwd Hstart Hreach.
  induction Hreach as [|config fs action targetPath _ IH].
  - exact Hstart.
  - now apply postAllowedPaths_wellFormed.
Qed.

(** X14.  Adding a directory twice is adding it once, and removing a
    directory that was just added to a well-formed configuration that
    did not hold it gives back the configuration as it was, roots and
    active root. *)
Theorem add_idempotent_and_undone_by_remove :
  forall (cwd : string) (fs : FileSystem) (config : Config) (target : string),
    namesDirectory cwd fs target ->
    let added := snd (postAllowedPaths cwd fs config (Some "add"%string)
                                       (Some target)) in
    snd (postAllowedPaths cwd fs added (Some "add"%string) (Some target)) = added
    /\ (wellFormed config ->
        includes (normalizePath cwd target) (allowedPaths config) = false ->
        snd (postAllowedPaths cwd fs added (Some "remove"%string) (Some target))
        = config).
Proof.
  intros cwd fs config target Hdir. cbv zeta.
  rewrite (post_add cwd fs config target Hdir). cbv zeta. cbn [snd].
  set (resolved := normalizePath cwd target).
  assert (Htr : truthy resolved = true) by apply ResolverFacts.normalizePath_truthy.
  split.
  - rewrite post_add by assumption. cbv zeta. cbn [snd].
    fold resolved. cbn [allowedPaths activeProjectRoot withRoots].
    assert (Hin : includes resolved
                    (if includes resolved (allowedPaths config)
                     then allowedPaths config
                     else (allowedPaths config ++ [resolved])%list) = true).
    { destruct (includes resolved (allowedPaths config)) eqn:Ei; [exact Ei|].
      apply includes_In. apply in_or_app. right. now left. }
    rewrite Hin.
    assert (Hact : truthy (if truthy (activeProjectRoot config)
                           then activeProjectRoot config else resolved) = true).
    { destruct (truthy (activeProjectRoot config)) eqn:Et; assumption. }
    rewrite Hact. reflexivity.
  - intros (Hnd & Hcan & Hvalid & Hiff) Hout.
    rewrite post_remove by assumption. cbv zeta. cbn [snd].
    fold resolved. cbn [allowedPaths activeProjectRoot withRoots].
    rewrite Hout.
    assert (Hni : ~ In resolved (allowedPaths config)).
    { intros H. apply (proj2 (includes_In _ _)) in H.
      rewrite H in Hout. discriminate. }
    rewrite filter_out_snoc by assumption.
    destruct (truthy (activeProjectRoot config)) eqn:Et.
    + destruct Hvalid as [He|Hin]; [rewrite He in Et; discriminate|].
      destruct (String.eqb_spec (activeProjectRoot config) resolved) as [Heq|_].
      * rewrite Heq in Hin. contradiction.
      * now destruct config.
    + rewrite String.eqb_refl.
      apply truthy_false in Et.
      pose proof (proj1 Hiff Et) as Hnil.
      destruct config; cbn [allowedPaths activeProjectRoot withRoots] in *.
      subst. reflexivity.
Qed.

(** X15.  Roots come and go only by request.  A root enters the set only
    through an [add] request for that very path, resolved, naming a
    directory that exists; a root leaves the set only through a
    [remove] request for that very path, naming a directory that still
    exists, so a root whose directory is gone cannot be removed.  No
    request changes the limits or the two lists of the configuration. *)
Theorem roots_change_only_by_request :
  forall (cwd : string) (fs : FileSystem) (config : Config)
         (action targetPath : option string) (r : string),
    let config' := snd (postAllowedPaths cwd fs config action targetPath) in
    (In r (allowedPaths config') -> ~ In r (allowedPaths config) ->
     action = Some "add"%string
     /\ exists target, targetPath = Some target
                       /\ r = normalizePath cwd target
                       /\ namesDirectory cwd fs target)
    /\ (In r (allowedPaths config) -> ~ In r (allowedPaths config') ->
        action = Some "remove"%string
        /\ exists target, targetPath = Some target
                          /\ r = normalizePath cwd target
                          /\ namesDirectory cwd fs target)
    /\ withRoots config' (allowedPaths config) (activeProjectRoot config)
       = config.
Proof.
  intros cwd fs config action targetPath r. cbv zeta.
  unfold postAllowedPaths.
  destruct targetPath as [target|];
    [|cbn [snd]; repeat split; try contradiction; apply withRoots_same].
  destruct (truthy target) eqn:Ht; cbn [negb];
    [|cbn [snd]; repeat split; try contradiction; apply withRoots_same].
  destruct (stat fs (normalizePath cwd target)) as [stats|] eqn:Hs;
    [|cbn [snd]; repeat split; try contradiction; apply withRoots_same].
  destruct (isDirectory stats) eqn:Hd; cbn [negb];
    [|cbn [snd]; repeat split; try contradiction; apply withRoots_same].
  assert (Hdir : namesDirectory cwd fs target) by (split; eauto).
  set (resolved := normalizePath cwd target) in *.
  destruct (actionIs action "add") eqn:Ea.
  { apply actionIs_true in Ea. subst action. cbn [snd allowedPaths withRoots].
    split; [|split].
    - intros Hin Hni. split; [reflexivity|]. exists target.
      repeat split; auto; try apply Hdir.
      destruct (includes resolved (allowedPaths config)); cbn [negb] in Hin;
        [contradiction|].
      apply in_app_or in Hin. destruct Hin as [|[<-|[]]]; [contradiction|reflexivity].
    - intros Hin Hni. exfalso. apply Hni.
      destruct (includes resolved (allowedPaths config)); cbn [negb]; auto.
      apply in_or_app. now left.
    - now destruct config. }
  destruct (actionIs action "remove") eqn:Er.
  { apply actionIs_true in Er. subst action. cbn [snd allowedPaths withRoots].
    split; [|split].
    - intros Hin Hni. apply filter_In in Hin. tauto.
    - intros Hin Hni. split; [reflexivity|]. exists target.
      repeat split; auto; try apply Hdir.
      destruct (String.eqb_spec r resolved) as [|Hne]; [assumption|].
      exfalso. apply Hni. apply filter_In. split; [assumption|].
      apply negb_true_iff. now apply String.eqb_neq.
    - now destruct config. }
  destruct (actionIs action "setActive");
    [destruct (negb (includes resolved (allowedPaths config)))|];
    cbn [snd allowedPaths withRoots];
    repeat split; try contradiction; try apply withRoots_same.
  now destruct config.
Qed.
End RootsTheorems.

Module RootsWitnesses.
Import JS Bridge AuthDefs ConfigDefs RootsDefs Demo RootsTheorems.

Lemma default_wellFormed : wellFormed DEFAULT_CONFIG.
Proof.
  repeat split; try constructor; auto.
Defined.

Lemma reachable_wellFormed_witness :
  wellFormed
    (snd (postAllowedPaths "/srv/bridge" fs DEFAULT_CONFIG
            (Some "add"%string) (Some "/home/u/proj/"%string))).
Proof.
  apply (reachable_wellFormed "/srv/bridge" DEFAULT_CONFIG _ eq_refl
           default_wellFormed).
  apply reach_request. apply reach_start.
Defined.

Lemma proj_namesDirectory : namesDirectory "/srv/bridge" fs "/home/u/proj/".
Proof.
  split; [reflexivity|]. eexists. split; [vm_compute; reflexivity | reflexivity].
Defined.

Lemma add_idempotent_and_undone_by_remove_witness :
  snd (postAllowedPaths "/srv/bridge" fs
         (snd (postAllowedPaths "/srv/bridge" fs DEFAULT_CONFIG
                 (Some "add"%string) (Some "/home/u/proj/"%string)))
         (Some "remove"%string) (Some "/home/u/proj/"%string))
  = DEFAULT_CONFIG.
Proof.
  exact (proj2 (add_idempotent_and_undone_by_remove "/srv/bridge" fs
                  DEFAULT_CONFIG "/home/u/proj/" proj_namesDirectory)
               default_wellFormed eq_refl).
Defined.

Lemma roots_change_only_by_request_witness :
  Some "remove"%string = Some "remove"%string
  /\ exists target, Some "/home/u/proj/"%string = Some target
                    /\ "/home/u/proj"%string = normalizePath "/srv/bridge" target
                    /\ namesDirectory "/srv/bridge" fs target.
Proof.
  refine (proj1 (proj2 (roots_change_only_by_request "/srv/bridge" fs config
                          (Some "remove"%string) (Some "/home/u/proj/"%string)
                          "/home/u/proj")) _ _).
  - vm_compute. auto.
  - vm_compute. tauto.
Defined.
End RootsWitnesses.

Module GateTheorems.
Import JS Bridge Gate ConfigFacts.


(** X17.  [requireToken] lets a request through exactly when it carries
    a non-empty token equal to the configured one; a request without the
    header, or with an empty one, is refused even when the configured
    token is empty.  So the token [/bootstrap] gives to a request
    without [Origin] opens the data routes exactly when the configured
    token is not empty. *)
Theorem requireToken_passes_exactly_the_token :
  forall (access : Access) (config : Config) (header : option string),
    (requireToken access header = None
     <-> exists h, header = Some h /\ h <> EmptyString /\ h = token access)
    /\ (requireToken access (tokenOf (bootstrap access config None)) = None
        <-> token access <> EmptyString).
Proof.
  intros access config header.
  assert (Hgate : forall hd, requireToken access hd = None
             <-> exists h, hd = Some h /\ h <> EmptyString /\ h = token access).
  { intros hd. unfold requireToken. destruct hd as [h|]; cbn.
    - destruct (truthy h) eqn:Et.
      + rewrite Et. cbn [negb orb].
        destruct (String.eqb_spec h (token access)) as [E|Hne]; cbn [negb].
        * split; [|reflexivity]. intros _. exists h. repeat split; auto.
          intros ->. discriminate.
        * split; [discriminate|]. intros (h' & E & _ & E'). inversion E; subst.
          congruence.
      + cbn. split; [discriminate|].
        intros (h' & E & Hne & _). inversion E; subst.
        apply truthy_false in Et. contradiction.
    - split; [discriminate|]. intros (h' & E & _). discriminate. }
  split; [apply Hgate|].
  unfold bootstrap. cbn [isSameOrigin negb tokenOf]. rewrite Hgate. split.
  - intros (h & E & Hne & _). inversion E; subst. exact Hne.
  - intros Hne. exists (token access). auto.
Qed.
End GateTheorems.

Module GateWitnesses.
Import JS Bridge Gate Demo GateDemo GateTheorems.


Lemma requireToken_passes_exactly_the_token_witness :
  requireToken demoAccess (tokenOf (bootstrap demoAccess config None)) = None.
Proof.
  apply (proj2 (proj2 (requireToken_passes_exactly_the_token demoAccess config
                         None))).
  discriminate.
Defined.
End GateWitnesses.

Module DefaultsTheorems.
Import JS Bridge AuthDefs ConfigDefs RootsDefs Probe NumberFacts ScanFacts
       PathFacts ConfigFacts RootsFacts.

(** X18.  What [/capabilities] shows of a well-formed configuration is
    consistent: it reports no active root exactly when it reports zero
    allowed paths, and the active root it reports is one of the roots
    counted. *)
Theorem capabilities_consistent :
  forall config : Config,
    wellFormed config ->
    (capActiveProjectRoot (capabilities config) = None
     <-> capAllowedPathsCount (capabilities config) = 0)
    /\ (forall active, capActiveProjectRoot (capabilities config) = Some active ->
        In active (allowedPaths config)
        /\ 0 < capAllowedPathsCount (capabilities config)).
Proof.
  intros config (_ & _ & Hvalid & Hiff). cbn [capabilities capActiveProjectRoot
                                             capAllowedPathsCount].
  destruct (truthy (activeProjectRoot config)) eqn:Et.
  - assert (Hne : activeProjectRoot config <> EmptyString).
    { intros E. rewrite E in Et. discriminate. }
    destruct Hvalid as [E|Hin]; [contradiction|].
    split.
    + split; [discriminate|]. intros Hz.
      destruct (allowedPaths config); [destruct Hin | simpl in Hz; lia].
    + intros active E. inversion E; subst. split; [exact Hin|].
      destruct (allowedPaths config); [destruct Hin | simpl; lia].
  - apply truthy_false in Et. split.
    + split; [|reflexivity]. intros _. rewrite (proj1 Hiff Et). reflexivity.
    + intros active E. discriminate.
Qed.

(** X19.  The scan of the active root is never refused.  In a
    well-formed configuration whose active root does not end with white
    space, a scan request without [path] is not answered
    [INVALID_REQUEST] or [ACCESS_DENIED]: it answers for the active root
    itself, with [NOT_FOUND] or [NOT_DIRECTORY] if the directory is gone,
    or with its tree. *)
Theorem projectScan_default_target_accepted :
  forall (cwd : string) (localeCompare : string -> string -> Z) (fuel : nat)
         (fs : FileSystem) (config : Config)
         (qMaxDepth qMaxEntries : option string) (answer : response),
    wellFormed config ->
    activeProjectRoot config <> EmptyString ->
    trim (activeProjectRoot config) = activeProjectRoot config ->
    projectScan cwd localeCompare fuel fs config None qMaxDepth qMaxEntries
    = Some answer ->
    isWithinAllowed cwd (activeProjectRoot config) (allowedPaths config) = true
    /\ (answer = Error 404 "NOT_FOUND" (Text "Path not found")
        \/ answer = Error 400 "NOT_DIRECTORY" (Text "Path is not a directory")
        \/ exists text d e,
             answer = ScanResult (activeProjectRoot config) text d e).
Proof.
  intros cwd lc fuel fs config qd qe answer (_ & Hcan & Hvalid & _) Hne Htrim H.
  destruct Hvalid as [E|Hin]; [contradiction|].
  assert (Hc : canonical (activeProjectRoot config)).
  { rewrite Forall_forall in Hcan. now apply Hcan. }
  assert (Hnorm : normalizePath cwd (activeProjectRoot config)
                  = activeProjectRoot config).
  { unfold normalizePath. rewrite Htrim. now apply resolve_of_canonical. }
  assert (Hauth : isWithinAllowed cwd (activeProjectRoot config)
                    (allowedPaths config) = true).
  { unfold isWithinAllowed.
    destruct (Z.eqb_spec (Z.of_nat (List.length (allowedPaths config))) 0)
      as [Hz|_].
    { destruct (allowedPaths config); [destruct Hin | simpl in Hz; lia]. }
    apply existsb_exists. exists (activeProjectRoot config).
    split; [exact Hin|]. rewrite Hnorm.
    rewrite (canonical_truthy _ Hc). cbn [negb].
    now rewrite String.eqb_refl. }
  split; [exact Hauth|].
  unfold projectScan in H.
  destruct (scanLimits config qd qe) as [d e].
  rewrite (canonical_truthy _ Hc) in H. cbn [negb] in H.
  rewrite Hnorm, Hauth in H. cbn [negb] in H.
  destruct (stat fs _) as [st|]; [|inversion H; auto].
  destruct (isDirectory st); cbn [negb] in H; [|inversion H; auto].
  destruct (scanDirTree _ _ _ _ _) as [r|]; [|discriminate].
  inversion H. right; right. eauto.
Qed.

(** X20.  Limits at or below zero.  With an entry limit that is zero or
    negative, as [?maxEntries=0] gives, [scanDirTree] looks at nothing
    and returns the truncation line alone; with room for entries and a
    depth limit below zero it returns nothing at all.  In both cases it
    makes no call to [readdir]. *)
Theorem scanDirTree_nonpositive_limits :
  forall (localeCompare : string -> string -> Z) (fs : FileSystem)
         (opts : ScanOpts) (fuel : nat) (rootDir : string),
    (le (optMaxEntries opts) (ofZ 0) = true ->
     scanDirTree localeCompare fs opts (S fuel) rootDir
     = Some (mkScan [truncatedLine] 0 []))
    /\ (ge (ofZ 0) (optMaxEntries opts) = false ->
        gt (ofZ 0) (optMaxDepth opts) = true ->
        scanDirTree localeCompare fs opts (S fuel) rootDir
        = Some (mkScan [] 0 [])).
Proof.
  intros lc fs opts fuel rootDir. unfold scanDirTree. split.
  - intros Hle. rewrite walk_S. cbn [entriesCount].
    unfold ge at 1. rewrite Hle. cbn [entriesCount lines listed].
    unfold ge. rewrite Hle. reflexivity.
  - intros Hroom Hdeep. rewrite walk_S. cbn [entriesCount].
    rewrite Hroom, Hdeep. cbn [entriesCount]. now rewrite Hroom.
Qed.
End DefaultsTheorems.

Module DefaultsWitnesses.
Import JS Bridge AuthDefs ConfigDefs RootsDefs Probe Demo DefaultsTheorems.

Lemma demo_wellFormed : wellFormed config.
Proof.
  split; [|split; [|split]].
  - repeat constructor. intros [].
  - repeat constructor. exists ["home"; "u"; "proj"]%string.
    split; [|reflexivity]. repeat constructor; try discriminate; reflexivity.
  - right. now left.
  - split; discriminate.
Defined.

Lemma capabilities_consistent_witness :
  In "/home/u/proj"%string (allowedPaths config)
  /\ 0 < capAllowedPathsCount (capabilities config).
Proof.
  exact (proj2 (capabilities_consistent config demo_wellFormed)
               "/home/u/proj"%string eq_refl).
Defined.

Lemma projectScan_default_target_accepted_witness :
  isWithinAllowed "/srv/bridge" (activeProjectRoot config) (allowedPaths config)
  = true
  /\ (Error 404 "NOT_FOUND" (Text "Path not found")
      = Error 404 "NOT_FOUND" (Text "Path not found")
      \/ Error 404 "NOT_FOUND" (Text "Path not found")
         = Error 400 "NOT_DIRECTORY" (Text "Path is not a directory")
      \/ exists text d e,
           Error 404 "NOT_FOUND" (Text "Path not found")
           = ScanResult (activeProjectRoot config) text d e).
Proof.
  refine (projectScan_default_target_accepted "/srv/bridge" byteOrder 10
            (mkFs (fun _ => None) (fun _ => None) (fun _ _ => None))
            config None None _ demo_wellFormed _ _ _).
  - discriminate.
  - reflexivity.
  - vm_compute. reflexivity.
Defined.

Lemma scanDirTree_nonpositive_limits_witness :
  scanDirTree byteOrder fs (mkOpts (ofZ 8) (ofZ 0) ["node_modules"%string]) 1
    "/home/u/proj"
  = Some (mkScan [truncatedLine] 0 []).
Proof.
  apply (proj1 (scanDirTree_nonpositive_limits byteOrder fs
                  (mkOpts (ofZ 8) (ofZ 0) ["node_modules"%string]) 0
                  "/home/u/proj")).
  vm_compute. reflexivity.
Defined.
End DefaultsWitnesses.

(** The built-ins and [node:path] on the documented cases. *)
Section Examples.
Import JS.
Example Number_12 : StringToNumber " 12 " = ofZ 12.
Proof. reflexivity. Qed.
Example Number_neg : StringToNumber "-5" = Fin (-5 # 1).
Proof. reflexivity. Qed.
Example Number_frac : StringToNumber "1.5e1" = ofZ 15.
Proof. reflexivity. Qed.
Example Number_frac2 : StringToNumber ".25" = Fin (25 # 100).
Proof. reflexivity. Qed.
Example Number_hex : StringToNumber "0x1F" = ofZ 31.
Proof. reflexivity. Qed.
Example Number_abc : StringToNumber "abc" = NaN.
Proof. reflexivity. Qed.
Example Number_12px : StringToNumber "12px" = NaN.
Proof. reflexivity. Qed.
Example Number_dot : StringToNumber "." = NaN.
Proof. reflexivity. Qed.
Example Number_inf : StringToNumber "-Infinity" = NegInf.
Proof. reflexivity. Qed.
Example Number_empty : StringToNumber "  " = ofZ 0.
Proof. reflexivity. Qed.
Example split_ex : split "/" "/a//b/" = [""; "a"; ""; "b"; ""]%string.
Proof. reflexivity. Qed.
Example trim_ex : trim "  a b  " = "a b"%string.
Proof. reflexivity. Qed.
Example resolve_rel : Path.resolve "/srv/app" "a/../b/./c/" = "/srv/app/b/c"%string.
Proof. reflexivity. Qed.
Example resolve_abs : Path.resolve "/srv/app" "/a/../../b" = "/b"%string.
Proof. reflexivity. Qed.
Example resolve_root : Path.resolve "/srv/app" "/.." = "/"%string.
Proof. reflexivity. Qed.
Example resolve_empty : Path.resolve "/srv/app" "" = "/srv/app"%string.
Proof. reflexivity. Qed.
Example relative_1 : Path.relative "/" "/a/b" "/a/c/d" = "../c/d"%string.
Proof. reflexivity. Qed.
Example relative_2 : Path.relative "/" "/a/b" "/a" = ".."%string.
Proof. reflexivity. Qed.
Example relative_3 : Path.relative "/" "/" "/x" = "x"%string.
Proof. reflexivity. Qed.
Example relative_4 : Path.relative "/" "/a/b" "/" = "../.."%string.
Proof. reflexivity. Qed.
Example extname_1 : Path.extname "/a/b/index.HTML" = ".HTML"%string.
Proof. reflexivity. Qed.
Example extname_2 : Path.extname "/a/b/.env" = ""%string.
Proof. reflexivity. Qed.
Example extname_3 : Path.extname "/a/b/.env.local" = ".local"%string.
Proof. reflexivity. Qed.
Example extname_4 : Path.extname "/a/b/.." = ""%string.
Proof. reflexivity. Qed.
Example extname_5 : Path.extname "/a/b/..." = "."%string.
Proof. reflexivity. Qed.
Example extname_6 : Path.extname "/a/b/x." = "."%string.
Proof. reflexivity. Qed.
Example extname_7 : Path.extname "/a.b/x/" = ""%string.
Proof. reflexivity. Qed.
Example extname_8 : Path.extname "/a/..x" = ".x"%string.
Proof. reflexivity. Qed.
Example join_1 : Path.join "/a/b" "c" = "/a/b/c"%string.
Proof. reflexivity. Qed.
Example join_2 : Path.join "/" "c" = "/c"%string.
Proof. reflexivity. Qed.
End Examples.
